(** * Network file sharing server and client: wire protocol

    A shallow embedding of [server.cpp] and [client.cpp]: the length-prefixed
    line protocol ([send_line] / [recv_line]), the XOR codec
    ([xor_in_place]), the bulk transfer ([send_file_encrypted] /
    [recv_file_encrypted]) and the server session ([handle_client]).

    Both programs carry their own copy of [send_all], [recv_all],
    [send_line], [recv_line], [xor_in_place], [host_to_be64],
    [be64_to_host], [send_file_encrypted] and [recv_file_encrypted]; the
    copies differ only in the progress text the client prints, so one
    definition stands for both.  Console output ([std::cout], [std::cerr])
    is not part of the model.

    Bytes are [Byte.byte]; a [std::string] and a socket stream are
    [list byte].  Machine integers ([uint32_t], [uint64_t], [size_t]) are
    [Z] with the wrap-around of each cast written out.  The host is
    little-endian, so [htonl] swaps bytes and a word lies in memory least
    significant byte first.

    A socket is a record of the bytes still to be read, the bytes sent,
    and a schedule that says how many bytes each [send] or [recv] call
    moves, so that every statement holds for every way the transport cuts
    the stream.  The disk is what [std::ifstream], [std::ofstream] and
    [opendir] show of it, and the programs run in a state monad over the
    socket, the disk and the list of the file system calls made.  Loops
    that the source bounds by the data run on fuel computed from the data;
    the [while (true)] loop of the server takes its fuel as an argument
    and is shown to end. *)

From Stdlib Require Import ZArith List Lia Bool Arith.
From Stdlib Require Import Strings.Byte.
From Stdlib Require Strings.String.
Import String.StringSyntax.
Delimit Scope string_scope with string.
From coqutil Require Import Z.bitblast.
From Equations Require Import Equations.
Import ListNotations.

Local Open Scope Z_scope.

(* ================================================================== *)
(** ** Bytes and machine words *)

Definition Z_of_byte (b : byte) : Z := Z.of_N (Byte.to_N b).

(** The conversion of an integer to [char]: the low eight bits. *)
Definition byte_of_Z (z : Z) : byte :=
  match Byte.of_N (Z.to_N (Z.land z 255)) with
  | Some b => b
  | None => x00
  end.

(** A string literal of the source as bytes. *)
Definition lit (s : String.string) : list byte :=
  String.list_byte_of_string s.
Arguments lit s%_string.

Definition bytes_eqb (a b : list byte) : bool :=
  if list_eq_dec Byte.byte_eq_dec a b then true else false.

(** [s.size()] *)
Definition size (s : list byte) : Z := Z.of_nat (length s).

Definition u32 (z : Z) : Z := z mod 2 ^ 32.
Definition u64 (z : Z) : Z := z mod 2 ^ 64.

(** [htonl] and [ntohl] on a little-endian host: reverse the four bytes. *)
Definition htonl (x : Z) : Z :=
  Z.lor (Z.lor (Z.shiftl (Z.land x 255) 24)
               (Z.shiftl (Z.land (Z.shiftr x 8) 255) 16))
        (Z.lor (Z.shiftl (Z.land (Z.shiftr x 16) 255) 8)
               (Z.land (Z.shiftr x 24) 255)).

Definition ntohl (x : Z) : Z := htonl x.

(** The bytes of a [uint32_t] object in memory, as [send_all (fd, &n, 4)]
    reads them, and the value of the object after [recv_all (fd, &n, 4)]
    has filled it. *)
Definition store_u32 (x : Z) : list byte :=
  [byte_of_Z x; byte_of_Z (Z.shiftr x 8);
   byte_of_Z (Z.shiftr x 16); byte_of_Z (Z.shiftr x 24)].

Definition load_le (bs : list byte) : Z :=
  fold_right (fun b acc => Z.lor (Z_of_byte b) (Z.shiftl acc 8)) 0 bs.

Definition load_u32 (bs : list byte) : Z := load_le (firstn 4 bs).

(** The same for a [uint64_t] object. *)
Definition store_u64 (x : Z) : list byte :=
  store_u32 (Z.land x 4294967295) ++ store_u32 (Z.shiftr x 32).

Definition load_u64 (bs : list byte) : Z := load_le (firstn 8 bs).

(** [host_to_be64]:
<<
    uint32_t hi = htonl((uint32_t)(host >> 32));
    uint32_t lo = htonl((uint32_t)(host & 0xFFFFFFFFULL));
    return ( (uint64_t)lo << 32 ) | hi;
>> *)
Definition host_to_be64 (host : Z) : Z :=
  let hi := htonl (u32 (Z.shiftr host 32)) in
  let lo := htonl (u32 (Z.land host 4294967295)) in
  Z.lor (u64 (Z.shiftl lo 32)) hi.

(** [be64_to_host]:
<<
    uint32_t lo = ntohl((uint32_t)(be >> 32));
    uint32_t hi = ntohl((uint32_t)(be & 0xFFFFFFFFULL));
    return ( (uint64_t)hi << 32 ) | lo;
>> *)
Definition be64_to_host (be : Z) : Z :=
  let lo := ntohl (u32 (Z.shiftr be 32)) in
  let hi := ntohl (u32 (Z.land be 4294967295)) in
  Z.lor (u64 (Z.shiftl hi 32)) lo.

(** The big-endian encodings the protocol puts on the wire. *)
Definition be32 (x : Z) : list byte :=
  [byte_of_Z (Z.shiftr x 24); byte_of_Z (Z.shiftr x 16);
   byte_of_Z (Z.shiftr x 8); byte_of_Z x].

Definition be64 (x : Z) : list byte := be32 (Z.shiftr x 32) ++ be32 x.

(* ================================================================== *)
(** ** The XOR codec *)

(** [static const uint8_t XOR_KEY = 0x5A;] *)
Definition XOR_KEY : Z := 90.

(** [buf[i] ^= XOR_KEY] on one [char]: both operands are promoted to
    [int], and the result is stored back into the [char]. *)
Definition xor_byte (b : byte) : byte :=
  byte_of_Z (Z.lxor (Z_of_byte b) XOR_KEY).

(** [buf[i] = v].  An index outside the vector is undefined in the source;
    here the store leaves the vector as it is.  Every call in the two
    programs has [n <= buf.size()]. *)
Fixpoint store_at (buf : list byte) (i : nat) (v : byte) : list byte :=
  match buf, i with
  | [], _ => []
  | _ :: t, O => v :: t
  | h :: t, S i' => h :: store_at t i' v
  end.

(** [for (size_t i = 0; i < n; ++i) buf[i] ^= XOR_KEY;] with [todo]
    iterations left. *)
Fixpoint xor_loop (todo i : nat) (buf : list byte) : list byte :=
  match todo with
  | O => buf
  | S todo' => xor_loop todo' (S i) (store_at buf i (xor_byte (nth i buf x00)))
  end.

Definition xor_in_place (buf : list byte) (n : nat) : list byte :=
  xor_loop n 0%nat buf.

(* ================================================================== *)
(** ** The socket *)

(** One end of a TCP connection.
    - [rx]: the bytes the peer has sent and this end has not read; after
      them the peer has closed, and [recv] returns 0.
    - [tx]: the bytes this end has sent, oldest first.
    - [tx_room]: [None] when the peer takes whatever is sent; [Some k] when
      it takes [k] more bytes and [send] fails from then on.
    - [sched]: how the transport cuts the calls to come: the next [send] or
      [recv] moves at most one byte more than the head of the list, and
      all that is asked once the list is used up.
    - [closed]: [close (fd)] was called. *)
Record conn : Type := mkConn {
  rx : list byte;
  tx : list byte;
  tx_room : option nat;
  sched : list nat;
  closed : bool
}.

Definition grant (c : conn) (len : nat) : nat :=
  match sched c with
  | [] => len
  | k :: _ => Nat.min len (S k)
  end.

(** [recv (fd, p, len, 0)]: the bytes put at [p]; their number is the
    value returned, 0 at the end of the stream. *)
Definition recv (c : conn) (len : nat) : list byte * conn :=
  let k := grant c len in
  (firstn k (rx c),
   mkConn (skipn k (rx c)) (tx c) (tx_room c) (tl (sched c)) (closed c)).

(** [send (fd, p, len, 0)]: the value returned, [-1] when the peer takes
    nothing more, as on a connection that the peer has reset.  The signal
    that a [send] to a peer that has closed can raise (SIGPIPE, which the
    programs leave at its default and which then ends the process) is not
    part of the model: that a session comes to its end is stated for a
    peer that keeps reading. *)
Definition send (c : conn) (p : list byte) : Z * conn :=
  let k := grant c (length p) in
  match tx_room c with
  | None =>
      (Z.of_nat k,
       mkConn (rx c) (tx c ++ firstn k p) None (tl (sched c)) (closed c))
  | Some O => (-1, mkConn (rx c) (tx c) (Some O) (tl (sched c)) (closed c))
  | Some room =>
      let k' := Nat.min k room in
      (Z.of_nat k',
       mkConn (rx c) (tx c ++ firstn k' p) (Some (room - k')%nat)
              (tl (sched c)) (closed c))
  end.

(** [send_all]:
<<
    while (len > 0) {
        ssize_t s = send(fd, p, len, 0);
        if (s <= 0) return false;
        p += s; len -= (size_t)s;
    }
    return true;
>>
    [p] is the data from the cursor on, so [len] is its length.  Each turn
    sends at least one byte: [length p] turns are enough. *)
Fixpoint send_all_loop (fuel : nat) (c : conn) (p : list byte) : bool * conn :=
  match p with
  | [] => (true, c)
  | _ :: _ =>
      match fuel with
      | O => (false, c)
      | S fuel' =>
          let (s, c') := send c p in
          if s <=? 0 then (false, c')
          else send_all_loop fuel' c' (skipn (Z.to_nat s) p)
      end
  end.

Definition send_all (c : conn) (data : list byte) : bool * conn :=
  send_all_loop (length data) c data.

(** [recv_all]:
<<
    while (len > 0) {
        ssize_t r = recv(fd, p, len, 0);
        if (r <= 0) return false;
        p += r; len -= (size_t)r;
    }
    return true;
>>
    [got] is what has been put into the buffer so far.  The result is
    [Some] of the [len] bytes on [true] and [None] on [false]; no caller
    looks at the buffer after [false]. *)
Fixpoint recv_all_loop (fuel : nat) (c : conn) (got : list byte) (len : nat)
  : option (list byte) * conn :=
  match len with
  | O => (Some got, c)
  | S _ =>
      match fuel with
      | O => (None, c)
      | S fuel' =>
          let (d, c') := recv c len in
          let r := length d in
          if (r =? 0)%nat then (None, c')
          else recv_all_loop fuel' c' (got ++ d) (len - r)
      end
  end.

Definition recv_all (c : conn) (len : nat) : option (list byte) * conn :=
  recv_all_loop len c [] len.

(** [send_line]:
<<
    uint32_t n = htonl((uint32_t)s.size());
    if (!send_all(fd, &n, sizeof(n))) return false;
    if (!send_all(fd, s.data(), s.size())) return false;
    return true;
>> *)
Definition send_line (c : conn) (s : list byte) : bool * conn :=
  let n := htonl (u32 (size s)) in
  let (ok, c1) := send_all c (store_u32 n) in
  if negb ok then (false, c1)
  else
    let (ok', c2) := send_all c1 s in
    if negb ok' then (false, c2) else (true, c2).

(** [recv_line]:
<<
    uint32_t n = 0;
    if (!recv_all(fd, &n, sizeof(n))) return false;
    n = ntohl(n);
    out.assign(n, '\0');
    if (n == 0) return true;
    if (!recv_all(fd, out.data(), n)) return false;
    return true;
>>
    [Some out] on [true], [None] on [false]. *)
Definition recv_line (c : conn) : option (list byte) * conn :=
  let (hdr, c1) := recv_all c 4 in
  match hdr with
  | None => (None, c1)
  | Some nbytes =>
      let n := ntohl (load_u32 nbytes) in
      if n =? 0 then (Some [], c1)
      else
        let (body, c2) := recv_all c1 (Z.to_nat n) in
        match body with
        | None => (None, c2)
        | Some out => (Some out, c2)
        end
  end.

(** What [send_line] puts on the wire for [s]. *)
Definition frame (s : list byte) : list byte := be32 (u32 (size s)) ++ s.

(* ================================================================== *)
(** ** Strings *)

Definition byte_eqb (a b : byte) : bool := Byte.eqb a b.

(** [s.find (ch)]: the first position of [ch], [None] for [npos]. *)
Fixpoint find_char (ch : byte) (s : list byte) : option nat :=
  match s with
  | [] => None
  | c :: t => if byte_eqb c ch then Some O else option_map S (find_char ch t)
  end.

Fixpoint starts_with (p s : list byte) : bool :=
  match p, s with
  | [], _ => true
  | _ :: _, [] => false
  | a :: p', b :: s' => byte_eqb a b && starts_with p' s'
  end.

(** [s.find (str)]: the first position at which [str] occurs. *)
Fixpoint find_str (str s : list byte) : option nat :=
  if starts_with str s then Some O
  else match s with
       | [] => None
       | _ :: t => option_map S (find_str str t)
       end.

Definition is_npos (r : option nat) : bool :=
  match r with None => true | Some _ => false end.

Definition empty (s : list byte) : bool :=
  match s with [] => true | _ :: _ => false end.

(** [std::isspace] in the C locale. *)
Definition isspace (c : byte) : bool :=
  match c with
  | x20 | x09 | x0a | x0b | x0c | x0d => true
  | _ => false
  end.

Fixpoint skip_ws (s : list byte) : list byte :=
  match s with
  | [] => []
  | c :: t => if isspace c then skip_ws t else s
  end.

Fixpoint take_word (s : list byte) : list byte * list byte :=
  match s with
  | [] => ([], [])
  | c :: t =>
      if isspace c then ([], s)
      else let (w, r) := take_word t in (c :: w, r)
  end.

(** [iss >> word] on a [std::istringstream] of which [s] is still unread:
    the word (empty when the extraction fails) and what is left. *)
Definition extract (s : list byte) : list byte * list byte :=
  take_word (skip_ws s).

(** [std::getline (in, line)] on what is left of a file: the line and the
    rest, or [None] when no character could be read. *)
Fixpoint read_to_newline (s : list byte) : list byte * list byte :=
  match s with
  | [] => ([], [])
  | c :: t =>
      if byte_eqb c x0a then ([], t)
      else let (l, r) := read_to_newline t in (c :: l, r)
  end.

Definition getline (s : list byte) : option (list byte * list byte) :=
  match s with
  | [] => None
  | _ :: _ => Some (read_to_newline s)
  end.

(* ================================================================== *)
(** ** The file system and the state of a program *)

(** What the programs see of the disk.  A path is the byte string the
    program passes to a stream constructor or to [opendir].  The system
    takes it up to its first NUL byte (the constructors pass
    [path.c_str ()]); the fields are keyed by the whole string, which is
    the same thing for a path without a NUL byte.
    - [files p]: the content of [p] when [p] is a file that
      [std::ifstream (p)] opens.
    - [dirs p]: the names [readdir] yields for [p], in its order, when
      [p] is a directory that [opendir (p)] opens.  [std::ifstream (p)]
      opens such a directory too, with [good ()] true, and no byte can
      be read from it.
    - [creatable p]: whether [std::ofstream (p, trunc)] opens.
    - [dir_end p]: the position [tellg] reports after [seekg (0, end)]
      on a stream opened on the directory [p]; it depends on the file
      system ([0x7fffffffffffffff] on ext4, [-1] where the seek fails). *)
Record filesys : Type := mkFs {
  files : list byte -> option (list byte);
  dirs : list byte -> option (list (list byte));
  creatable : list byte -> bool;
  dir_end : list byte -> Z
}.

Inductive fs_call : Type :=
| OpenRead (path : list byte)
| OpenWrite (path : list byte)
| OpenDir (path : list byte).

(** The socket of the connection, the disk, and the file system calls made
    so far, oldest first. *)
Record world : Type := mkWorld {
  sock : conn;
  disk : filesys;
  calls : list fs_call
}.

Definition M (A : Type) : Type := world -> A * world.

Definition ret {A : Type} (a : A) : M A := fun w => (a, w).

Definition bind {A B : Type} (m : M A) (k : A -> M B) : M B :=
  fun w => let (a, w') := m w in k a w'.

Declare Scope prog_scope.
Delimit Scope prog_scope with prog.
Notation "x <- m ;; k" := (bind m (fun x => k))
  (at level 61, m at next level, right associativity) : prog_scope.
Notation "m ;; k" := (bind m (fun _ => k))
  (at level 61, right associativity) : prog_scope.
Local Open Scope prog_scope.

(** A socket operation run on the connection of the program. *)
Definition on_sock {A : Type} (f : conn -> A * conn) : M A :=
  fun w => let (a, c) := f (sock w) in (a, mkWorld c (disk w) (calls w)).

Definition write_file (d : filesys) (path content : list byte) : filesys :=
  mkFs (fun p => if bytes_eqb p path then Some content else files d p)
       (dirs d) (creatable d) (dir_end d).

(** What can be read from [std::ifstream (path)] when the stream is good:
    the content of a file, nothing at all for a directory. *)
Definition readable (d : filesys) (path : list byte) : option (list byte) :=
  match files d path with
  | Some content => Some content
  | None =>
      match dirs d path with
      | Some _ => Some []
      | None => None
      end
  end.

(** [std::ifstream in (path, std::ios::binary)]: what can be read when the
    stream is good. *)
Definition open_read (path : list byte) : M (option (list byte)) :=
  fun w => (readable (disk w) path,
            mkWorld (sock w) (disk w) (calls w ++ [OpenRead path])).

(** [in.seekg (0, std::ios::end); in.tellg ()] on the stream opened on
    [path]: the length of a file, [dir_end] for a directory. *)
Definition tell_end (path : list byte) : M Z :=
  fun w => (match files (disk w) path with
            | Some content => size content
            | None => dir_end (disk w) path
            end, w).

(** [std::ofstream out (path, binary | trunc)]: [true] when the stream is
    good, and the file is then empty. *)
Definition open_write (path : list byte) : M bool :=
  fun w =>
    if creatable (disk w) path
    then (true, mkWorld (sock w) (write_file (disk w) path [])
                        (calls w ++ [OpenWrite path]))
    else (false, mkWorld (sock w) (disk w) (calls w ++ [OpenWrite path])).

(** [out.write (data, n)] on the stream opened on [path]. *)
Definition append_file (path data : list byte) : M unit :=
  fun w =>
    let old := match files (disk w) path with Some o => o | None => [] end in
    (tt, mkWorld (sock w) (write_file (disk w) path (old ++ data)) (calls w)).

(** [opendir] and the [readdir] loop. *)
Definition read_dir (path : list byte) : M (option (list (list byte))) :=
  fun w => (dirs (disk w) path,
            mkWorld (sock w) (disk w) (calls w ++ [OpenDir path])).

Definition close_sock : M unit :=
  fun w =>
    let c := sock w in
    (tt, mkWorld (mkConn (rx c) (tx c) (tx_room c) (sched c) true)
                 (disk w) (calls w)).

(* ================================================================== *)
(** ** The server *)

Definition ROOT_DIR : list byte := lit "server_files".
Definition UPLOAD_DIR : list byte := lit "server_files/uploads".
Definition USERS_FILE : list byte := lit "users.txt".

(** [std::vector<char> buf (64 * 1024)] *)
Definition buf_size : nat := (64 * 1024)%nat.

(** [safe_filename]:
<<
    return !name.empty() &&
           name.find("..") == std::string::npos &&
           name.find('/') == std::string::npos &&
           name.find('\\') == std::string::npos;
>> *)
Definition safe_filename (name : list byte) : bool :=
  negb (empty name) &&
  is_npos (find_str (lit "..") name) &&
  is_npos (find_char "/"%byte name) &&
  is_npos (find_char "\"%byte name).

(** A value together with the equation that names it, for the recursion
    on what [getline] leaves. *)
Definition inspect {A : Type} (x : A) : {y : A | x = y} := exist _ x eq_refl.

Lemma read_to_newline_length (s : list byte) :
  (length (snd (read_to_newline s)) <= length s)%nat.
Proof.
  induction s as [|a s IH]; cbn; [lia|].
  destruct (byte_eqb a x0a); [cbn; lia|].
  destruct (read_to_newline s); cbn in *; lia.
Qed.

(** Every [getline] that yields a line takes at least one character. *)
Lemma getline_shorter (rest line rest' : list byte) :
  getline rest = Some (line, rest') -> (length rest' < length rest)%nat.
Proof.
  destruct rest as [|c t]; [discriminate|].
  cbn [getline read_to_newline]. pose proof (read_to_newline_length t) as H.
  destruct (byte_eqb c x0a); [|destruct (read_to_newline t)];
    intros E; injection E as _ <-; cbn in *; lia.
Qed.

(** The [while (std::getline (in, line))] loop of [check_auth] on what is
    left of the users file:
<<
        auto pos = line.find(':');
        if (pos == std::string::npos) continue;
        std::string u = line.substr(0, pos);
        std::string p = line.substr(pos + 1);
        if (u == user && p == pass) return true;
>>
    and [return false] after the loop. *)
Equations? check_auth_loop (rest user pass : list byte) : bool
  by wf (length rest) lt :=
  check_auth_loop rest user pass with inspect (getline rest) := {
    | exist _ None _ => false
    | exist _ (Some (line, rest')) E with find_char ":"%byte line := {
        | None => check_auth_loop rest' user pass
        | Some pos =>
            let u := firstn pos line in
            let p := skipn (pos + 1) line in
            if bytes_eqb u user && bytes_eqb p pass then true
            else check_auth_loop rest' user pass
      }
  }.
Proof.
  all: exact (getline_shorter _ _ _ E).
Qed.

(** [check_auth]:
<<
    std::ifstream in(USERS_FILE);
    if (!in) return false;
    ... the loop ...
>> *)
Definition check_auth (user pass : list byte) : M bool :=
  f <- open_read USERS_FILE ;;
  match f with
  | None => ret false
  | Some content => ret (check_auth_loop content user pass)
  end.

(** [list_files]:
<<
    DIR* dir = opendir(ROOT_DIR.c_str());
    if (!dir) return "ERR: cannot open server_files\n";
    while ((de = readdir(dir)) != nullptr) {
        std::string n = de->d_name;
        if (n == "." || n == ".." || n == "uploads") continue;
        oss << n << "\n";
    }
    return oss.str();
>> *)
Definition hidden_name (n : list byte) : bool :=
  bytes_eqb n (lit ".") || bytes_eqb n (lit "..") || bytes_eqb n (lit "uploads").

Definition list_entry (oss n : list byte) : list byte :=
  if hidden_name n then oss else oss ++ n ++ [x0a].

Definition list_files : M (list byte) :=
  d <- read_dir ROOT_DIR ;;
  match d with
  | None => ret (lit "ERR: cannot open server_files" ++ [x0a])
  | Some names => ret (fold_left list_entry names [])
  end.

(** [in.read (buf.data (), n)] on what is left of the file: the bytes
    read ([in.gcount ()] is their number), what is left after them, and
    whether the stream is still good (it is not when the file ended before
    [n] bytes). *)
Definition file_read (rest : list byte) (n : nat)
  : list byte * list byte * bool :=
  (firstn n rest, skipn n rest, (n <=? length rest)%nat).

(** The loop of [send_file_encrypted]:
<<
    while (in) {
        in.read(buf.data(), (std::streamsize)buf.size());
        std::streamsize got = in.gcount();
        if (got <= 0) break;
        xor_in_place(buf, (size_t)got);
        if (!send_all(fd, buf.data(), (size_t)got)) return false;
    }
    return true;
>>
    Every turn but the last reads a full buffer: one turn more than the
    file has bytes is enough. *)
Fixpoint send_file_loop (fuel : nat) (rest : list byte) (good : bool)
  (buf : list byte) : M bool :=
  if negb good then ret true
  else
    match fuel with
    | O => ret false
    | S fuel' =>
        let '(data, rest', good') := file_read rest (length buf) in
        let got := length data in
        if (got =? 0)%nat then ret true
        else
          let buf1 := data ++ skipn got buf in
          let buf2 := xor_in_place buf1 got in
          ok <- on_sock (fun c => send_all c (firstn got buf2)) ;;
          if negb ok then ret false
          else send_file_loop fuel' rest' good' buf2
    end.

(** [send_file_encrypted]:
<<
    std::ifstream in(path, std::ios::binary);
    if (!in) return false;
    in.seekg(0, std::ios::end);
    uint64_t size = (uint64_t)in.tellg();
    in.seekg(0, std::ios::beg);
    uint64_t size_be = host_to_be64(size);
    if (!send_all(fd, &size_be, sizeof(size_be))) return false;
    std::vector<char> buf(64 * 1024);
    ... the loop ...
>> *)
Definition send_file_encrypted (path : list byte) : M bool :=
  f <- open_read path ;;
  match f with
  | None => ret false
  | Some content =>
      pos <- tell_end path ;;
      let size := u64 pos in
      let size_be := host_to_be64 size in
      ok <- on_sock (fun c => send_all c (store_u64 size_be)) ;;
      if negb ok then ret false
      else send_file_loop (S (length content)) content true
                          (repeat x00 buf_size)
  end.

(** The loop of [recv_file_encrypted]:
<<
    while (left > 0) {
        size_t chunk = (size_t)std::min<uint64_t>(buf.size(), left);
        if (!recv_all(fd, buf.data(), chunk)) return false;
        xor_in_place(buf, chunk);
        out.write(buf.data(), (std::streamsize)chunk);
        left -= chunk;
    }
    return true;
>>
    Every turn that goes on takes at least one byte from the socket. *)
Fixpoint recv_file_loop (fuel : nat) (path buf : list byte) (left : Z)
  : M bool :=
  if left <=? 0 then ret true
  else
    match fuel with
    | O => ret false
    | S fuel' =>
        let chunk := Z.to_nat (Z.min (Z.of_nat (length buf)) left) in
        r <- on_sock (fun c => recv_all c chunk) ;;
        match r with
        | None => ret false
        | Some data =>
            let buf1 := data ++ skipn chunk buf in
            let buf2 := xor_in_place buf1 chunk in
            append_file path (firstn chunk buf2) ;;
            recv_file_loop fuel' path buf2 (left - Z.of_nat chunk)
        end
    end.

(** [recv_file_encrypted]:
<<
    uint64_t size_be = 0;
    if (!recv_all(fd, &size_be, sizeof(size_be))) return false;
    uint64_t size = be64_to_host(size_be);
    std::ofstream out(path, std::ios::binary | std::ios::trunc);
    if (!out) return false;
    std::vector<char> buf(64 * 1024);
    uint64_t left = size;
    ... the loop ...
>>
    The loop gets one turn more than the stream has bytes. *)
Definition recv_file_encrypted (path : list byte) : M bool :=
  r <- on_sock (fun c => recv_all c 8) ;;
  match r with
  | None => ret false
  | Some size_be =>
      let size := be64_to_host (load_u64 size_be) in
      o <- open_write path ;;
      if negb o then ret false
      else
        fun w => recv_file_loop (S (length (rx (sock w)))) path
                                (repeat x00 buf_size) size w
  end.

(** [send_line (cfd, s)] on the socket of the client. *)
Definition say (s : list byte) : M bool := on_sock (fun c => send_line c s).

(** How a turn of the command loop ends: [continue] or the end of the
    body, or [break]. *)

Inductive flow : Type := Continue | Break.

(** One turn of the command loop of [handle_client]:
<<
        if (!recv_line(cfd, line)) break;
        std::istringstream iss(line);
        std::string cmd;
        iss >> cmd;
        if (cmd == "LIST") { ... }
        else if (cmd == "GET") { ... }
        else if (cmd == "PUT") { ... }
        else if (cmd == "QUIT") { send_line(cfd, "BYE"); break; }
        else { send_line(cfd, "ERR UnknownCmd"); }
>>
    The value of [send_line] is dropped, as in the source. *)
Definition command_step : M flow :=
  r <- on_sock recv_line ;;
  match r with
  | None => ret Break
  | Some line =>
      let (cmd, iss) := extract line in
      if bytes_eqb cmd (lit "LIST") then
        data <- list_files ;;
        say (lit "OK") ;;
        say data ;;
        ret Continue
      else if bytes_eqb cmd (lit "GET") then
        let (fname, _) := extract iss in
        if negb (safe_filename fname) then
          say (lit "ERR BadName") ;; ret Continue
        else
          let path := ROOT_DIR ++ lit "/" ++ fname in
          test <- open_read path ;;
          match test with
          | None => say (lit "ERR NotFound") ;; ret Continue
          | Some _ =>
              say (lit "OK") ;;
              ok <- send_file_encrypted path ;;
              if negb ok then ret Break else ret Continue
          end
      else if bytes_eqb cmd (lit "PUT") then
        let (fname, _) := extract iss in
        if negb (safe_filename fname) then
          say (lit "ERR BadName") ;; ret Continue
        else
          let path := UPLOAD_DIR ++ lit "/" ++ fname in
          say (lit "OK") ;;
          ok <- recv_file_encrypted path ;;
          if negb ok then ret Break else ret Continue
      else if bytes_eqb cmd (lit "QUIT") then
        say (lit "BYE") ;; ret Break
      else
        say (lit "ERR UnknownCmd") ;; ret Continue
  end.

(** [while (true) { ... }]: [None] when [fuel] turns did not end it. *)
Fixpoint command_loop (fuel : nat) (w : world) : option world :=
  match fuel with
  | O => None
  | S fuel' =>
      let (fl, w') := command_step w in
      match fl with
      | Break => Some w'
      | Continue => command_loop fuel' w'
      end
  end.

(** The test of the AUTH line:
<<
    iss >> cmd >> user >> pass;
    if (cmd != "AUTH" || user.empty() || pass.empty() || !check_auth(user, pass))
>>
    with the users file read only when the three tests before it pass. *)
Definition auth_denied (line : list byte) : M bool :=
  let (cmd, iss1) := extract line in
  let (user, iss2) := extract iss1 in
  let (pass, _) := extract iss2 in
  if negb (bytes_eqb cmd (lit "AUTH")) || empty user || empty pass
  then ret true
  else ok <- check_auth user pass ;; ret (negb ok).

(** [handle_client]: the AUTH exchange, the command loop, [close (cfd)]. *)
Definition handle_client (fuel : nat) (w : world) : option world :=
  let (r, w1) := on_sock recv_line w in
  match r with
  | None => Some (snd (close_sock w1))
  | Some line =>
      let (denied, w2) := auth_denied line w1 in
      if denied then
        Some (snd ((say (lit "AUTH_FAIL") ;; close_sock) w2))
      else
        let (_, w3) := say (lit "AUTH_OK") w2 in
        match command_loop fuel w3 with
        | None => None
        | Some w4 => Some (snd (close_sock w4))
        end
  end.

(* ================================================================== *)
(** ** Vocabulary of the statements *)

(** The connection [c] once this end has read [n] more bytes, with [s] the
    cuts still to come. *)
Definition after_recv (c : conn) (n : nat) (s : list nat) : conn :=
  mkConn (skipn n (rx c)) (tx c) (tx_room c) s (closed c).

(** The connection [c] once this end has sent [data] to a peer that takes
    everything. *)
Definition after_send (c : conn) (data : list byte) (s : list nat) : conn :=
  mkConn (rx c) (tx c ++ data) None s (closed c).

(** The connection [c] once the peer's stream has run dry under a read. *)
Definition drained (c : conn) (s : list nat) : conn :=
  mkConn [] (tx c) (tx_room c) s (closed c).

(** The far end of a connection whose near end sent [sent] and nothing
    else, with [cuts] the way the transport cuts its reads. *)
Definition peer_end (sent : list byte) (cuts : list nat) : conn :=
  mkConn sent [] None cuts false.

(** A world around a socket. *)
Definition with_sock (w : world) (c : conn) : world :=
  mkWorld c (disk w) (calls w).

(** The state after a file system call [e] and the sending of [data]. *)
Definition replied (w : world) (c : conn) (e : list fs_call)
  (data : list byte) (sch : list nat) : world :=
  mkWorld (after_send c data sch) (disk w) (calls w ++ e).

(** The far end of [c] when [c] has only sent. *)
Definition loopback (c : conn) (cuts : list nat) : conn :=
  peer_end (tx c) cuts.

(** The lines of a file, as successive [std::getline] calls yield them. *)
Equations? file_lines (rest : list byte) : list (list byte)
  by wf (length rest) lt :=
  file_lines rest with inspect (getline rest) := {
    | exist _ None _ => []
    | exist _ (Some (line, rest')) E => line :: file_lines rest'
  }.
Proof.
  exact (getline_shorter _ _ _ E).
Qed.

(** The username field and the password field of a line of the users
    file: what stands before its first colon and what stands after it. *)
Definition entry_of (line : list byte) : option (list byte * list byte) :=
  match find_char ":"%byte line with
  | None => None
  | Some pos => Some (firstn pos line, skipn (pos + 1) line)
  end.

(** The credential lookup in the words of the specification: the password
    field of the first line whose username field is [user]. *)
Fixpoint first_match_password (lines : list (list byte)) (user : list byte)
  : option (list byte) :=
  match lines with
  | [] => None
  | l :: t =>
      match entry_of l with
      | Some (u, p) =>
          if bytes_eqb u user then Some p else first_match_password t user
      | None => first_match_password t user
      end
  end.

(** A file name that [safe_filename] is meant to refuse: empty, or with
    [..], [/] or a backslash somewhere in it. *)
Definition unsafe_name (name : list byte) : Prop :=
  name = [] \/
  (exists a b, name = a ++ lit ".." ++ b) \/
  In "/"%byte name \/
  In "\"%byte name.

(** The names [list_files] shows. *)
Definition shown (names : list (list byte)) : list (list byte) :=
  filter (fun n => negb (hidden_name n)) names.

(** The three words [handle_client] reads from the AUTH line; what
    follows them on the line is not looked at. *)
Definition auth_words (line : list byte)
  : list byte * list byte * list byte :=
  let (cmd, iss1) := extract line in
  let (user, iss2) := extract iss1 in
  let (pass, _) := extract iss2 in
  (cmd, user, pass).

(** A line that the server lets in: the word [AUTH], then a user name and
    a password that some line of the users file carries. *)
Definition auth_accepts (d : filesys) (line : list byte) : Prop :=
  let '(cmd, user, pass) := auth_words line in
  cmd = lit "AUTH" /\ user <> [] /\ pass <> [] /\
  exists content entry,
    files d USERS_FILE = Some content /\
    In entry (file_lines content) /\
    entry_of entry = Some (user, pass).

(** Whether a line of the users file carries [user] and [pass]. *)
Definition entry_matches (user pass line : list byte) : bool :=
  match entry_of line with
  | Some (u, p) => bytes_eqb u user && bytes_eqb p pass
  | None => false
  end.

(** A program that takes bytes from the stream of the socket and never
    puts any back. *)
Definition shrinks {A : Type} (m : M A) : Prop :=
  forall w, (length (rx (sock (snd (m w)))) <= length (rx (sock w)))%nat.

(** The same for an operation on the socket alone. *)
Definition shrinks_conn {A : Type} (f : conn -> A * conn) : Prop :=
  forall c, (length (rx (snd (f c))) <= length (rx c))%nat.

(* ================================================================== *)
(** ** Sample data *)

(** A disk with one readable file and nothing else. *)
Definition one_file_disk (path content : list byte) : filesys :=
  mkFs (fun p => if bytes_eqb p path then Some content else None)
       (fun _ => None) (fun _ => false) (fun _ => -1).

(** An empty disk on which any file can be created. *)
Definition blank_disk : filesys :=
  mkFs (fun _ => None) (fun _ => None) (fun _ => true) (fun _ => -1).

(** A connection on which nothing has happened yet. *)
Definition fresh_conn (cuts : list nat) : conn := mkConn [] [] None cuts false.

(** A program that is about to send the file [path]. *)
Definition sender_world (path content : list byte) (cuts : list nat) : world :=
  mkWorld (fresh_conn cuts) (one_file_disk path content) [].

(** A program that is about to read [input] from its socket. *)
Definition reader_world (input : list byte) (cuts : list nat) (d : filesys)
  : world :=
  mkWorld (mkConn input [] None cuts false) d [].

(** A string of [2^32] bytes. *)
Definition four_gib : nat := Z.to_nat (2 ^ 32).
Definition big_string : list byte := repeat x00 four_gib.

(** A shared root with two files and the uploads directory. *)
Definition listing_disk : filesys :=
  mkFs (fun _ => None)
       (fun p => if bytes_eqb p ROOT_DIR
                 then Some [lit "."; lit ".."; lit "a.txt"; lit "uploads";
                            lit "b.bin"]
                 else None)
       (fun _ => false) (fun _ => -1).

(** The shared root as the server makes it at start, with its uploads
    directory and nothing else, on a file system that reports
    [0x7fffffffffffffff] at the end of a directory; nothing can be
    created. *)
Definition shared_root_disk : filesys :=
  mkFs (fun _ => None)
       (fun p => if bytes_eqb p ROOT_DIR
                 then Some [lit "."; lit ".."; lit "uploads"]
                 else if bytes_eqb p UPLOAD_DIR
                 then Some [lit "."; lit ".."]
                 else None)
       (fun _ => false) (fun _ => 9223372036854775807).

(** A users file with one line for alice. *)
Definition users_disk : filesys :=
  one_file_disk USERS_FILE (lit "alice:secret" ++ [x0a]).


(** A server disk with a users file, one shared file and the listing of
    the shared root, on which any file can be created. *)
Definition server_disk : filesys :=
  mkFs (fun p => if bytes_eqb p USERS_FILE
                 then Some (lit "alice:secret" ++ [x0a])
                 else if bytes_eqb p (lit "server_files/a.txt")
                 then Some (lit "abc")
                 else None)
       (dirs listing_disk) (fun _ => true) (fun _ => -1).

(** What a client sends in a session with a login, a listing, a download,
    an upload and QUIT. *)
Definition session_input : list byte :=
  frame (lit "AUTH alice secret") ++ frame (lit "LIST")
  ++ frame (lit "GET a.txt")
  ++ frame (lit "PUT up.bin") ++ be64 2 ++ map xor_byte (lit "hi")
  ++ frame (lit "QUIT").

(** The world [handle_client] leaves after that session. *)
Definition session_end : world :=
  match handle_client 10 (reader_world session_input [] server_disk) with
  | Some w => w
  | None => reader_world [] [] server_disk
  end.
(* ================================================================== *)
(** ** The client *)

(** [std::getline (std::cin, s)] into a fresh string, on what is left of
    standard input: the line (empty when nothing could be read) and what
    is left after it. *)
Definition cin_line (input : list byte) : list byte * list byte :=
  match getline input with
  | Some (line, rest) => (line, rest)
  | None => ([], [])
  end.

Definition mem_byte (c : byte) (chars : list byte) : bool :=
  existsb (byte_eqb c) chars.

(** [s.find_last_of (chars)]: the last position of a character of
    [chars], [None] for [npos]. *)
Fixpoint find_last_of (chars s : list byte) : option nat :=
  match s with
  | [] => None
  | c :: t =>
      match find_last_of chars t with
      | Some i => Some (S i)
      | None => if mem_byte c chars then Some O else None
      end
  end.

(** The name the client sends for an upload:
<<
    std::string fname = path;
    auto pos = fname.find_last_of("/\\");
    if (pos != std::string::npos) fname = fname.substr(pos + 1);
>> *)
Definition upload_name (path : list byte) : list byte :=
  match find_last_of ["/"; "\"]%byte path with
  | Some pos => skipn (pos + 1) path
  | None => path
  end.

(** One turn of the menu loop of [main] in [client.cpp], on what is left
    of standard input: how the turn ends and what it leaves of the input.
<<
        std::string ch; std::getline(std::cin, ch);
        if (ch == "1") {
            if (!send_line(cfd, "LIST")) { ... break; }
            if (!recv_line(cfd, resp)) { ... break; }
            if (resp != "OK") { ... continue; }
            if (!recv_line(cfd, resp)) { ... break; }
        }
        else if (ch == "2") {
            std::string fname; std::getline(std::cin, fname);
            if (fname.empty()) continue;
            std::ostringstream cmd; cmd << "GET " << fname;
            if (!send_line(cfd, cmd.str())) { ... break; }
            if (!recv_line(cfd, resp)) { ... break; }
            if (resp != "OK") { ... continue; }
            std::string outpath = fname;
            if (!recv_file_encrypted(cfd, outpath)) { ... break; }
        }
        else if (ch == "3") {
            std::string path; std::getline(std::cin, path);
            if (path.empty()) continue;
            ... fname ...
            std::ostringstream cmd; cmd << "PUT " << fname;
            if (!send_line(cfd, cmd.str())) { ... break; }
            if (!recv_line(cfd, resp)) { ... break; }
            if (resp != "OK") { ... continue; }
            if (!send_file_encrypted(cfd, path)) { ... break; }
        }
        else if (ch == "4") {
            send_line(cfd, "QUIT");
            if (recv_line(cfd, resp) && resp == "BYE") { ... }
            break;
        }
        else { ... }
>> *)
Definition client_turn (input : list byte) : M (flow * list byte) :=
  let (ch, in1) := cin_line input in
  if bytes_eqb ch (lit "1") then
    ok <- say (lit "LIST") ;;
    if negb ok then ret (Break, in1)
    else
      r <- on_sock recv_line ;;
      match r with
      | None => ret (Break, in1)
      | Some resp =>
          if negb (bytes_eqb resp (lit "OK")) then ret (Continue, in1)
          else
            r' <- on_sock recv_line ;;
            match r' with
            | None => ret (Break, in1)
            | Some _ => ret (Continue, in1)
            end
      end
  else if bytes_eqb ch (lit "2") then
    let (fname, in2) := cin_line in1 in
    if empty fname then ret (Continue, in2)
    else
      ok <- say (lit "GET " ++ fname) ;;
      if negb ok then ret (Break, in2)
      else
        r <- on_sock recv_line ;;
        match r with
        | None => ret (Break, in2)
        | Some resp =>
            if negb (bytes_eqb resp (lit "OK")) then ret (Continue, in2)
            else
              let outpath := fname in
              got <- recv_file_encrypted outpath ;;
              if negb got then ret (Break, in2) else ret (Continue, in2)
        end
  else if bytes_eqb ch (lit "3") then
    let (path, in2) := cin_line in1 in
    if empty path then ret (Continue, in2)
    else
      let fname := upload_name path in
      ok <- say (lit "PUT " ++ fname) ;;
      if negb ok then ret (Break, in2)
      else
        r <- on_sock recv_line ;;
        match r with
        | None => ret (Break, in2)
        | Some resp =>
            if negb (bytes_eqb resp (lit "OK")) then ret (Continue, in2)
            else
              sent <- send_file_encrypted path ;;
              if negb sent then ret (Break, in2) else ret (Continue, in2)
        end
  else if bytes_eqb ch (lit "4") then
    say (lit "QUIT") ;;
    on_sock recv_line ;;
    ret (Break, in1)
  else
    ret (Continue, in1).

(** The menu loop, [while (true) { ... }]: [None] when [fuel] turns did
    not end it. *)
Fixpoint client_loop (fuel : nat) (input : list byte) (w : world)
  : option (list byte * world) :=
  match fuel with
  | O => None
  | S fuel' =>
      let '(fl, input', w') := client_turn input w in
      match fl with
      | Break => Some (input', w')
      | Continue => client_loop fuel' input' w'
      end
  end.

(** [main] of [client.cpp] from the login on, with the socket connected:
    the value [main] returns and the world it leaves.
<<
    std::getline(std::cin, user);
    std::getline(std::cin, pass);
    std::ostringstream auth;
    auth << "AUTH " << user << " " << pass;
    if (!send_line(cfd, auth.str())) { ... return 1; }
    std::string resp;
    if (!recv_line(cfd, resp)) { ... return 1; }
    if (resp != "AUTH_OK") { ... return 1; }
    ... the menu loop ...
    close(cfd);
    return 0;
>> *)
Definition client_main (fuel : nat) (input : list byte) (w : world)
  : option (Z * world) :=
  let (user, in1) := cin_line input in
  let (pass, in2) := cin_line in1 in
  let (ok, w1) := say (lit "AUTH " ++ user ++ lit " " ++ pass) w in
  if negb ok then Some (1, w1)
  else
    let (r, w2) := on_sock recv_line w1 in
    match r with
    | None => Some (1, w2)
    | Some resp =>
        if negb (bytes_eqb resp (lit "AUTH_OK")) then Some (1, w2)
        else
          match client_loop fuel in2 w2 with
          | None => None
          | Some (_, w3) => Some (0, snd (close_sock w3))
          end
    end.

(* ================================================================== *)
(** ** Vocabulary of the further statements *)

(** The number a byte string spells, most significant byte first. *)
Definition be_value (bs : list byte) : Z :=
  fold_left (fun acc b => acc * 256 + Z_of_byte b) bs 0.

(** [send_line] for each string of a list, in order, as long as the sends
    succeed. *)
Fixpoint send_lines (c : conn) (ls : list (list byte)) : bool * conn :=
  match ls with
  | [] => (true, c)
  | l :: ls' =>
      let (ok, c') := send_line c l in
      if negb ok then (false, c') else send_lines c' ls'
  end.

(** [n] calls of [recv_line], as long as they succeed: the lines read. *)
Fixpoint recv_lines (n : nat) (c : conn) : list (list byte) * conn :=
  match n with
  | O => ([], c)
  | S n' =>
      match recv_line c with
      | (Some l, c') => let (ls, c'') := recv_lines n' c' in (l :: ls, c'')
      | (None, c') => ([], c')
      end
  end.

(** The file system calls the command loop may make: listing the shared
    root, reading a file that lies directly in it, and creating a file
    that lies directly in the uploads directory. *)
Definition confined (e : fs_call) : Prop :=
  match e with
  | OpenDir p => p = ROOT_DIR
  | OpenRead p =>
      exists f, safe_filename f = true /\ p = ROOT_DIR ++ lit "/" ++ f
  | OpenWrite p =>
      exists f, safe_filename f = true /\ p = UPLOAD_DIR ++ lit "/" ++ f
  end.

(** A program whose file system calls all satisfy [P], and which only
    adds to the list of calls. *)
Definition logs_only (P : fs_call -> Prop) {A : Type} (m : M A) : Prop :=
  forall w, exists e, calls (snd (m w)) = calls w ++ e /\ Forall P e.

(** A program that leaves the disk as it is but for the content of files
    whose path satisfies [P]. *)
Definition writes_only (P : list byte -> Prop) {A : Type} (m : M A) : Prop :=
  forall w,
    dirs (disk (snd (m w))) = dirs (disk w) /\
    creatable (disk (snd (m w))) = creatable (disk w) /\
    forall p, ~ P p -> files (disk (snd (m w))) p = files (disk w) p.

(** A path directly in the uploads directory, under a safe name. *)
Definition upload_path (p : list byte) : Prop :=
  exists f, safe_filename f = true /\ p = UPLOAD_DIR ++ lit "/" ++ f.

(** The file system calls of a session: the users file for the login,
    then calls confined to the shared root and the uploads directory. *)
Definition session_call (e : fs_call) : Prop :=
  e = OpenRead USERS_FILE \/ confined e.

(* ================================================================== *)
(** ** Facts about bytes and words *)

Lemma Z_of_byte_range (b : byte) : 0 <= Z_of_byte b < 256.
Proof.
  unfold Z_of_byte. pose proof (Byte.to_N_bounded b). lia.
Qed.

Lemma land_255_range (z : Z) : 0 <= Z.land z 255 < 256.
Proof.
  change 255 with (Z.ones 8). rewrite Z.land_ones by lia.
  apply Z.mod_pos_bound. lia.
Qed.

Lemma Z_of_byte_of_Z (z : Z) : Z_of_byte (byte_of_Z z) = Z.land z 255.
Proof.
  unfold Z_of_byte, byte_of_Z.
  pose proof (land_255_range z) as R.
  destruct (Byte.of_N (Z.to_N (Z.land z 255))) as [b|] eqn:E.
  - apply Byte.to_of_N in E. rewrite E. lia.
  - apply Byte.of_N_None_iff in E. lia.
Qed.

Lemma byte_of_Z_of_byte (b : byte) : byte_of_Z (Z_of_byte b) = b.
Proof. destruct b; reflexivity. Qed.

Lemma byte_of_Z_land (z : Z) : byte_of_Z (Z.land z 255) = byte_of_Z z.
Proof.
  unfold byte_of_Z. rewrite <- Z.land_assoc. reflexivity.
Qed.

Lemma byte_of_Z_ext (a b : Z) :
  Z.land a 255 = Z.land b 255 -> byte_of_Z a = byte_of_Z b.
Proof. unfold byte_of_Z. intros ->. reflexivity. Qed.

Lemma byte_lanes (i : Z) :
  0 <= i ->
  i < 8 \/ 8 <= i < 16 \/ 16 <= i < 24 \/ 24 <= i < 32 \/
  32 <= i < 40 \/ 40 <= i < 48 \/ 48 <= i < 56 \/ 56 <= i < 64 \/ 64 <= i.
Proof. lia. Qed.

(** Equality of two words built from shifts and masks: compare them bit by
    bit, one byte lane at a time, where every index test is decided. *)
Ltac bit_step :=
  match goal with
  | |- context [Z.testbit ?a ?j] => rewrite (Z.testbit_neg_r a j) by lia
  | |- context [Z.testbit 0 ?j] => rewrite (Z.testbit_0_l j)
  | |- context [Z.testbit (Z.lor ?a ?b) ?j] => rewrite (Z.lor_spec a b j)
  | |- context [Z.testbit (Z.land ?a ?b) ?j] => rewrite (Z.land_spec a b j)
  | |- context [Z.testbit (Z.lxor ?a ?b) ?j] => rewrite (Z.lxor_spec a b j)
  | |- context [Z.testbit (Z.shiftr ?a ?n) ?j] =>
      rewrite (Z.shiftr_spec a n j) by lia
  | |- context [Z.testbit (Z.shiftl ?a ?n) ?j] =>
      rewrite (Z.shiftl_spec a n j) by lia
  | |- context [Z.testbit (Z.ones ?n) ?j] =>
      rewrite (Z.testbit_ones_nonneg n j) by lia
  | |- context [Z.testbit (?a mod 2 ^ ?n) ?j] =>
      first [ rewrite (Z.mod_pow2_bits_low a n j) by lia
            | rewrite (Z.mod_pow2_bits_high a n j) by lia ]
  | |- context [?a <? ?b] =>
      first [ rewrite (proj2 (Z.ltb_lt a b)) by lia
            | rewrite (proj2 (Z.ltb_ge a b)) by lia ]
  end.

Ltac bit_lane :=
  repeat bit_step;
  rewrite ?andb_true_r, ?andb_false_r, ?orb_false_r, ?orb_false_l;
  try reflexivity; try (f_equal; lia).

Ltac bits :=
  change 255 with (Z.ones 8); change 4294967295 with (Z.ones 32);
  apply Z.bits_inj'; intros ?i ?Hi;
  let L := fresh "L" in
  destruct (byte_lanes _ Hi) as [L|[L|[L|[L|[L|[L|[L|[L|L]]]]]]]]; bit_lane.

Ltac byte_ext := apply byte_of_Z_ext; bits.

Lemma store_u32_htonl (x : Z) : store_u32 (htonl x) = be32 x.
Proof.
  unfold store_u32, be32, htonl.
  f_equal; [byte_ext|]. f_equal; [byte_ext|]. f_equal; [byte_ext|].
  f_equal. byte_ext.
Qed.

Lemma load_store_u32 (x : Z) : load_u32 (store_u32 x) = u32 x.
Proof.
  unfold load_u32, store_u32, load_le, u32. cbn [firstn fold_right].
  rewrite !Z_of_byte_of_Z. bits.
Qed.

Lemma ntohl_htonl (x : Z) : ntohl (htonl x) = u32 x.
Proof.
  unfold ntohl, htonl, u32. bits.
Qed.
Lemma u32_htonl (x : Z) : u32 (htonl x) = htonl x.
Proof. unfold u32, htonl. bits. Qed.

Lemma be32_u32 (x : Z) : be32 (u32 x) = be32 x.
Proof.
  unfold be32, u32.
  f_equal; [byte_ext|]. f_equal; [byte_ext|]. f_equal; [byte_ext|].
  f_equal. byte_ext.
Qed.

Lemma ntohl_load_be32 (x : Z) : ntohl (load_u32 (be32 x)) = u32 x.
Proof.
  rewrite <- store_u32_htonl, load_store_u32, u32_htonl.
  apply ntohl_htonl.
Qed.

Lemma u32_small (x : Z) : 0 <= x < 2 ^ 32 -> u32 x = x.
Proof. intros H. unfold u32. apply Z.mod_small. exact H. Qed.

Lemma u64_small (x : Z) : 0 <= x < 2 ^ 64 -> u64 x = x.
Proof. intros H. unfold u64. apply Z.mod_small. exact H. Qed.

Lemma u32_range (x : Z) : 0 <= u32 x < 2 ^ 32.
Proof. unfold u32. apply Z.mod_pos_bound. lia. Qed.

(** The eight bytes [send_all (fd, &size_be, 8)] sends are the big-endian
    encoding of the size. *)
Lemma store_u64_host_to_be64 (x : Z) : store_u64 (host_to_be64 x) = be64 x.
Proof.
  unfold store_u64, host_to_be64, be64.
  set (hi := htonl (u32 (Z.shiftr x 32))).
  set (lo := htonl (u32 (Z.land x 4294967295))).
  assert (Hhi : u32 hi = hi) by apply u32_htonl.
  assert (Hlo : u32 lo = lo) by apply u32_htonl.
  assert (E1 : Z.land (Z.lor (u64 (Z.shiftl lo 32)) hi) 4294967295 = hi).
  { rewrite <- Hhi, <- Hlo. unfold u32, u64. bits. }
  assert (E2 : Z.shiftr (Z.lor (u64 (Z.shiftl lo 32)) hi) 32 = lo).
  { rewrite <- Hhi, <- Hlo at 1. rewrite <- Hlo at 2. unfold u32, u64. bits. }
  rewrite E1, E2. unfold hi, lo. rewrite !store_u32_htonl, !be32_u32.
  f_equal. unfold be32.
  f_equal; [byte_ext|]. f_equal; [byte_ext|]. f_equal; [byte_ext|].
  f_equal. byte_ext.
Qed.

Lemma load_le_app4 (a b : list byte) :
  length a = 4%nat ->
  load_le (a ++ b) = Z.lor (load_le a) (Z.shiftl (load_le b) 32).
Proof.
  destruct a as [|a0 [|a1 [|a2 [|a3 [|]]]]]; try discriminate. intros _.
  unfold load_le. cbn [app fold_right].
  generalize (fold_right (fun b0 acc => Z.lor (Z_of_byte b0) (Z.shiftl acc 8)) 0 b).
  intros t.
  rewrite <- (byte_of_Z_of_byte a0), <- (byte_of_Z_of_byte a1),
    <- (byte_of_Z_of_byte a2), <- (byte_of_Z_of_byte a3).
  rewrite !Z_of_byte_of_Z. bits.
Qed.

(** [be64_to_host] of the value [recv_all (fd, &size_be, 8)] leaves in
    [size_be] when the wire carried the big-endian encoding of [x]. *)
Lemma be64_to_host_load (x : Z) : be64_to_host (load_u64 (be64 x)) = u64 x.
Proof.
  unfold load_u64, be64. 
  replace (firstn 8 (be32 (Z.shiftr x 32) ++ be32 x))
    with (be32 (Z.shiftr x 32) ++ be32 x) by reflexivity.
  rewrite load_le_app4 by reflexivity.
  unfold be64_to_host.
  set (a := load_le (be32 (Z.shiftr x 32))).
  set (b := load_le (be32 x)).
  assert (Ha : u32 a = a).
  { unfold a. change (load_le (be32 ?y)) with (load_u32 (be32 y)).
    rewrite <- store_u32_htonl, load_store_u32. unfold u32. bits. }
  assert (Hb : u32 b = b).
  { unfold b. change (load_le (be32 ?y)) with (load_u32 (be32 y)).
    rewrite <- store_u32_htonl, load_store_u32. unfold u32. bits. }
  assert (E1 : u32 (Z.shiftr (Z.lor a (Z.shiftl b 32)) 32) = u32 b).
  { rewrite <- Ha. unfold u32. bits. }
  assert (E2 : u32 (Z.land (Z.lor a (Z.shiftl b 32)) 4294967295) = a).
  { rewrite <- Ha. unfold u32. bits. }
  rewrite E1, E2, Hb. unfold a, b.
  change (load_le (be32 ?y)) with (load_u32 (be32 y)).
  rewrite !ntohl_load_be32. unfold u32, u64. bits.
Qed.

(* ================================================================== *)
(** ** Facts about the codec *)

Lemma xor_byte_involutive (b : byte) : xor_byte (xor_byte b) = b.
Proof. destruct b; reflexivity. Qed.

Lemma xor_loop_cons (todo i : nat) (h : byte) (t : list byte) :
  xor_loop todo (S i) (h :: t) = h :: xor_loop todo i t.
Proof.
  revert i t. induction todo as [|todo IH]; intros i t; [reflexivity|].
  cbn [xor_loop nth store_at]. apply IH.
Qed.

Lemma xor_in_place_nil (n : nat) : xor_in_place [] n = [].
Proof.
  unfold xor_in_place. generalize 0%nat.
  induction n as [|n IH]; intros i; [reflexivity|].
  cbn [xor_loop]. destruct i; cbn [store_at]; apply IH.
Qed.

Lemma xor_in_place_cons (h : byte) (t : list byte) (n : nat) :
  xor_in_place (h :: t) (S n) = xor_byte h :: xor_in_place t n.
Proof.
  unfold xor_in_place. cbn [xor_loop nth store_at]. apply xor_loop_cons.
Qed.

(** The loop changes the first [n] bytes and nothing else. *)
Lemma xor_in_place_spec (buf : list byte) (n : nat) :
  xor_in_place buf n = map xor_byte (firstn n buf) ++ skipn n buf.
Proof.
  revert n. induction buf as [|h t IH]; intros n.
  - rewrite xor_in_place_nil. destruct n; reflexivity.
  - destruct n as [|n]; [reflexivity|].
    rewrite xor_in_place_cons, IH. reflexivity.
Qed.

Lemma map_xor_involutive (l : list byte) : map xor_byte (map xor_byte l) = l.
Proof.
  induction l as [|h t IH]; [reflexivity|].
  cbn [map]. rewrite xor_byte_involutive, IH. reflexivity.
Qed.

Lemma firstn_exact {A : Type} (a b : list A) :
  firstn (length a) (a ++ b) = a.
Proof. induction a as [|h t IH]; cbn; [destruct b|]; congruence. Qed.

Lemma skipn_exact {A : Type} (a b : list A) :
  skipn (length a) (a ++ b) = b.
Proof. induction a as [|h t IH]; cbn; congruence. Qed.

Lemma firstn_at {A : Type} (n : nat) (a b : list A) :
  length a = n -> firstn n (a ++ b) = a.
Proof. intros <-. apply firstn_exact. Qed.

Lemma skipn_at {A : Type} (n : nat) (a b : list A) :
  length a = n -> skipn n (a ++ b) = b.
Proof. intros <-. apply skipn_exact. Qed.

(** The chunk buffer after the bytes [data] were put at its start and the
    first [length data] bytes went through the codec. *)
Lemma xor_chunk_buf (data buf : list byte) :
  xor_in_place (data ++ skipn (length data) buf) (length data)
  = map xor_byte data ++ skipn (length data) buf.
Proof.
  rewrite xor_in_place_spec, firstn_exact, skipn_exact. reflexivity.
Qed.

Lemma xor_chunk (data buf : list byte) :
  firstn (length data)
    (xor_in_place (data ++ skipn (length data) buf) (length data))
  = map xor_byte data.
Proof.
  rewrite xor_chunk_buf. rewrite <- (length_map xor_byte data).
  apply firstn_exact.
Qed.

Lemma xor_chunk_length (data buf : list byte) :
  (length data <= length buf)%nat ->
  length (xor_in_place (data ++ skipn (length data) buf) (length data))
  = length buf.
Proof.
  intros H. rewrite xor_chunk_buf, length_app, length_map, length_skipn. lia.
Qed.

(* ================================================================== *)
(** ** Facts about the socket *)

Lemma grant_bounds (c : conn) (len : nat) :
  (1 <= len -> 1 <= grant c len <= len)%nat.
Proof. unfold grant. destruct (sched c); lia. Qed.

Lemma send_all_loop_open (fuel : nat) :
  forall (c : conn) (p : list byte),
    (length p <= fuel)%nat -> tx_room c = None ->
    exists s, send_all_loop fuel c p = (true, after_send c p s).
Proof.
  induction fuel as [|fuel IH]; intros c p Hlen Hroom.
  - destruct p; [|cbn in Hlen; lia].
    exists (sched c). destruct c; cbn in *. subst.
    unfold after_send; cbn. rewrite app_nil_r. reflexivity.
  - destruct p as [|h t].
    + exists (sched c). destruct c; cbn in *. subst.
      unfold after_send; cbn. rewrite app_nil_r. reflexivity.
    + cbn [send_all_loop]. unfold send. rewrite Hroom.
      pose proof (grant_bounds c (length (h :: t))) as G.
      cbn [length] in G, Hlen.
      set (k := grant c (length (h :: t))) in *. cbn [length] in k.
      replace (Z.of_nat k <=? 0) with false by lia.
      rewrite Nat2Z.id.
      destruct (IH (mkConn (rx c) (tx c ++ firstn k (h :: t)) None
                           (tl (sched c)) (closed c))
                   (skipn k (h :: t))) as [s Hs].
      * rewrite length_skipn. cbn [length]. lia.
      * reflexivity.
      * exists s. rewrite Hs. unfold after_send. cbn [rx tx closed].
        rewrite <- app_assoc, firstn_skipn. reflexivity.
Qed.

(** [send_all] to a peer that takes everything sends all of [data],
    however the transport cuts the calls. *)
Lemma send_all_open (c : conn) (data : list byte) :
  tx_room c = None ->
  exists s, send_all c data = (true, after_send c data s).
Proof. intros H. apply send_all_loop_open; [lia | exact H]. Qed.

Lemma firstn_firstn_skipn {A : Type} (k n : nat) (l : list A) :
  (k <= n)%nat ->
  firstn k l ++ firstn (n - k) (skipn k l) = firstn n l.
Proof.
  revert n l. induction k as [|k IH]; intros n l H.
  - cbn. rewrite Nat.sub_0_r. reflexivity.
  - destruct n as [|n]; [lia|]. destruct l as [|h t].
    + cbn. rewrite firstn_nil. reflexivity.
    + cbn [firstn skipn app Nat.sub]. f_equal. apply IH. lia.
Qed.

Lemma recv_all_loop_enough (fuel : nat) :
  forall (c : conn) (got : list byte) (len : nat),
    (len <= fuel)%nat -> (len <= length (rx c))%nat ->
    exists s, recv_all_loop fuel c got len
              = (Some (got ++ firstn len (rx c)), after_recv c len s).
Proof.
  induction fuel as [|fuel IH]; intros c got len Hf Hrx.
  - assert (len = 0%nat) by lia. subst. exists (sched c).
    cbn. rewrite app_nil_r. destruct c; reflexivity.
  - destruct len as [|len].
    + exists (sched c). cbn. rewrite app_nil_r. destruct c; reflexivity.
    + cbn [recv_all_loop]. unfold recv.
      pose proof (grant_bounds c (S len)) as G.
      set (k := grant c (S len)) in *.
      rewrite length_firstn, Nat.min_l by lia.
      replace (k =? 0)%nat with false by (symmetry; apply Nat.eqb_neq; lia).
      destruct (IH (mkConn (skipn k (rx c)) (tx c) (tx_room c)
                           (tl (sched c)) (closed c))
                   (got ++ firstn k (rx c)) (S len - k)%nat) as [s Hs].
      * lia.
      * cbn [rx]. rewrite length_skipn. lia.
      * exists s. rewrite Hs. unfold after_recv. cbn [rx tx tx_room closed].
        rewrite <- app_assoc, firstn_firstn_skipn by lia.
        rewrite skipn_skipn.
        replace (S len - k + k)%nat with (S len) by lia. reflexivity.
Qed.

(** [recv_all] returns the next [len] bytes of the stream when the peer
    sent that many, however the transport cuts them. *)
Lemma recv_all_enough (c : conn) (len : nat) :
  (len <= length (rx c))%nat ->
  exists s, recv_all c len = (Some (firstn len (rx c)), after_recv c len s).
Proof.
  intros H. destruct (recv_all_loop_enough len c [] len) as [s Hs]; try lia.
  exists s. exact Hs.
Qed.

Lemma recv_all_loop_short (fuel : nat) :
  forall (c : conn) (got : list byte) (len : nat),
    (len <= fuel)%nat -> (length (rx c) < len)%nat ->
    exists s, recv_all_loop fuel c got len = (None, drained c s).
Proof.
  induction fuel as [|fuel IH]; intros c got len Hf Hrx; [lia|].
  destruct len as [|len]; [lia|].
  cbn [recv_all_loop]. unfold recv.
  pose proof (grant_bounds c (S len)) as G.
  set (k := grant c (S len)) in *.
  rewrite length_firstn.
  destruct (Nat.min k (length (rx c)) =? 0)%nat eqn:E.
  - apply Nat.eqb_eq in E. exists (tl (sched c)). unfold drained.
    assert (Hnil : rx c = []) by (destruct (rx c); [reflexivity | cbn in E; lia]).
    rewrite Hnil. rewrite skipn_nil. reflexivity.
  - apply Nat.eqb_neq in E.
    destruct (IH (mkConn (skipn k (rx c)) (tx c) (tx_room c)
                         (tl (sched c)) (closed c))
                 (got ++ firstn k (rx c))
                 (S len - Nat.min k (length (rx c)))%nat) as [s Hs].
    + lia.
    + cbn [rx]. rewrite length_skipn. lia.
    + exists s. rewrite Hs. reflexivity.
Qed.

(** [recv_all] fails when the peer closed before [len] bytes. *)
Lemma recv_all_short (c : conn) (len : nat) :
  (length (rx c) < len)%nat ->
  exists s, recv_all c len = (None, drained c s).
Proof. intros H. apply recv_all_loop_short; [lia | exact H]. Qed.

(* ================================================================== *)
(** ** Facts about the line protocol *)

Lemma after_send_twice (c : conn) (a b : list byte) (s1 s2 : list nat) :
  after_send (after_send c a s1) b s2 = after_send c (a ++ b) s2.
Proof. unfold after_send. cbn. rewrite app_assoc. reflexivity. Qed.

(** [send_line] to a peer that takes everything puts [frame s] on the
    wire. *)
Lemma send_line_open (c : conn) (s : list byte) :
  tx_room c = None ->
  exists sch, send_line c s = (true, after_send c (frame s) sch).
Proof.
  intros Hroom. unfold send_line.
  rewrite store_u32_htonl.
  destruct (send_all_open c (be32 (u32 (size s))) Hroom) as [s1 H1].
  rewrite H1. cbn [negb].
  destruct (send_all_open (after_send c (be32 (u32 (size s))) s1) s eq_refl)
    as [s2 H2].
  rewrite H2. cbn [negb]. exists s2. rewrite after_send_twice. reflexivity.
Qed.

Lemma be32_length (x : Z) : length (be32 x) = 4%nat.
Proof. reflexivity. Qed.

(** [recv_line] on a stream that starts with a four byte header for [x]:
    the length it reads is [u32 x], and it returns that many of the bytes
    that follow when the stream has them. *)
Lemma recv_line_spec (c : conn) (x : Z) (body : list byte) :
  rx c = be32 x ++ body ->
  (Z.to_nat (u32 x) <= length body)%nat ->
  exists sch,
    recv_line c
    = (Some (firstn (Z.to_nat (u32 x)) body),
       mkConn (skipn (Z.to_nat (u32 x)) body) (tx c) (tx_room c) sch (closed c)).
Proof.
  intros Hrx Hlen. unfold recv_line.
  destruct (recv_all_enough c 4) as [s1 H1].
  { rewrite Hrx, length_app, be32_length. lia. }
  rewrite H1, Hrx.
  change 4%nat with (length (be32 x)). rewrite firstn_exact.
  rewrite ntohl_load_be32.
  unfold after_recv. rewrite Hrx, skipn_exact.
  pose proof (u32_range x) as R.
  destruct (u32 x =? 0) eqn:E.
  - apply Z.eqb_eq in E. rewrite E. cbn [Z.to_nat firstn skipn].
    exists s1. reflexivity.
  - set (c1 := mkConn body (tx c) (tx_room c) s1 (closed c)).
    destruct (recv_all_enough c1 (Z.to_nat (u32 x))) as [s2 H2];
      [exact Hlen|].
    rewrite H2. exists s2. reflexivity.
Qed.

(** [recv_line] fails when the stream ends inside the declared body. *)
Lemma recv_line_short (c : conn) (x : Z) (body : list byte) :
  rx c = be32 x ++ body ->
  (length body < Z.to_nat (u32 x))%nat ->
  exists sch, recv_line c = (None, drained c sch).
Proof.
  intros Hrx Hlen. unfold recv_line.
  destruct (recv_all_enough c 4) as [s1 H1].
  { rewrite Hrx, length_app, be32_length. lia. }
  rewrite H1, Hrx.
  change 4%nat with (length (be32 x)). rewrite firstn_exact.
  rewrite ntohl_load_be32.
  unfold after_recv. rewrite Hrx, skipn_exact.
  destruct (u32 x =? 0) eqn:E.
  - apply Z.eqb_eq in E. rewrite E in Hlen. cbn in Hlen. lia.
  - set (c1 := mkConn body (tx c) (tx_room c) s1 (closed c)).
    destruct (recv_all_short c1 (Z.to_nat (u32 x))) as [s2 H2];
      [exact Hlen|].
    rewrite H2. exists s2. reflexivity.
Qed.

(** [recv_line] fails when the stream ends inside the header. *)
Lemma recv_line_no_header (c : conn) :
  (length (rx c) < 4)%nat ->
  exists sch, recv_line c = (None, drained c sch).
Proof.
  intros H. unfold recv_line.
  destruct (recv_all_short c 4 H) as [s1 H1]. rewrite H1.
  exists s1. reflexivity.
Qed.

(** [recv_line] on a stream that starts with the frame of a string
    shorter than 2^32 bytes returns the string and leaves what follows the
    frame. *)
Lemma recv_line_frame (c : conn) (s rest : list byte) :
  rx c = frame s ++ rest ->
  size s < 2 ^ 32 ->
  exists sch,
    recv_line c = (Some s, mkConn rest (tx c) (tx_room c) sch (closed c)).
Proof.
  intros Hrx Hsize. unfold frame in Hrx. rewrite <- app_assoc in Hrx.
  assert (Hn : Z.to_nat (u32 (u32 (size s))) = length s).
  { assert (E : u32 (size s) = size s)
      by (apply u32_small; unfold size in *; lia).
    rewrite !E. apply Nat2Z.id. }
  destruct (recv_line_spec c _ _ Hrx) as [sch H].
  { rewrite Hn, length_app. lia. }
  exists sch. rewrite H, Hn, firstn_exact, skipn_exact. reflexivity.
Qed.

(* ================================================================== *)
(** ** Facts about the bulk transfer *)

Lemma buf_size_pos : (0 < buf_size)%nat.
Proof. unfold buf_size. lia. Qed.

Lemma be64_u64 (x : Z) : be64 (u64 x) = be64 x.
Proof.
  unfold be64, be32, u64. cbn [app].
  f_equal; [byte_ext|]. f_equal; [byte_ext|]. f_equal; [byte_ext|].
  f_equal; [byte_ext|]. f_equal; [byte_ext|]. f_equal; [byte_ext|].
  f_equal; [byte_ext|]. f_equal. byte_ext.
Qed.

Lemma be64_length (x : Z) : length (be64 x) = 8%nat.
Proof. reflexivity. Qed.

Lemma after_send_nil (c : conn) :
  tx_room c = None -> after_send c [] (sched c) = c.
Proof.
  intros H. destruct c; cbn in *. subst. unfold after_send; cbn.
  rewrite app_nil_r. reflexivity.
Qed.

Lemma on_sock_send_all (w : world) (data : list byte) :
  tx_room (sock w) = None ->
  exists sch,
    on_sock (fun c => send_all c data) w
    = (true, with_sock w (after_send (sock w) data sch)).
Proof.
  intros H. unfold on_sock.
  destruct (send_all_open (sock w) data H) as [sch E].
  rewrite E. exists sch. reflexivity.
Qed.

Lemma send_file_loop_done (fuel : nat) (rest buf : list byte) :
  send_file_loop fuel rest false buf = ret true.
Proof. destruct fuel; reflexivity. Qed.

(** The sending loop puts the whole of what is left of the file on the
    wire, byte by byte through the codec, whatever its length is against
    the size of the buffer. *)
Lemma send_file_loop_spec (fuel : nat) :
  forall (rest buf : list byte) (w : world),
    (length rest < fuel)%nat -> (0 < length buf)%nat ->
    tx_room (sock w) = None ->
    exists sch,
      send_file_loop fuel rest true buf w
      = (true, with_sock w (after_send (sock w) (map xor_byte rest) sch)).
Proof.
  induction fuel as [|fuel IH]; intros rest buf w Hf Hb Hroom; [lia|].
  cbn [send_file_loop negb]. unfold file_read.
  set (data := firstn (length buf) rest).
  destruct (length data =? 0)%nat eqn:E.
  - apply Nat.eqb_eq in E. unfold data in E. rewrite length_firstn in E.
    assert (rest = []) by (destruct rest; [reflexivity | cbn in E; lia]).
    subst rest. exists (sched (sock w)). cbn [map].
    rewrite after_send_nil by exact Hroom. destruct w; reflexivity.
  - apply Nat.eqb_neq in E.
    unfold bind. rewrite xor_chunk.
    destruct (on_sock_send_all w (map xor_byte data) Hroom) as [s1 H1].
    rewrite H1. cbn [negb].
    assert (Hd : (length data <= length buf)%nat)
      by (unfold data; rewrite length_firstn; lia).
    destruct (length buf <=? length rest)%nat eqn:G.
    + apply Nat.leb_le in G.
      destruct (IH (skipn (length buf) rest)
                   (xor_in_place (data ++ skipn (length data) buf) (length data))
                   (with_sock w (after_send (sock w) (map xor_byte data) s1)))
        as [s2 H2].
      * rewrite length_skipn. lia.
      * rewrite xor_chunk_length by exact Hd. exact Hb.
      * reflexivity.
      * rewrite H2. exists s2. unfold with_sock. cbn [sock disk calls].
        rewrite after_send_twice. unfold data.
        rewrite <- map_app, firstn_skipn. reflexivity.
    + apply Nat.leb_gt in G. rewrite send_file_loop_done.
      exists s1. unfold data. rewrite firstn_all2 by lia. reflexivity.
Qed.

(** [send_file_encrypted] on a readable file, to a peer that takes
    everything: the eight byte big-endian size, then the content through
    the codec. *)
Lemma send_file_encrypted_spec (path content : list byte) (w : world) :
  files (disk w) path = Some content ->
  tx_room (sock w) = None ->
  exists sch,
    send_file_encrypted path w
    = (true, replied w (sock w) [OpenRead path]
               (be64 (size content) ++ map xor_byte content) sch).
Proof.
  intros Hf Hroom.
  unfold send_file_encrypted, bind, open_read, readable, tell_end.
  cbn [disk]. rewrite Hf. cbn [disk]. rewrite ?Hf.
  rewrite store_u64_host_to_be64, be64_u64.
  set (w1 := mkWorld (sock w) (disk w) (calls w ++ [OpenRead path])).
  destruct (on_sock_send_all w1 (be64 (size content)) Hroom) as [s1 H1].
  rewrite H1. cbn [negb].
  destruct (send_file_loop_spec (S (length content)) content
              (repeat x00 buf_size)
              (with_sock w1 (after_send (sock w1) (be64 (size content)) s1)))
    as [s2 H2].
  - lia.
  - rewrite repeat_length. apply buf_size_pos.
  - reflexivity.
  - rewrite H2. exists s2. unfold with_sock, replied, w1.
    cbn [sock disk calls]. rewrite after_send_twice. reflexivity.
Qed.

(** A directory opened as a stream: the eight bytes of the position at
    its end leave, and nothing after them. *)
Lemma send_file_encrypted_dir (path : list byte) (names : list (list byte))
  (w : world) :
  files (disk w) path = None ->
  dirs (disk w) path = Some names ->
  tx_room (sock w) = None ->
  exists sch,
    send_file_encrypted path w
    = (true, replied w (sock w) [OpenRead path]
               (be64 (dir_end (disk w) path)) sch).
Proof.
  intros Hf Hd Hroom.
  unfold send_file_encrypted, bind, open_read, readable, tell_end.
  cbn [disk]. rewrite Hf, Hd. cbn [disk]. rewrite ?Hf.
  rewrite store_u64_host_to_be64, be64_u64.
  set (w1 := mkWorld (sock w) (disk w) (calls w ++ [OpenRead path])).
  destruct (on_sock_send_all w1 (be64 (dir_end (disk w) path)) Hroom)
    as [s1 H1].
  rewrite H1. cbn [negb].
  destruct (send_file_loop_spec (S (@length byte [])) [] (repeat x00 buf_size)
              (with_sock w1 (after_send (sock w1)
                                        (be64 (dir_end (disk w) path)) s1)))
    as [s2 H2].
  - cbn [length]. lia.
  - rewrite repeat_length. apply buf_size_pos.
  - reflexivity.
  - rewrite H2. exists s2. unfold with_sock, replied, w1.
    cbn [sock disk calls map]. rewrite after_send_twice, app_nil_r.
    reflexivity.
Qed.
Lemma bytes_eqb_refl (p : list byte) : bytes_eqb p p = true.
Proof. unfold bytes_eqb. destruct (list_eq_dec _ p p); congruence. Qed.

Lemma bytes_eqb_eq (a b : list byte) : bytes_eqb a b = true <-> a = b.
Proof.
  unfold bytes_eqb. destruct (list_eq_dec _ a b); split; congruence.
Qed.

Lemma files_write_file (d : filesys) (path content : list byte) :
  files (write_file d path content) path = Some content.
Proof. cbn. rewrite bytes_eqb_refl. reflexivity. Qed.

Lemma recv_file_loop_eq (fuel : nat) (path buf : list byte) (left : Z) :
  recv_file_loop fuel path buf left
  = if left <=? 0 then ret true
    else match fuel with
         | O => ret false
         | S fuel' =>
             let chunk := Z.to_nat (Z.min (Z.of_nat (length buf)) left) in
             r <- on_sock (fun c => recv_all c chunk) ;;
             match r with
             | None => ret false
             | Some data =>
                 let buf1 := data ++ skipn chunk buf in
                 let buf2 := xor_in_place buf1 chunk in
                 append_file path (firstn chunk buf2) ;;
                 recv_file_loop fuel' path buf2 (left - Z.of_nat chunk)
             end
         end.
Proof. destruct fuel; reflexivity. Qed.

(** One turn of the receiving loop when the stream still holds the chunk:
    the chunk leaves the stream and its decoded bytes are appended to the
    file. *)
Lemma recv_file_loop_step (fuel : nat) (path buf : list byte) (left : Z)
  (w : world) (old : list byte) :
  0 < left ->
  (0 < length buf)%nat ->
  (Z.to_nat (Z.min (Z.of_nat (length buf)) left) <= length (rx (sock w)))%nat ->
  files (disk w) path = Some old ->
  let chunk := Z.to_nat (Z.min (Z.of_nat (length buf)) left) in
  exists sch buf',
    length buf' = length buf /\
    recv_file_loop (S fuel) path buf left w
    = recv_file_loop fuel path buf' (left - Z.of_nat chunk)
        (mkWorld (after_recv (sock w) chunk sch)
           (write_file (disk w) path
              (old ++ map xor_byte (firstn chunk (rx (sock w)))))
           (calls w)).
Proof.
  intros Hleft Hb Hrx Hold chunk. fold chunk in Hrx.
  rewrite recv_file_loop_eq.
  replace (left <=? 0) with false by lia.
  fold chunk. cbv zeta. unfold bind at 1. unfold on_sock.
  destruct (recv_all_enough (sock w) chunk Hrx) as [sch E]. rewrite E.
  remember (firstn chunk (rx (sock w))) as data eqn:Hdata.
  assert (Hd : length data = chunk)
    by (subst data; rewrite length_firstn; lia).
  exists sch,
    (xor_in_place (data ++ skipn (length data) buf) (length data)).
  split.
  - apply xor_chunk_length. unfold chunk in Hd. lia.
  - unfold bind, append_file. cbn [sock disk calls].
    rewrite Hold. clearbody chunk. subst chunk. rewrite xor_chunk.
    reflexivity.
Qed.

(** The receiving loop, when the stream holds the [left] bytes that were
    declared: they are decoded into the file and nothing after them is
    read. *)
Lemma recv_file_loop_complete (path : list byte) (fuel : nat) :
  forall (buf : list byte) (w : world) (data rest old : list byte),
    rx (sock w) = data ++ rest ->
    (length data < fuel)%nat -> (0 < length buf)%nat ->
    files (disk w) path = Some old ->
    exists w',
      recv_file_loop fuel path buf (size data) w = (true, w') /\
      files (disk w') path = Some (old ++ map xor_byte data) /\
      rx (sock w') = rest /\ tx (sock w') = tx (sock w) /\
      calls w' = calls w.
Proof.
  induction fuel as [|fuel IH]; intros buf w data rest old Hrx Hf Hb Hold;
    [lia|].
  destruct data as [|d0 data'].
  - exists w. rewrite recv_file_loop_eq. cbn. rewrite app_nil_r.
    repeat split; auto.
  - set (data := d0 :: data') in *.
    assert (Hpos : 0 < size data) by (unfold size, data; cbn [length]; lia).
    set (chunk := Z.to_nat (Z.min (Z.of_nat (length buf)) (size data))).
    assert (Hc : (1 <= chunk <= length data)%nat)
      by (unfold chunk, size in *; lia).
    destruct (recv_file_loop_step fuel path buf (size data) w old)
      as (sch & buf' & Hb' & E); auto.
    { fold chunk. rewrite Hrx, length_app. lia. }
    fold chunk in E. rewrite E. clear E.
    replace (size data - Z.of_nat chunk) with (size (skipn chunk data))
      by (unfold size; rewrite length_skipn; lia).
    destruct (IH buf'
                (mkWorld (after_recv (sock w) chunk sch)
                   (write_file (disk w) path
                      (old ++ map xor_byte (firstn chunk (rx (sock w)))))
                   (calls w))
                (skipn chunk data) rest
                (old ++ map xor_byte (firstn chunk (rx (sock w)))))
      as (w' & E & Hfile & Hrx' & Htx & Hcalls).
    + cbn [sock after_recv rx]. rewrite Hrx, skipn_app.
      replace (chunk - length data)%nat with 0%nat by lia. reflexivity.
    + rewrite length_skipn. lia.
    + lia.
    + apply files_write_file.
    + exists w'. split; [exact E|]. split; [|auto].
      rewrite Hfile, Hrx, firstn_app.
      replace (chunk - length data)%nat with 0%nat by lia.
      rewrite firstn_O, app_nil_r, <- app_assoc, <- map_app, firstn_skipn.
      reflexivity.
Qed.

(** The bytes of [avail] that fill whole buffers of [b] bytes. *)
Lemma whole_chunks_step {A : Type} (b : nat) (l : list A) :
  (0 < b <= length l)%nat ->
  firstn b l ++ firstn (b * (length (skipn b l) / b)) (skipn b l)
  = firstn (b * (length l / b)) l.
Proof.
  intros H. rewrite length_skipn.
  replace (length l / b)%nat with (1 + (length l - b) / b)%nat.
  - rewrite <- (firstn_firstn_skipn b (b * (1 + (length l - b) / b)) l) by lia.
    f_equal. f_equal. lia.
  - rewrite <- Nat.div_add_l by lia. f_equal. lia.
Qed.

(** The receiving loop, when the stream ends before the [left] bytes that
    were declared: it returns [false], and the file keeps every whole
    chunk that was decoded before. *)
Lemma recv_file_loop_truncated (path : list byte) (fuel : nat) :
  forall (buf : list byte) (left : Z) (w : world) (old : list byte),
    Z.of_nat (length (rx (sock w))) < left ->
    (length (rx (sock w)) < fuel)%nat -> (0 < length buf)%nat ->
    files (disk w) path = Some old ->
    exists w',
      recv_file_loop fuel path buf left w = (false, w') /\
      files (disk w') path
      = Some (old ++ map xor_byte
                       (firstn (length buf * (length (rx (sock w)) / length buf))
                               (rx (sock w)))) /\
      tx (sock w') = tx (sock w) /\ calls w' = calls w.
Proof.
  induction fuel as [|fuel IH]; intros buf left w old Hshort Hf Hb Hold;
    [lia|].
  set (chunk := Z.to_nat (Z.min (Z.of_nat (length buf)) left)).
  destruct (Nat.le_gt_cases chunk (length (rx (sock w)))) as [Hc|Hc].
  - assert (chunk = length buf) by (unfold chunk in *; lia).
    destruct (recv_file_loop_step fuel path buf left w old)
      as (sch & buf' & Hb' & E); auto; try lia.
    fold chunk in E. rewrite E. clear E.
    destruct (IH buf' (left - Z.of_nat chunk)
                (mkWorld (after_recv (sock w) chunk sch)
                   (write_file (disk w) path
                      (old ++ map xor_byte (firstn chunk (rx (sock w)))))
                   (calls w))
                (old ++ map xor_byte (firstn chunk (rx (sock w)))))
      as (w' & E & Hfile & Htx & Hcalls).
    + cbn [sock after_recv rx]. rewrite length_skipn. lia.
    + cbn [sock after_recv rx]. rewrite length_skipn. lia.
    + lia.
    + apply files_write_file.
    + exists w'. split; [exact E|]. split; [|auto].
      rewrite Hfile. cbn [sock after_recv rx]. rewrite Hb'.
      rewrite <- app_assoc, <- map_app. subst chunk.
      replace (Z.to_nat (Z.min (Z.of_nat (length buf)) left))
        with (length buf) by lia.
      rewrite whole_chunks_step by lia. reflexivity.
  - rewrite recv_file_loop_eq.
    replace (left <=? 0) with false by lia.
    fold chunk. cbv zeta. unfold bind, on_sock.
    destruct (recv_all_short (sock w) chunk Hc) as [sch E]. rewrite E.
    eexists. split; [reflexivity|]. cbn [sock disk calls drained tx].
    split; [|auto].
    rewrite Hold. rewrite Nat.div_small by (unfold chunk in Hc; lia).
    rewrite Nat.mul_0_r, firstn_O, app_nil_r. reflexivity.
Qed.

Lemma on_sock_recv_all_enough (w : world) (len : nat) :
  (len <= length (rx (sock w)))%nat ->
  exists sch,
    on_sock (fun c => recv_all c len) w
    = (Some (firstn len (rx (sock w))),
       with_sock w (after_recv (sock w) len sch)).
Proof.
  intros H. unfold on_sock.
  destruct (recv_all_enough (sock w) len H) as [sch E].
  rewrite E. exists sch. reflexivity.
Qed.

(** The first steps of [recv_file_encrypted] on a stream that starts with
    the header of [n]: the header is read, the file is created empty, and
    the loop starts with [n] bytes to go. *)
Lemma recv_file_encrypted_start (path : list byte) (w : world) (n : Z)
  (body : list byte) :
  rx (sock w) = be64 n ++ body ->
  0 <= n < 2 ^ 64 ->
  creatable (disk w) path = true ->
  exists sch,
    recv_file_encrypted path w
    = recv_file_loop (S (length body)) path (repeat x00 buf_size) n
        (mkWorld (mkConn body (tx (sock w)) (tx_room (sock w)) sch
                         (closed (sock w)))
                 (write_file (disk w) path [])
                 (calls w ++ [OpenWrite path])).
Proof.
  intros Hrx Hn Hc. unfold recv_file_encrypted, bind.
  destruct (on_sock_recv_all_enough w 8) as [sch E].
  { rewrite Hrx, length_app, be64_length. lia. }
  rewrite E, Hrx. change 8%nat with (length (be64 n)).
  rewrite firstn_exact, be64_to_host_load, u64_small by exact Hn.
  unfold open_write, with_sock, after_recv. cbn [sock disk calls].
  rewrite Hc, Hrx, skipn_exact. cbn [negb rx sock].
  exists sch. reflexivity.
Qed.

(** [recv_file_encrypted] on a stream that holds a whole transfer: the
    decoded payload is the new content of the file, and the stream is left
    right after the payload. *)
Lemma recv_file_encrypted_complete (path : list byte) (w : world)
  (data rest : list byte) :
  rx (sock w) = be64 (size data) ++ data ++ rest ->
  size data < 2 ^ 64 ->
  creatable (disk w) path = true ->
  exists w',
    recv_file_encrypted path w = (true, w') /\
    files (disk w') path = Some (map xor_byte data) /\
    rx (sock w') = rest /\ tx (sock w') = tx (sock w) /\
    calls w' = calls w ++ [OpenWrite path].
Proof.
  intros Hrx Hn Hc.
  destruct (recv_file_encrypted_start path w (size data) (data ++ rest))
    as [sch E]; auto.
  { unfold size in *. lia. }
  rewrite E.
  destruct (recv_file_loop_complete path (S (length (data ++ rest)))
              (repeat x00 buf_size)
              (mkWorld (mkConn (data ++ rest) (tx (sock w)) (tx_room (sock w))
                               sch (closed (sock w)))
                       (write_file (disk w) path [])
                       (calls w ++ [OpenWrite path]))
              data rest [])
    as (w' & E' & Hfile & Hrest & Htx & Hcalls).
  - reflexivity.
  - rewrite length_app. lia.
  - rewrite repeat_length. apply buf_size_pos.
  - apply files_write_file.
  - exists w'. cbn in Hfile, Htx, Hcalls. auto.
Qed.

(* ================================================================== *)
(** ** The claims on the codec and the transfers *)

(** C3.  The byte transform is its own inverse: for every buffer [b] and
    every count [n] that does not exceed the length of [b], running
    [xor_in_place] twice over the first [n] bytes gives [b] back. *)
Theorem xor_in_place_self_inverse (b : list byte) (n : nat) :
  (n <= length b)%nat ->
  xor_in_place (xor_in_place b n) n = b.
Proof.
  intros H. rewrite (xor_in_place_spec b n).
  rewrite xor_in_place_spec.
  assert (L : length (map xor_byte (firstn n b)) = n)
    by (rewrite length_map, length_firstn; lia).
  rewrite (firstn_at n), (skipn_at n) by exact L.
  rewrite map_xor_involutive. apply firstn_skipn.
Qed.

Lemma xor_in_place_self_inverse_witness :
  (3 <= length (lit "hello"))%nat /\
  xor_in_place (xor_in_place (lit "hello") 3) 3 = lit "hello".
Proof.
  split; [vm_compute; lia|].
  apply (xor_in_place_self_inverse (lit "hello") 3). vm_compute. lia.
Defined.

(** C1.  Bulk transfer round trip: a file of any length [L < 2^64] (zero
    included, and whatever [L] is against the 64 KiB buffer) that
    [send_file_encrypted] sends is, after [recv_file_encrypted] has read
    the stream at the far end, the content of the destination file, byte
    for byte, however the transport cuts the sends and the reads.  What
    goes over the wire is the eight byte big-endian length and then the
    content through the codec. *)
Theorem bulk_roundtrip (src dst data : list byte) (ws : world)
  (dr : filesys) (cuts : list nat) :
  files (disk ws) src = Some data ->
  tx_room (sock ws) = None ->
  tx (sock ws) = [] ->
  size data < 2 ^ 64 ->
  creatable dr dst = true ->
  exists ws' wr',
    send_file_encrypted src ws = (true, ws') /\
    tx (sock ws') = be64 (size data) ++ map xor_byte data /\
    recv_file_encrypted dst (mkWorld (loopback (sock ws') cuts) dr [])
    = (true, wr') /\
    files (disk wr') dst = Some data.
Proof.
  intros Hsrc Hroom Htx Hsize Hdst.
  destruct (send_file_encrypted_spec src data ws Hsrc Hroom) as [sch Es].
  rewrite Es. eexists. 
  assert (Hsent : tx (sock (replied ws (sock ws) [OpenRead src]
                     (be64 (size data) ++ map xor_byte data) sch))
                  = be64 (size data) ++ map xor_byte data)
    by (cbn; rewrite Htx; reflexivity).
  destruct (recv_file_encrypted_complete dst
              (mkWorld (loopback (replied ws (sock ws) [OpenRead src]
                     (be64 (size data) ++ map xor_byte data) sch).(sock) cuts)
                       dr [])
              (map xor_byte data) [])
    as (wr' & Er & Hfile & _).
  - unfold loopback, peer_end. cbn [sock rx]. rewrite Hsent.
    unfold size. rewrite length_map, app_nil_r. reflexivity.
  - unfold size in *. rewrite length_map. exact Hsize.
  - exact Hdst.
  - exists wr'. split; [reflexivity|]. split; [exact Hsent|].
    split; [exact Er|]. rewrite Hfile, map_xor_involutive. reflexivity.
Qed.

Lemma bulk_roundtrip_witness :
  let src := lit "a.bin" in
  let dst := lit "b.bin" in
  let data := lit "payload" in
  let ws := sender_world src data [0; 2]%nat in
  files (disk ws) src = Some data /\
  tx_room (sock ws) = None /\
  tx (sock ws) = [] /\
  size data < 2 ^ 64 /\
  creatable blank_disk dst = true /\
  exists ws' wr',
    send_file_encrypted src ws = (true, ws') /\
    tx (sock ws') = be64 (size data) ++ map xor_byte data /\
    recv_file_encrypted dst (mkWorld (loopback (sock ws') [1; 0; 3]%nat)
                                     blank_disk [])
    = (true, wr') /\
    files (disk wr') dst = Some data.
Proof.
  intros src dst data ws.
  assert (H1 : files (disk ws) src = Some data) by reflexivity.
  assert (H2 : tx_room (sock ws) = None) by reflexivity.
  assert (H3 : tx (sock ws) = []) by reflexivity.
  assert (H4 : size data < 2 ^ 64) by (vm_compute; reflexivity).
  assert (H5 : creatable blank_disk dst = true) by reflexivity.
  repeat (split; [assumption|]).
  exact (bulk_roundtrip src dst data ws blank_disk [1; 0; 3]%nat
           H1 H2 H3 H4 H5).
Defined.

(** C8.  A failed receive is not rolled back: when the stream carries the
    header of a declared length [n] and then ends before [n] payload
    bytes, [recv_file_encrypted] returns [false], and the destination
    file, created empty by the call, holds the decoded bytes of every
    whole 64 KiB chunk that arrived before the end of the stream. *)
Theorem recv_file_not_rolled_back (path : list byte) (w : world) (n : Z)
  (avail : list byte) :
  rx (sock w) = be64 n ++ avail ->
  0 <= n < 2 ^ 64 ->
  size avail < n ->
  creatable (disk w) path = true ->
  exists w',
    recv_file_encrypted path w = (false, w') /\
    files (disk w') path
    = Some (map xor_byte
              (firstn (buf_size * (length avail / buf_size)) avail)).
Proof.
  intros Hrx Hn Hshort Hc.
  destruct (recv_file_encrypted_start path w n avail Hrx Hn Hc) as [sch E].
  rewrite E.
  destruct (recv_file_loop_truncated path (S (length avail))
              (repeat x00 buf_size) n
              (mkWorld (mkConn avail (tx (sock w)) (tx_room (sock w)) sch
                               (closed (sock w)))
                       (write_file (disk w) path [])
                       (calls w ++ [OpenWrite path]))
              [])
    as (w' & E' & Hfile & _).
  - exact Hshort.
  - cbn [sock rx]. lia.
  - rewrite repeat_length. apply buf_size_pos.
  - apply files_write_file.
  - exists w'. split; [exact E'|].
    rewrite Hfile, repeat_length. reflexivity.
Qed.

Lemma recv_file_not_rolled_back_witness :
  let path := lit "big.dat" in
  let avail := repeat "A"%byte (buf_size + 4) in
  let w := reader_world (be64 70000 ++ avail) [7; 0]%nat blank_disk in
  rx (sock w) = be64 70000 ++ avail /\
  0 <= 70000 < 2 ^ 64 /\
  size avail < 70000 /\
  creatable (disk w) path = true /\
  exists w',
    recv_file_encrypted path w = (false, w') /\
    files (disk w') path
    = Some (map xor_byte
              (firstn (buf_size * (length avail / buf_size)) avail)).
Proof.
  intros path avail w.
  assert (H1 : rx (sock w) = be64 70000 ++ avail) by reflexivity.
  assert (H2 : 0 <= 70000 < 2 ^ 64) by lia.
  assert (H3 : size avail < 70000) by (vm_compute; reflexivity).
  assert (H4 : creatable (disk w) path = true) by reflexivity.
  repeat (split; [assumption|]).
  exact (recv_file_not_rolled_back path w 70000 avail H1 H2 H3 H4).
Defined.

(* ================================================================== *)
(** ** The claims on the line protocol *)

Lemma Some_inj {A : Type} (x y : A) : Some x = Some y -> x = y.
Proof. intros H. injection H as H. exact H. Qed.

Lemma size_big_string : size big_string = 2 ^ 32.
Proof.
  unfold size, big_string. rewrite repeat_length.
  unfold four_gib. apply Z2Nat.id. lia.
Qed.

Lemma big_string_not_empty : big_string <> [].
Proof.
  intros E. pose proof size_big_string as H. rewrite E in H.
  cbn in H. lia.
Qed.

(** What [recv_line] returns at the far end of a connection on which
    [send_line s] was the only thing sent: the first [size s mod 2^32]
    bytes of [s]. *)
Lemma recv_line_of_frame (s later : list byte) (cuts : list nat) :
  exists sch,
    recv_line (peer_end (frame s ++ later) cuts)
    = (Some (firstn (Z.to_nat (u32 (size s))) s),
       peer_end (skipn (Z.to_nat (u32 (size s))) s ++ later) sch).
Proof.
  pose proof (u32_range (size s)) as R.
  assert (Hle : u32 (size s) <= size s).
  { unfold u32, size in *. apply Z.mod_le; lia. }
  assert (Hn : (Z.to_nat (u32 (size s)) <= length s)%nat)
    by (unfold size in *; lia).
  destruct (recv_line_spec (peer_end (frame s ++ later) cuts)
              (u32 (size s)) (s ++ later)) as [sch E].
  - unfold frame. cbn [peer_end rx]. rewrite <- app_assoc. reflexivity.
  - rewrite (u32_small (u32 (size s))) by exact R.
    rewrite length_app. lia.
  - rewrite (u32_small (u32 (size s))) in E by exact R.
    exists sch. rewrite E. unfold peer_end. cbn [tx tx_room closed].
    rewrite firstn_app, skipn_app.
    replace (Z.to_nat (u32 (size s)) - length s)%nat with 0%nat by lia.
    cbn [firstn skipn]. rewrite app_nil_r. reflexivity.
Qed.

(** C2 as stated fails for a string of [2^32] bytes: its length header is
    zero, so the far end reads the empty string. *)
Lemma framing_roundtrip_fails_at_4GiB :
  exists c1,
    send_line (fresh_conn []) big_string = (true, c1) /\
    fst (recv_line (loopback c1 [])) = Some [] /\
    fst (recv_line (loopback c1 [])) <> Some big_string.
Proof.
  destruct (send_line_open (fresh_conn []) big_string eq_refl) as [sch E].
  eexists. split; [exact E|].
  unfold loopback, after_send, fresh_conn. cbn [tx app].
  destruct (recv_line_of_frame big_string [] []) as [sch' R].
  rewrite app_nil_r in R. rewrite R. cbn [fst].
  rewrite size_big_string.
  replace (u32 (2 ^ 32)) with 0 by reflexivity.
  cbn [Z.to_nat firstn]. split; [reflexivity|].
  intros H. apply big_string_not_empty. symmetry.
  apply Some_inj. exact H.
Qed.

(** C2, amended.  Framing round trip: for every byte string [b] shorter
    than [2^32] bytes, the empty string included, [recv_line] at the far
    end of a connection returns exactly [b] for what [send_line b] wrote,
    however the transport cuts the calls, and it reads nothing of what
    was sent after the frame (for the empty string: nothing after the four
    bytes of the zero header). *)
Theorem framing_roundtrip (c : conn) (b later : list byte) (cuts : list nat) :
  tx_room c = None ->
  tx c = [] ->
  size b < 2 ^ 32 ->
  exists c1 sch,
    send_line c b = (true, c1) /\
    recv_line (peer_end (tx c1 ++ later) cuts) = (Some b, peer_end later sch).
Proof.
  intros Hroom Htx Hsize.
  destruct (send_line_open c b Hroom) as [s1 E1].
  exists (after_send c (frame b) s1).
  destruct (recv_line_frame (peer_end (frame b ++ later) cuts) b later)
    as [s2 E2]; [reflexivity | exact Hsize |].
  exists s2. split; [exact E1|].
  cbn [after_send tx]. rewrite Htx. exact E2.
Qed.

Lemma framing_roundtrip_witness :
  tx_room (fresh_conn [0; 1]%nat) = None /\
  tx (fresh_conn [0; 1]%nat) = [] /\
  size [] < 2 ^ 32 /\
  exists c1 sch,
    send_line (fresh_conn [0; 1]%nat) [] = (true, c1) /\
    recv_line (peer_end (tx c1 ++ lit "next") [2]%nat)
    = (Some [], peer_end (lit "next") sch).
Proof.
  assert (H1 : tx_room (fresh_conn [0; 1]%nat) = None) by reflexivity.
  assert (H2 : tx (fresh_conn [0; 1]%nat) = []) by reflexivity.
  assert (H3 : size [] < 2 ^ 32) by (vm_compute; reflexivity).
  repeat (split; [assumption|]).
  exact (framing_roundtrip (fresh_conn [0; 1]%nat) [] (lit "next") [2]%nat
           H1 H2 H3).
Defined.

(** C10.  The length header is the length modulo [2^32]: [send_line s]
    writes the four byte big-endian encoding of [s.size() mod 2^32] and
    then all the bytes of [s].  The far end then reads the first
    [s.size() mod 2^32] bytes of [s] as the line, and that is [s] exactly
    when [s] is shorter than [2^32] bytes. *)
Theorem send_line_length_truncation (c : conn) (s : list byte)
  (cuts : list nat) :
  tx_room c = None ->
  exists c1,
    send_line c s = (true, c1) /\
    tx c1 = tx c ++ be32 (size s mod 2 ^ 32) ++ s /\
    fst (recv_line (peer_end (be32 (size s mod 2 ^ 32) ++ s) cuts))
    = Some (firstn (Z.to_nat (size s mod 2 ^ 32)) s) /\
    (fst (recv_line (peer_end (be32 (size s mod 2 ^ 32) ++ s) cuts)) = Some s
     <-> size s < 2 ^ 32).
Proof.
  intros Hroom.
  destruct (send_line_open c s Hroom) as [s1 E1].
  exists (after_send c (frame s) s1). split; [exact E1|].
  split; [reflexivity|].
  destruct (recv_line_of_frame s [] cuts) as [s2 E2].
  rewrite app_nil_r in E2. unfold frame, u32 in E2.
  rewrite E2. cbn [fst]. split; [reflexivity|].
  pose proof (Z.mod_pos_bound (size s) (2 ^ 32) ltac:(lia)) as R.
  split.
  - intros H. apply Some_inj in H.
    apply (f_equal (@length byte)) in H. rewrite length_firstn in H.
    unfold size in *. lia.
  - intros H. rewrite Z.mod_small by (unfold size in *; lia).
    unfold size. rewrite Nat2Z.id, firstn_all. reflexivity.
Qed.

Lemma send_line_length_truncation_witness :
  tx_room (fresh_conn [1]%nat) = None /\
  exists c1,
    send_line (fresh_conn [1]%nat) (lit "LIST") = (true, c1) /\
    tx c1 = tx (fresh_conn [1]%nat)
            ++ be32 (size (lit "LIST") mod 2 ^ 32) ++ lit "LIST" /\
    fst (recv_line (peer_end (be32 (size (lit "LIST") mod 2 ^ 32)
                              ++ lit "LIST") [0]%nat))
    = Some (firstn (Z.to_nat (size (lit "LIST") mod 2 ^ 32)) (lit "LIST")) /\
    (fst (recv_line (peer_end (be32 (size (lit "LIST") mod 2 ^ 32)
                               ++ lit "LIST") [0]%nat))
     = Some (lit "LIST")
     <-> size (lit "LIST") < 2 ^ 32).
Proof.
  assert (H1 : tx_room (fresh_conn [1]%nat) = None) by reflexivity.
  split; [assumption|].
  exact (send_line_length_truncation (fresh_conn [1]%nat) (lit "LIST")
           [0]%nat H1).
Defined.

(* ================================================================== *)
(** ** Facts about the credential check *)

Lemma file_lines_eq (rest : list byte) :
  file_lines rest
  = match getline rest with
    | None => []
    | Some (line, rest') => line :: file_lines rest'
    end.
Proof.
  funelim (file_lines rest);
    match goal with E : getline _ = _ |- _ => rewrite E end; reflexivity.
Qed.

(** The loop of [check_auth] answers [true] exactly when some line of the
    file carries the user name and the password. *)
Lemma check_auth_loop_existsb (rest user pass : list byte) :
  check_auth_loop rest user pass
  = existsb (entry_matches user pass) (file_lines rest).
Proof.
  funelim (check_auth_loop rest user pass);
    rewrite file_lines_eq;
    match goal with E : getline _ = _ |- _ => rewrite E end;
    cbn [existsb]; [reflexivity | | ];
    unfold entry_matches at 1, entry_of;
    match goal with F : find_char _ _ = _ |- _ => rewrite F end.
  - destruct (bytes_eqb (firstn pos line) user
              && bytes_eqb (skipn (pos + 1) line) pass); [reflexivity|].
    cbn [orb]. assumption.
  - cbn [orb]. assumption.
Qed.

Lemma entry_matches_iff (user pass line : list byte) :
  entry_matches user pass line = true <-> entry_of line = Some (user, pass).
Proof.
  unfold entry_matches. destruct (entry_of line) as [[u p]|].
  - rewrite andb_true_iff, !bytes_eqb_eq. split.
    + intros [-> ->]. reflexivity.
    + intros E. injection E as -> ->. auto.
  - split; discriminate.
Qed.

(** A run of [check_auth]: one attempt to open the users file, and the
    answer of the loop on its content. *)
Lemma check_auth_run (w : world) (user pass : list byte) :
  check_auth user pass w
  = (match files (disk w) USERS_FILE with
     | Some content => existsb (entry_matches user pass) (file_lines content)
     | None => false
     end,
     mkWorld (sock w) (disk w) (calls w ++ [OpenRead USERS_FILE])).
Proof.
  unfold check_auth, bind, open_read, readable.
  destruct (files (disk w) USERS_FILE) as [content|]; cbn [ret].
  - rewrite check_auth_loop_existsb. reflexivity.
  - destruct (dirs (disk w) USERS_FILE); cbn [ret]; [|reflexivity].
    rewrite check_auth_loop_existsb. reflexivity.
Qed.

Lemma credentials_iff (d : filesys) (user pass : list byte) :
  match files d USERS_FILE with
  | Some content => existsb (entry_matches user pass) (file_lines content)
  | None => false
  end = true <->
  exists content line,
    files d USERS_FILE = Some content /\
    In line (file_lines content) /\
    entry_of line = Some (user, pass).
Proof.
  destruct (files d USERS_FILE) as [content|].
  - rewrite existsb_exists. split.
    + intros (line & Hin & Hm). exists content, line.
      apply entry_matches_iff in Hm. auto.
    + intros (content' & line & E & Hin & Hm). injection E as <-.
      exists line. split; [exact Hin|]. apply entry_matches_iff. exact Hm.
  - split; [discriminate|]. intros (? & ? & E & _). discriminate.
Qed.

(* ================================================================== *)
(** ** The claim on the credential check *)

(** C4 as stated fails when a user name stands on two lines: the second
    line lets the user in with its password, though the first line with
    that user name carries another one. *)
Lemma check_auth_not_first_match :
  let store := lit "alice:a" ++ [x0a] ++ lit "alice:b" ++ [x0a] in
  let w := reader_world [] [] (one_file_disk USERS_FILE store) in
  fst (check_auth (lit "alice") (lit "b") w) = true /\
  first_match_password (file_lines store) (lit "alice") = Some (lit "a") /\
  first_match_password (file_lines store) (lit "alice") <> Some (lit "b").
Proof.
  vm_compute. repeat split; discriminate.
Qed.

(** C4, amended.  The credential check looks for a line that carries both
    the user name and the password: [check_auth] succeeds if and only if
    the users file can be opened and some line of it has the given user
    name before its first colon and the given password after it.  When a
    user name stands on several lines, each of them lets the user in with
    its own password. *)
Theorem check_auth_any_matching_line (w : world) (user pass : list byte) :
  fst (check_auth user pass w) = true <->
  exists content line,
    files (disk w) USERS_FILE = Some content /\
    In line (file_lines content) /\
    entry_of line = Some (user, pass).
Proof.
  rewrite check_auth_run. cbn [fst]. apply credentials_iff.
Qed.

(* ================================================================== *)
(** ** Facts about strings *)

Lemma byte_eqb_eq (a b : byte) : byte_eqb a b = true <-> a = b.
Proof.
  unfold byte_eqb. split; [apply Byte.byte_dec_bl | apply Byte.byte_dec_lb].
Qed.

Lemma find_char_spec (c : byte) (s : list byte) :
  match find_char c s with
  | Some _ => In c s
  | None => ~ In c s
  end.
Proof.
  induction s as [|h t IH]; cbn [find_char In]; [tauto|].
  destruct (byte_eqb h c) eqn:E.
  - apply byte_eqb_eq in E. auto.
  - assert (h <> c) by (intros F; apply byte_eqb_eq in F; congruence).
    destruct (find_char c t); cbn; tauto.
Qed.

Lemma starts_with_iff (p s : list byte) :
  starts_with p s = true <-> exists b, s = p ++ b.
Proof.
  revert s. induction p as [|a p IH]; intros s; cbn [starts_with].
  - split; [exists s; reflexivity | reflexivity].
  - destruct s as [|h t]; cbn [starts_with].
    + split; [discriminate | intros [b E]; discriminate].
    + rewrite andb_true_iff, byte_eqb_eq, IH. split.
      * intros [-> [b ->]]. exists b. reflexivity.
      * intros [b E]. injection E as -> ->. split; [reflexivity|].
        exists b. reflexivity.
Qed.

Lemma find_str_spec (p s : list byte) :
  match find_str p s with
  | Some _ => exists a b, s = a ++ p ++ b
  | None => ~ exists a b, s = a ++ p ++ b
  end.
Proof.
  induction s as [|h t IH]; cbn [find_str].
  - destruct (starts_with p []) eqn:E.
    + apply starts_with_iff in E. destruct E as [b E]. exists [], b. exact E.
    + intros (a & b & H). destruct a; [|discriminate]. cbn in H.
      assert (starts_with p [] = true)
        by (apply starts_with_iff; exists b; exact H).
      congruence.
  - destruct (starts_with p (h :: t)) eqn:E.
    + apply starts_with_iff in E. destruct E as [b E]. exists [], b. exact E.
    + destruct (find_str p t); cbn [option_map].
      * destruct IH as (a & b & F). exists (h :: a), b. rewrite F. reflexivity.
      * intros (a & b & F). destruct a as [|a0 a].
        -- assert (starts_with p (h :: t) = true)
             by (apply starts_with_iff; exists b; exact F).
           congruence.
        -- injection F as _ F. apply IH. exists a, b. exact F.
Qed.

(** [safe_filename] refuses exactly the unsafe names. *)
Lemma safe_filename_false_iff (name : list byte) :
  safe_filename name = false <-> unsafe_name name.
Proof.
  unfold safe_filename, unsafe_name.
  pose proof (find_str_spec (lit "..") name) as Hdots.
  pose proof (find_char_spec "/"%byte name) as Hslash.
  pose proof (find_char_spec "\"%byte name) as Hback.
  assert (He : empty name = true <-> name = [])
    by (destruct name; cbn; split; congruence).
  destruct (empty name);
    destruct (find_str (lit "..") name);
    destruct (find_char "/"%byte name);
    destruct (find_char "\"%byte name);
    cbn [negb andb is_npos]; split; intros H; try reflexivity;
    try discriminate; try tauto.
  all: exfalso; destruct H as [H|[H|[H|H]]]; try tauto.
  all: apply He in H; discriminate.
Qed.

(* ================================================================== *)
(** ** Facts about the session *)

Lemma say_open (w : world) (s : list byte) :
  tx_room (sock w) = None ->
  exists sch,
    say s w = (true, with_sock w (after_send (sock w) (frame s) sch)).
Proof.
  intros H. unfold say, on_sock.
  destruct (send_line_open (sock w) s H) as [sch E]. rewrite E.
  exists sch. reflexivity.
Qed.

(** Comparisons of two string literals are decided by evaluation. *)
Ltac decide_literals :=
  repeat match goal with
  | |- context [bytes_eqb (lit ?a) (lit ?b)] =>
      let v := eval vm_compute in (bytes_eqb (lit a) (lit b)) in
      change (bytes_eqb (lit a) (lit b)) with v
  end.

(** The start of a turn of the command loop on which a line arrived. *)
Ltac open_step Hline :=
  unfold command_step, bind at 1, on_sock at 1; rewrite Hline.

Lemma list_files_fold (names : list (list byte)) (acc : list byte) :
  fold_left list_entry names acc
  = acc ++ concat (map (fun n => n ++ [x0a]) (shown names)).
Proof.
  revert acc. induction names as [|n names IH]; intros acc.
  - cbn. rewrite app_nil_r. reflexivity.
  - cbn [fold_left]. rewrite IH. unfold list_entry, shown. cbn [filter].
    destruct (hidden_name n); cbn [negb map concat]; [reflexivity|].
    rewrite <- !app_assoc. reflexivity.
Qed.

Lemma hidden_name_iff (n : list byte) :
  hidden_name n = true <->
  n = lit "." \/ n = lit ".." \/ n = lit "uploads".
Proof.
  unfold hidden_name. rewrite !orb_true_iff, !bytes_eqb_eq. tauto.
Qed.

(* ================================================================== *)
(** ** The claims on a turn of the command loop *)

Section Turn.

(** A turn of the command loop of the world [w] on which [recv_line]
    returns [line] and leaves the socket as [c1], with a peer that takes
    whatever the server sends. *)
Variables (w : world) (line : list byte) (c1 : conn).
Hypothesis Hline : recv_line (sock w) = (Some line, c1).
Hypothesis Hroom : tx_room c1 = None.

(** C6.  File name validation: when the line of a turn of the command
    loop has [GET] or [PUT] as its first word and its second word (the
    empty string when there is none) is empty or has [..], [/] or a
    backslash in it, the server sends the one frame [ERR BadName], makes
    no file system call and leaves the disk as it is, and the loop goes on
    with the next turn. *)
Theorem bad_filename_rejected (fuel : nat) :
  fst (extract line) = lit "GET" \/ fst (extract line) = lit "PUT" ->
  unsafe_name (fst (extract (snd (extract line)))) ->
  exists sch,
    command_step w
    = (Continue,
       mkWorld (after_send c1 (frame (lit "ERR BadName")) sch)
               (disk w) (calls w)) /\
    command_loop (S fuel) w
    = command_loop fuel
        (mkWorld (after_send c1 (frame (lit "ERR BadName")) sch)
                 (disk w) (calls w)).
Proof.
  intros Hcmd Hbad.
  apply safe_filename_false_iff in Hbad.
  destruct (say_open (with_sock w c1) (lit "ERR BadName") Hroom) as [sch E].
  exists sch.
  assert (Hstep : command_step w
                  = (Continue,
                     mkWorld (after_send c1 (frame (lit "ERR BadName")) sch)
                             (disk w) (calls w))).
  { open_step Hline.
    destruct (extract line) as [cmd iss]. cbn [fst snd] in *.
    destruct (extract iss) as [fname rest]. cbn [fst] in *.
    destruct Hcmd as [-> | ->]; decide_literals; cbv iota;
      rewrite Hbad; cbn [negb]; unfold bind; fold (with_sock w c1);
      rewrite E; reflexivity. }
  split; [exact Hstep|].
  cbn [command_loop]. rewrite Hstep. reflexivity.
Qed.

(** C7.  The answer to LIST: when the first word of the line of a turn is
    [LIST], the server opens the shared root once and sends the frame [OK]
    and then one frame of data, and the loop goes on.  When the root can
    be read, the data are the names of its entries in the order of
    [readdir], each followed by a newline, with every entry in but those
    named [.], [..] and [uploads], which are left out.  When the root
    cannot be opened, [OK] is sent all the same and the data are the text
    [ERR: cannot open server_files] with a newline. *)
Theorem list_response :
  fst (extract line) = lit "LIST" ->
  exists data sch,
    command_step w
    = (Continue,
       mkWorld (after_send c1 (frame (lit "OK") ++ frame data) sch)
               (disk w) (calls w ++ [OpenDir ROOT_DIR])) /\
    match dirs (disk w) ROOT_DIR with
    | Some names =>
        data = concat (map (fun n => n ++ [x0a]) (shown names)) /\
        forall n, In n (shown names) <->
                  In n names /\
                  n <> lit "." /\ n <> lit ".." /\ n <> lit "uploads"
    | None => data = lit "ERR: cannot open server_files" ++ [x0a]
    end.
Proof.
  intros Hcmd.
  set (data := match dirs (disk w) ROOT_DIR with
               | Some names => fold_left list_entry names []
               | None => lit "ERR: cannot open server_files" ++ [x0a]
               end).
  set (w1 := mkWorld c1 (disk w) (calls w ++ [OpenDir ROOT_DIR])).
  destruct (say_open w1 (lit "OK") Hroom) as [s1 E1].
  destruct (say_open (with_sock w1 (after_send (sock w1) (frame (lit "OK")) s1))
              data eq_refl) as [s2 E2].
  exists data, s2. split.
  - open_step Hline.
    destruct (extract line) as [cmd iss]. cbn [fst] in Hcmd. subst cmd.
    decide_literals. cbv iota.
    unfold bind, list_files, bind, read_dir. cbn [sock disk calls].
    fold w1.
    assert (Hl : (match dirs (disk w) ROOT_DIR with
                  | Some names => ret (fold_left list_entry names [])
                  | None => ret (lit "ERR: cannot open server_files" ++ [x0a])
                  end) w1 = (data, w1))
      by (unfold data; destruct (dirs (disk w) ROOT_DIR); reflexivity).
    rewrite Hl, E1, E2.
    unfold with_sock, w1. cbn [sock disk calls].
    rewrite after_send_twice. reflexivity.
  - unfold data. destruct (dirs (disk w) ROOT_DIR) as [names|];
      [|reflexivity].
    split; [apply list_files_fold|].
    intros n. unfold shown. rewrite filter_In.
    pose proof (hidden_name_iff n) as Hh.
    destruct (hidden_name n); cbn [negb]; split.
    + intros [_ F]. discriminate.
    + intros (_ & A & B & C). exfalso.
      destruct (proj1 Hh eq_refl) as [?|[?|?]]; contradiction.
    + intros [I _]. split; [exact I|].
      repeat split; intros F; assert (false = true) by (apply Hh; auto);
        discriminate.
    + intros [I _]. auto.
Qed.

(** C9.  GET on a safe name: when the first word of the line of a turn
    is [GET] and its second word passes [safe_filename], the server opens
    the path of that name under the shared root with [std::ifstream] and
    tests [good ()].  When the stream is not good, the server sends the
    one frame [ERR NotFound] and the loop goes on.  When the path is a
    file, the server sends the frame [OK] and then what
    [send_file_encrypted] sends: the size of the file as it is now, as
    eight big-endian bytes, and its content through the codec.  When the
    path is a directory, as [server_files/uploads] is, the stream is good
    all the same: the server sends the frame [OK], then eight bytes that
    spell the position at the end of the directory, and no content; the
    loop goes on.  (The name is taken without a NUL byte, so that the
    path is the one the system opens.) *)
Theorem get_dispatch :
  fst (extract line) = lit "GET" ->
  safe_filename (fst (extract (snd (extract line)))) = true ->
  ~ In x00 (fst (extract (snd (extract line)))) ->
  let path := ROOT_DIR ++ lit "/" ++ fst (extract (snd (extract line))) in
  match files (disk w) path, dirs (disk w) path with
  | None, None =>
      exists sch,
        command_step w
        = (Continue,
           mkWorld (after_send c1 (frame (lit "ERR NotFound")) sch)
                   (disk w) (calls w ++ [OpenRead path]))
  | Some content, _ =>
      exists sch,
        command_step w
        = (Continue,
           mkWorld (after_send c1
                      (frame (lit "OK")
                       ++ be64 (size content) ++ map xor_byte content) sch)
                   (disk w) (calls w ++ [OpenRead path; OpenRead path]))
  | None, Some _ =>
      exists sch,
        command_step w
        = (Continue,
           mkWorld (after_send c1
                      (frame (lit "OK") ++ be64 (dir_end (disk w) path)) sch)
                   (disk w) (calls w ++ [OpenRead path; OpenRead path]))
  end.
Proof.
  intros Hcmd Hsafe _ path.
  set (w1 := mkWorld c1 (disk w) (calls w ++ [OpenRead path])).
  assert (Hstep : command_step w
                  = match readable (disk w) path with
                    | None => (say (lit "ERR NotFound") ;; ret Continue) w1
                    | Some _ =>
                        (say (lit "OK") ;;
                         ok <- send_file_encrypted path ;;
                         if negb ok then ret Break else ret Continue) w1
                    end).
  { open_step Hline.
    destruct (extract line) as [cmd iss]. cbn [fst snd] in *. subst cmd.
    decide_literals. cbv iota.
    destruct (extract iss) as [fname rest]. cbn [fst] in *.
    rewrite Hsafe. cbn [negb]. fold path.
    unfold bind at 1, open_read. cbn [sock disk calls]. fold w1.
    destruct (readable (disk w) path); reflexivity. }
  rewrite Hstep. clear Hstep. unfold readable.
  destruct (files (disk w) path) as [content|] eqn:Hfile;
    [|destruct (dirs (disk w) path) as [names|] eqn:Hdir].
  - destruct (say_open w1 (lit "OK") Hroom) as [s1 E1].
    destruct (send_file_encrypted_spec path content
                (with_sock w1 (after_send (sock w1) (frame (lit "OK")) s1))
                Hfile eq_refl) as [s2 E2].
    exists s2. unfold bind. rewrite E1, E2. cbn [negb ret].
    unfold replied, with_sock, w1. cbn [sock disk calls].
    rewrite after_send_twice, <- app_assoc. reflexivity.
  - destruct (say_open w1 (lit "OK") Hroom) as [s1 E1].
    destruct (send_file_encrypted_dir path names
                (with_sock w1 (after_send (sock w1) (frame (lit "OK")) s1))
                Hfile Hdir eq_refl) as [s2 E2].
    exists s2. unfold bind. rewrite E1, E2. cbn [negb ret].
    unfold replied, with_sock, w1. cbn [sock disk calls].
    rewrite after_send_twice, <- app_assoc. reflexivity.
  - destruct (say_open w1 (lit "ERR NotFound") Hroom) as [s1 E1].
    exists s1. unfold bind. rewrite E1. reflexivity.
Qed.

End Turn.

Lemma bad_filename_rejected_witness :
  let line := lit "GET ../../etc/passwd" in
  let w := reader_world (frame line ++ frame (lit "QUIT")) [] blank_disk in
  let c1 := peer_end (frame (lit "QUIT")) [] in
  recv_line (sock w) = (Some line, c1) /\
  tx_room c1 = None /\
  (fst (extract line) = lit "GET" \/ fst (extract line) = lit "PUT") /\
  unsafe_name (fst (extract (snd (extract line)))) /\
  exists sch,
    command_step w
    = (Continue,
       mkWorld (after_send c1 (frame (lit "ERR BadName")) sch)
               (disk w) (calls w)) /\
    command_loop 1 w
    = command_loop 0
        (mkWorld (after_send c1 (frame (lit "ERR BadName")) sch)
                 (disk w) (calls w)).
Proof.
  intros line w c1.
  assert (H1 : recv_line (sock w) = (Some line, c1))
    by (vm_compute; reflexivity).
  assert (H2 : tx_room c1 = None) by reflexivity.
  assert (H3 : fst (extract line) = lit "GET" \/ fst (extract line) = lit "PUT")
    by (left; vm_compute; reflexivity).
  assert (H4 : unsafe_name (fst (extract (snd (extract line)))))
    by (right; left; exists [], (lit "/../etc/passwd");
        vm_compute; reflexivity).
  repeat (split; [assumption|]).
  exact (bad_filename_rejected w line c1 H1 H2 0 H3 H4).
Defined.

Lemma list_response_witness :
  let line := lit "LIST" in
  let w := reader_world (frame line) [0]%nat listing_disk in
  let c1 := peer_end [] [] in
  recv_line (sock w) = (Some line, c1) /\
  tx_room c1 = None /\
  fst (extract line) = lit "LIST" /\
  exists data sch,
    command_step w
    = (Continue,
       mkWorld (after_send c1 (frame (lit "OK") ++ frame data) sch)
               (disk w) (calls w ++ [OpenDir ROOT_DIR])) /\
    match dirs (disk w) ROOT_DIR with
    | Some names =>
        data = concat (map (fun n => n ++ [x0a]) (shown names)) /\
        forall n, In n (shown names) <->
                  In n names /\
                  n <> lit "." /\ n <> lit ".." /\ n <> lit "uploads"
    | None => data = lit "ERR: cannot open server_files" ++ [x0a]
    end.
Proof.
  intros line w c1.
  assert (H1 : recv_line (sock w) = (Some line, c1))
    by (vm_compute; reflexivity).
  assert (H2 : tx_room c1 = None) by reflexivity.
  assert (H3 : fst (extract line) = lit "LIST") by (vm_compute; reflexivity).
  repeat (split; [assumption|]).
  exact (list_response w line c1 H1 H2 H3).
Defined.

Lemma get_dispatch_witness :
  let line := lit "GET uploads" in
  let w := reader_world (frame line ++ frame (lit "QUIT")) [] shared_root_disk in
  let c1 := peer_end (frame (lit "QUIT")) [] in
  recv_line (sock w) = (Some line, c1) /\
  tx_room c1 = None /\
  fst (extract line) = lit "GET" /\
  safe_filename (fst (extract (snd (extract line)))) = true /\
  ~ In x00 (fst (extract (snd (extract line)))) /\
  files (disk w) (lit "server_files/uploads") = None /\
  dirs (disk w) (lit "server_files/uploads") = Some [lit "."; lit ".."] /\
  exists sch,
    command_step w
    = (Continue,
       mkWorld (after_send c1
                  (frame (lit "OK")
                   ++ [x7f; xff; xff; xff; xff; xff; xff; xff]) sch)
               (disk w)
               (calls w ++ [OpenRead (lit "server_files/uploads");
                            OpenRead (lit "server_files/uploads")])).
Proof.
  intros line w c1.
  assert (H1 : recv_line (sock w) = (Some line, c1))
    by (vm_compute; reflexivity).
  assert (H2 : tx_room c1 = None) by reflexivity.
  assert (H3 : fst (extract line) = lit "GET") by (vm_compute; reflexivity).
  assert (H4 : safe_filename (fst (extract (snd (extract line)))) = true)
    by (vm_compute; reflexivity).
  assert (H5 : files (disk w) (lit "server_files/uploads") = None)
    by reflexivity.
  assert (H6 : dirs (disk w) (lit "server_files/uploads")
               = Some [lit "."; lit ".."])
    by reflexivity.
  assert (H0 : ~ In x00 (fst (extract (snd (extract line)))))
    by (vm_compute; intuition discriminate).
  refine (conj H1 (conj H2 (conj H3 (conj H4 (conj H0 (conj H5 (conj H6 _))))))).
  exact (get_dispatch w line c1 H1 H2 H3 H4 H0).
Defined.
Lemma empty_iff (s : list byte) : empty s = true <-> s = [].
Proof. destruct s; cbn; split; congruence. Qed.

(** The test of the AUTH line lets in exactly the lines that
    [auth_accepts] describes; it reads the users file only when the line
    has the word [AUTH], a user name and a password, and touches nothing
    else. *)
Lemma auth_denied_spec (line : list byte) (w : world) :
  exists log,
    (auth_accepts (disk w) line /\
     auth_denied line w
     = (false, mkWorld (sock w) (disk w) (calls w ++ [OpenRead USERS_FILE]))) \/
    (~ auth_accepts (disk w) line /\
     auth_denied line w = (true, mkWorld (sock w) (disk w) log)).
Proof.
  unfold auth_denied, auth_accepts, auth_words.
  destruct (extract line) as [cmd iss1].
  destruct (extract iss1) as [user iss2].
  destruct (extract iss2) as [pass iss3].
  destruct (negb (bytes_eqb cmd (lit "AUTH")) || empty user || empty pass)
    eqn:G.
  - exists (calls w). right. split; [|destruct w; reflexivity].
    intros (Hc & Hu & Hp & _).
    apply bytes_eqb_eq in Hc. rewrite Hc in G. cbn [negb orb] in G.
    apply orb_true_iff in G. destruct G as [G|G]; apply empty_iff in G;
      contradiction.
  - apply orb_false_iff in G. destruct G as [G Hp].
    apply orb_false_iff in G. destruct G as [Hc Hu].
    apply negb_false_iff, bytes_eqb_eq in Hc.
    assert (user <> []) by (intros F; apply empty_iff in F; congruence).
    assert (pass <> []) by (intros F; apply empty_iff in F; congruence).
    exists (calls w ++ [OpenRead USERS_FILE]).
    unfold bind. rewrite check_auth_run. cbn [ret].
    pose proof (credentials_iff (disk w) user pass) as C.
    destruct (match files (disk w) USERS_FILE with
              | Some content =>
                  existsb (entry_matches user pass) (file_lines content)
              | None => false
              end).
    + left. split; [|reflexivity]. repeat split; auto. apply C. reflexivity.
    + right. split; [|reflexivity]. intros (_ & _ & _ & F).
      apply C in F. discriminate.
Qed.

(** C5.  One authentication attempt for each connection.  When the first
    line that arrives on a connection is not let in (its first word is not
    [AUTH], or the user name or the password is missing, or no line of the
    users file carries the two), the server sends the one frame
    [AUTH_FAIL] and closes the socket: it reads nothing of what follows
    the line and never reaches the command loop.  When the line is let
    in, the server sends [AUTH_OK] and runs the command loop, and closes
    the socket when the loop ends. *)
Theorem auth_single_attempt (fuel : nat) (w : world) (line : list byte)
  (c1 : conn) :
  recv_line (sock w) = (Some line, c1) ->
  tx_room c1 = None ->
  (~ auth_accepts (disk w) line ->
   exists sch log,
     handle_client fuel w
     = Some (mkWorld (mkConn (rx c1) (tx c1 ++ frame (lit "AUTH_FAIL"))
                             None sch true)
                     (disk w) log)) /\
  (auth_accepts (disk w) line ->
   exists sch,
     handle_client fuel w
     = option_map (fun w' => snd (close_sock w'))
         (command_loop fuel
            (mkWorld (after_send c1 (frame (lit "AUTH_OK")) sch)
                     (disk w) (calls w ++ [OpenRead USERS_FILE])))).
Proof.
  intros Hline Hroom.
  destruct (auth_denied_spec line (with_sock w c1)) as [log [[Hyes E]|[Hno E]]];
    cbn [with_sock disk sock calls] in Hyes
    || cbn [with_sock disk sock calls] in Hno;
    cbn [with_sock disk sock calls] in E.
  - split; [intros F; contradiction|]. intros _.
    destruct (say_open (mkWorld c1 (disk w) (calls w ++ [OpenRead USERS_FILE]))
                (lit "AUTH_OK") Hroom) as [sch S].
    exists sch. unfold handle_client, on_sock. rewrite Hline.
    fold (with_sock w c1). rewrite E, S.
    unfold with_sock. cbn [sock disk calls].
    destruct (command_loop fuel _); reflexivity.
  - split; [|intros F; contradiction]. intros _.
    destruct (say_open (mkWorld c1 (disk w) log) (lit "AUTH_FAIL") Hroom)
      as [sch S].
    exists sch, log. unfold handle_client, on_sock. rewrite Hline.
    fold (with_sock w c1). rewrite E. unfold bind. rewrite S.
    reflexivity.
Qed.

Lemma auth_single_attempt_witness :
  let bad := lit "AUTH alice wrong" in
  let good := lit "AUTH alice secret" in
  let wb := reader_world (frame bad ++ frame (lit "LIST")) [] users_disk in
  let wg := reader_world (frame good ++ frame (lit "QUIT")) [] users_disk in
  let cb := peer_end (frame (lit "LIST")) [] in
  let cg := peer_end (frame (lit "QUIT")) [] in
  (recv_line (sock wb) = (Some bad, cb) /\
   tx_room cb = None /\
   ~ auth_accepts (disk wb) bad /\
   exists sch log,
     handle_client 5 wb
     = Some (mkWorld (mkConn (rx cb) (tx cb ++ frame (lit "AUTH_FAIL"))
                             None sch true)
                     (disk wb) log)) /\
  (recv_line (sock wg) = (Some good, cg) /\
   tx_room cg = None /\
   auth_accepts (disk wg) good /\
   exists sch,
     handle_client 5 wg
     = option_map (fun w' => snd (close_sock w'))
         (command_loop 5
            (mkWorld (after_send cg (frame (lit "AUTH_OK")) sch)
                     (disk wg) (calls wg ++ [OpenRead USERS_FILE])))).
Proof.
  intros bad good wb wg cb cg.
  assert (B1 : recv_line (sock wb) = (Some bad, cb))
    by (vm_compute; reflexivity).
  assert (B2 : tx_room cb = None) by reflexivity.
  assert (B3 : ~ auth_accepts (disk wb) bad).
  { unfold auth_accepts.
    change (auth_words bad) with (lit "AUTH", lit "alice", lit "wrong").
    intros (_ & _ & _ & content & entry & Hf & Hin & He).
    vm_compute in Hf. injection Hf as <-.
    vm_compute in Hin. destruct Hin as [<-|[]].
    vm_compute in He. discriminate. }
  assert (G1 : recv_line (sock wg) = (Some good, cg))
    by (vm_compute; reflexivity).
  assert (G2 : tx_room cg = None) by reflexivity.
  assert (G3 : auth_accepts (disk wg) good).
  { unfold auth_accepts.
    change (auth_words good) with (lit "AUTH", lit "alice", lit "secret").
    repeat split; try discriminate.
    exists (lit "alice:secret" ++ [x0a]), (lit "alice:secret").
    repeat split; vm_compute; auto. }
  split.
  - repeat (split; [assumption|]).
    exact (proj1 (auth_single_attempt 5 wb bad cb B1 B2) B3).
  - repeat (split; [assumption|]).
    exact (proj2 (auth_single_attempt 5 wg good cg G1 G2) G3).
Defined.
(* ================================================================== *)
(** ** The command loop ends *)

Lemma shrinks_ret {A : Type} (a : A) : shrinks (ret a).
Proof. intros w. cbn. lia. Qed.

Lemma shrinks_bind {A B : Type} (m : M A) (k : A -> M B) :
  shrinks m -> (forall a, shrinks (k a)) -> shrinks (bind m k).
Proof.
  intros Hm Hk w. unfold bind. specialize (Hm w).
  destruct (m w) as [a w1]. cbn [snd] in Hm.
  specialize (Hk a w1). lia.
Qed.

Lemma shrinks_on_sock {A : Type} (f : conn -> A * conn) :
  shrinks_conn f -> shrinks (on_sock f).
Proof.
  intros Hf w. unfold on_sock. specialize (Hf (sock w)).
  destruct (f (sock w)) as [a c]. exact Hf.
Qed.

Lemma shrinks_open_read (path : list byte) : shrinks (open_read path).
Proof. intros w. cbn. lia. Qed.

Lemma shrinks_tell_end (path : list byte) : shrinks (tell_end path).
Proof. intros w. cbn. lia. Qed.

Lemma shrinks_open_write (path : list byte) : shrinks (open_write path).
Proof.
  intros w. unfold open_write. destruct (creatable (disk w) path); cbn; lia.
Qed.

Lemma shrinks_append_file (path data : list byte) :
  shrinks (append_file path data).
Proof. intros w. cbn. lia. Qed.

Lemma shrinks_read_dir (path : list byte) : shrinks (read_dir path).
Proof. intros w. cbn. lia. Qed.

Lemma shrinks_close_sock : shrinks close_sock.
Proof. intros w. cbn. lia. Qed.

Create HintDb shrink.
#[local] Hint Resolve shrinks_ret shrinks_open_read shrinks_tell_end
  shrinks_open_write
  shrinks_append_file shrinks_read_dir shrinks_close_sock : shrink.

Lemma send_rx (c : conn) (p : list byte) : rx (snd (send c p)) = rx c.
Proof.
  unfold send. destruct (tx_room c) as [[|room]|]; reflexivity.
Qed.

Lemma send_all_loop_rx (fuel : nat) :
  forall (c : conn) (p : list byte), rx (snd (send_all_loop fuel c p)) = rx c.
Proof.
  induction fuel as [|fuel IH]; intros c p; destruct p as [|h t];
    try reflexivity.
  cbn [send_all_loop]. pose proof (send_rx c (h :: t)) as S.
  destruct (send c (h :: t)) as [s c']. cbn [snd] in S.
  destruct (s <=? 0); [exact S|]. rewrite IH. exact S.
Qed.

Lemma shrinks_send_all (data : list byte) :
  shrinks_conn (fun c => send_all c data).
Proof. intros c. unfold send_all. rewrite send_all_loop_rx. lia. Qed.

Lemma shrinks_send_line (s : list byte) :
  shrinks_conn (fun c => send_line c s).
Proof.
  intros c. unfold send_line.
  pose proof (shrinks_send_all (store_u32 (htonl (u32 (size s)))) c) as H1.
  cbv beta in H1.
  destruct (send_all c (store_u32 (htonl (u32 (size s))))) as [ok c1].
  cbn [snd] in H1. destruct ok; cbn [negb]; [|exact H1].
  pose proof (shrinks_send_all s c1) as H2. cbv beta in H2.
  destruct (send_all c1 s) as [ok' c2]. cbn [snd] in H2.
  destruct ok'; cbn [negb snd]; lia.
Qed.

Lemma shrinks_say (s : list byte) : shrinks (say s).
Proof. apply shrinks_on_sock, shrinks_send_line. Qed.

(** [recv_all] takes [len] bytes from the stream when it succeeds and
    never adds any. *)
Lemma recv_all_rx (c : conn) (len : nat) :
  match fst (recv_all c len) with
  | Some _ => (length (rx (snd (recv_all c len))) + len = length (rx c))%nat
  | None => (length (rx (snd (recv_all c len))) <= length (rx c))%nat
  end.
Proof.
  destruct (Nat.le_gt_cases len (length (rx c))) as [H|H].
  - destruct (recv_all_enough c len H) as [s E]. rewrite E.
    cbn [fst snd after_recv rx]. rewrite length_skipn. lia.
  - destruct (recv_all_short c len H) as [s E]. rewrite E.
    cbn [fst snd drained rx length]. lia.
Qed.

Lemma shrinks_recv_all (len : nat) : shrinks_conn (fun c => recv_all c len).
Proof.
  intros c. pose proof (recv_all_rx c len) as H. cbv beta.
  destruct (fst (recv_all c len)); lia.
Qed.

(** A line that arrives costs the stream at least its four byte header. *)
Lemma recv_line_rx (c c' : conn) (line : list byte) :
  recv_line c = (Some line, c') ->
  (length (rx c') + 4 <= length (rx c))%nat.
Proof.
  unfold recv_line. pose proof (recv_all_rx c 4) as H1.
  destruct (recv_all c 4) as [[hdr|] c1]; [|discriminate].
  cbn [fst snd] in H1.
  destruct (ntohl (load_u32 hdr) =? 0).
  - intros E. injection E as _ <-. lia.
  - pose proof (recv_all_rx c1 (Z.to_nat (ntohl (load_u32 hdr)))) as H2.
    destruct (recv_all c1 (Z.to_nat (ntohl (load_u32 hdr)))) as [[body|] c2];
      [|discriminate].
    cbn [fst snd] in H2. intros E. injection E as _ <-. lia.
Qed.

Lemma shrinks_list_files : shrinks list_files.
Proof.
  unfold list_files. apply shrinks_bind; [auto with shrink|].
  intros [names|]; auto with shrink.
Qed.

Lemma shrinks_send_file_loop (fuel : nat) :
  forall (rest : list byte) (good : bool) (buf : list byte),
    shrinks (send_file_loop fuel rest good buf).
Proof.
  induction fuel as [|fuel IH]; intros rest good buf;
    destruct good; cbn [send_file_loop negb]; auto with shrink.
  unfold file_read.
  destruct (length (firstn (length buf) rest) =? 0)%nat; auto with shrink.
  apply shrinks_bind.
  - apply shrinks_on_sock, shrinks_send_all.
  - intros ok. destruct ok; cbn [negb]; auto with shrink.
Qed.

Lemma shrinks_send_file_encrypted (path : list byte) :
  shrinks (send_file_encrypted path).
Proof.
  unfold send_file_encrypted. apply shrinks_bind; [auto with shrink|].
  intros [content|]; auto with shrink.
  apply shrinks_bind; [auto with shrink|]. intros pos.
  apply shrinks_bind.
  - apply shrinks_on_sock, shrinks_send_all.
  - intros ok. destruct ok; cbn [negb]; auto with shrink.
    apply shrinks_send_file_loop.
Qed.

Lemma shrinks_recv_file_loop (path : list byte) (fuel : nat) :
  forall (buf : list byte) (left : Z),
    shrinks (recv_file_loop fuel path buf left).
Proof.
  induction fuel as [|fuel IH]; intros buf left;
    rewrite recv_file_loop_eq; destruct (left <=? 0); auto with shrink.
  cbv zeta. apply shrinks_bind.
  - apply shrinks_on_sock, shrinks_recv_all.
  - intros [data|]; auto with shrink.
    apply shrinks_bind; [auto with shrink|]. intros _. apply IH.
Qed.

Lemma shrinks_recv_file_encrypted (path : list byte) :
  shrinks (recv_file_encrypted path).
Proof.
  unfold recv_file_encrypted. apply shrinks_bind.
  - apply shrinks_on_sock, shrinks_recv_all.
  - intros [hdr|]; auto with shrink.
    apply shrinks_bind; [auto with shrink|].
    intros o. destruct o; cbn [negb]; auto with shrink.
    intros w. apply shrinks_recv_file_loop.
Qed.

(** What a turn of the command loop does once its line has arrived. *)
Lemma shrinks_dispatch (line : list byte) :
  shrinks
    (let (cmd, iss) := extract line in
     if bytes_eqb cmd (lit "LIST") then
       data <- list_files ;; say (lit "OK") ;; say data ;; ret Continue
     else if bytes_eqb cmd (lit "GET") then
       let (fname, _) := extract iss in
       if negb (safe_filename fname) then
         say (lit "ERR BadName") ;; ret Continue
       else
         let path := ROOT_DIR ++ lit "/" ++ fname in
         test <- open_read path ;;
         match test with
         | None => say (lit "ERR NotFound") ;; ret Continue
         | Some _ =>
             say (lit "OK") ;;
             ok <- send_file_encrypted path ;;
             if negb ok then ret Break else ret Continue
         end
     else if bytes_eqb cmd (lit "PUT") then
       let (fname, _) := extract iss in
       if negb (safe_filename fname) then
         say (lit "ERR BadName") ;; ret Continue
       else
         let path := UPLOAD_DIR ++ lit "/" ++ fname in
         say (lit "OK") ;;
         ok <- recv_file_encrypted path ;;
         if negb ok then ret Break else ret Continue
     else if bytes_eqb cmd (lit "QUIT") then
       say (lit "BYE") ;; ret Break
     else
       say (lit "ERR UnknownCmd") ;; ret Continue).
Proof.
  pose proof shrinks_say. pose proof shrinks_list_files.
  pose proof shrinks_send_file_encrypted.
  pose proof shrinks_recv_file_encrypted.
  destruct (extract line) as [cmd iss].
  destruct (extract iss) as [fname rest].
  repeat match goal with
         | |- shrinks (let _ := _ in _) => cbv zeta
         | |- shrinks (if ?b then _ else _) => destruct b
         | |- shrinks (bind _ _) => apply shrinks_bind
         | |- shrinks (match ?x with Some _ => _ | None => _ end) => destruct x
         | |- forall _, _ => intro
         | |- shrinks _ => solve [auto with shrink]
         end.
Qed.

(** A turn of the command loop that goes on has taken at least four
    bytes from the stream. *)
Lemma command_step_continue (w w' : world) :
  command_step w = (Continue, w') ->
  (length (rx (sock w')) + 4 <= length (rx (sock w)))%nat.
Proof.
  unfold command_step, bind at 1, on_sock at 1.
  destruct (recv_line (sock w)) as [[line|] c1] eqn:E.
  - apply recv_line_rx in E. intros H.
    pose proof (shrinks_dispatch line (mkWorld c1 (disk w) (calls w))) as S.
    cbv beta zeta in S, H. rewrite H in S. cbn [snd sock] in S. lia.
  - discriminate.
Qed.

(** The command loop ends within as many turns as the stream has bytes,
    plus one. *)
Lemma command_loop_ends (fuel : nat) :
  forall w, (length (rx (sock w)) < fuel)%nat ->
            exists w', command_loop fuel w = Some w'.
Proof.
  induction fuel as [|fuel IH]; intros w H; [lia|].
  cbn [command_loop].
  destruct (command_step w) as [[|] w1] eqn:E.
  - apply command_step_continue in E. apply IH. lia.
  - exists w1. reflexivity.
Qed.

(** [handle_client] returns, whatever the peer sends and whatever the
    disk holds. *)
Lemma handle_client_returns (w : world) :
  exists w', handle_client (S (length (rx (sock w)))) w = Some w'.
Proof.
  unfold handle_client, on_sock.
  destruct (recv_line (sock w)) as [[line|] c1] eqn:E;
    [|eexists; reflexivity].
  apply recv_line_rx in E.
  destruct (auth_denied_spec line (mkWorld c1 (disk w) (calls w)))
    as [log [[_ A]|[_ A]]]; rewrite A; cbn [sock disk calls].
  - pose proof (shrinks_say (lit "AUTH_OK")
                  (mkWorld c1 (disk w) (calls w ++ [OpenRead USERS_FILE])))
      as Hs.
    destruct (say (lit "AUTH_OK") _) as [ok w3]. cbn [snd sock] in Hs.
    destruct (command_loop_ends (S (length (rx (sock w)))) w3) as [w4 L];
      [lia|].
    rewrite L. eexists. reflexivity.
  - eexists. reflexivity.
Qed.
(* ================================================================== *)
(** ** The listing, line by line *)

Lemma read_to_newline_line (n rest : list byte) :
  ~ In x0a n -> read_to_newline (n ++ x0a :: rest) = (n, rest).
Proof.
  induction n as [|c n IH]; intros H; cbn [app read_to_newline].
  - reflexivity.
  - destruct (byte_eqb c x0a) eqn:E.
    + apply byte_eqb_eq in E. exfalso. apply H. left. exact E.
    + rewrite IH; [reflexivity|]. intros F. apply H. right. exact F.
Qed.

(** When no name has a newline in it, the lines of the data frame of
    LIST are the names that are shown, one name on each line. *)
Lemma listing_lines (names : list (list byte)) :
  (forall n, In n names -> ~ In x0a n) ->
  file_lines (concat (map (fun n => n ++ [x0a]) names)) = names.
Proof.
  induction names as [|n names IH]; intros H.
  - rewrite file_lines_eq. reflexivity.
  - rewrite file_lines_eq. cbn [map concat]. rewrite <- app_assoc.
    cbn [app]. unfold getline.
    destruct (n ++ x0a :: concat (map (fun n0 => n0 ++ [x0a]) names))
      as [|c t] eqn:E; [destruct n; discriminate|].
    rewrite <- E, read_to_newline_line by (apply H; left; reflexivity).
    rewrite IH; [reflexivity|]. intros m Hm. apply H. right. exact Hm.
Qed.

(* ================================================================== *)
(** ** Runs of the model *)

Example xor_in_place_hello :
  xor_in_place (lit "hello") 3 = ["2"; "?"; "6"; "l"; "o"]%byte.
Proof. reflexivity. Qed.

Example frame_LIST :
  frame (lit "LIST") = [x00; x00; x00; x04] ++ lit "LIST".
Proof. reflexivity. Qed.

Example size_header_150000 :
  store_u64 (host_to_be64 150000) = [x00; x00; x00; x00; x00; x02; x49; xf0].
Proof. reflexivity. Qed.

Example safe_filename_samples :
  map safe_filename
      [lit "big.dat"; lit ""; lit "../../etc/passwd"; lit "a/b"; lit "a\b";
       lit "a..b"; lit ".hidden"]
  = [true; false; false; false; false; false; true].
Proof. reflexivity. Qed.

(** A whole session: a login, a listing, a download, an upload, a bad
    name, an unknown command, and QUIT; the frame after QUIT is not
    read. *)
Example session_run :
  let d := mkFs (fun p => if bytes_eqb p USERS_FILE
                          then Some (lit "alice:secret" ++ [x0a])
                          else if bytes_eqb p (lit "server_files/a.txt")
                          then Some (lit "abc")
                          else None)
                (dirs listing_disk) (fun _ => true) (fun _ => -1) in
  let input :=
    frame (lit "AUTH alice secret") ++ frame (lit "LIST")
    ++ frame (lit "GET a.txt")
    ++ frame (lit "PUT up.bin") ++ be64 2 ++ map xor_byte (lit "hi")
    ++ frame (lit "GET a/b") ++ frame (lit "FOO") ++ frame (lit "QUIT")
    ++ frame (lit "LIST") in
  match handle_client 10 (reader_world input [0; 3; 1]%nat d) with
  | Some w =>
      tx (sock w)
      = frame (lit "AUTH_OK")
        ++ frame (lit "OK") ++ frame (lit "a.txt" ++ [x0a] ++ lit "b.bin" ++ [x0a])
        ++ frame (lit "OK") ++ be64 3 ++ map xor_byte (lit "abc")
        ++ frame (lit "OK")
        ++ frame (lit "ERR BadName") ++ frame (lit "ERR UnknownCmd")
        ++ frame (lit "BYE")
      /\ rx (sock w) = frame (lit "LIST")
      /\ closed (sock w) = true
      /\ files (disk w) (lit "server_files/uploads/up.bin") = Some (lit "hi")
  | None => False
  end.
Proof. vm_compute. repeat split. Qed.

(* ================================================================== *)
(** ** Further facts: byte order *)

Lemma be_value_be32 (x : Z) : be_value (be32 x) = u32 x.
Proof.
  unfold be_value, be32, u32. cbn [fold_left].
  rewrite !Z_of_byte_of_Z. change 255 with (Z.ones 8).
  rewrite !Z.land_ones, !Z.shiftr_div_pow2 by lia.
  change (2 ^ 8) with 256. change (2 ^ 16) with 65536.
  change (2 ^ 24) with 16777216. change (2 ^ 32) with 4294967296.
  Z.div_mod_to_equations. lia.
Qed.

Lemma be_value_app (a b : list byte) :
  be_value (a ++ b) = be_value a * 256 ^ Z.of_nat (length b) + be_value b.
Proof.
  unfold be_value.
  assert (G : forall l acc,
             fold_left (fun acc b => acc * 256 + Z_of_byte b) l acc
             = acc * 256 ^ Z.of_nat (length l)
               + fold_left (fun acc b => acc * 256 + Z_of_byte b) l 0).
  { induction l as [|h t IH]; intros acc.
    - cbn. lia.
    - cbn [fold_left length]. rewrite IH, (IH (0 * 256 + Z_of_byte h)).
      rewrite Nat2Z.inj_succ, Z.pow_succ_r by lia. lia. }
  rewrite fold_left_app, G. reflexivity.
Qed.

Lemma be_value_be64 (x : Z) : be_value (be64 x) = u64 x.
Proof.
  unfold be64. rewrite be_value_app, !be_value_be32, be32_length.
  unfold u32, u64. rewrite Z.shiftr_div_pow2 by lia.
  change (256 ^ Z.of_nat 4) with 4294967296.
  change (2 ^ 32) with 4294967296.
  change (2 ^ 64) with (4294967296 * 4294967296).
  Z.div_mod_to_equations. nia.
Qed.

(** X1.  The length headers are big-endian numbers: read most significant
    byte first, the four bytes [send_line] sends for a length [n] spell
    [n mod 2^32], and the eight bytes [send_file_encrypted] sends for a
    size [n] spell [n mod 2^64]. *)
Theorem headers_big_endian (n : Z) :
  be_value (store_u32 (htonl (u32 n))) = n mod 2 ^ 32 /\
  be_value (store_u64 (host_to_be64 (u64 n))) = n mod 2 ^ 64.
Proof.
  split.
  - rewrite store_u32_htonl, be32_u32. apply be_value_be32.
  - rewrite store_u64_host_to_be64, be64_u64. apply be_value_be64.
Qed.

Lemma pack64_low (a b : Z) :
  Z.land (Z.lor (u64 (Z.shiftl (u32 a) 32)) (u32 b)) 4294967295 = u32 b.
Proof. unfold u32, u64. bits. Qed.

Lemma pack64_high (a b : Z) :
  Z.shiftr (Z.lor (u64 (Z.shiftl (u32 a) 32)) (u32 b)) 32 = u32 a.
Proof. unfold u32, u64. bits. Qed.

Lemma pack64_halves (x : Z) :
  Z.lor (u64 (Z.shiftl (u32 (Z.shiftr x 32)) 32)) (u32 (Z.land x 4294967295))
  = u64 x.
Proof. unfold u32, u64. bits. Qed.

Lemma u32_idem (x : Z) : u32 (u32 x) = u32 x.
Proof. apply u32_small, u32_range. Qed.

Lemma be64_to_host_host_to_be64 (x : Z) :
  be64_to_host (host_to_be64 x) = u64 x.
Proof.
  unfold be64_to_host, host_to_be64.
  rewrite <- (u32_htonl (u32 (Z.shiftr x 32))).
  rewrite <- (u32_htonl (u32 (Z.land x 4294967295))).
  rewrite pack64_low, pack64_high, !u32_idem, !u32_htonl, !ntohl_htonl.
  rewrite !u32_idem. apply pack64_halves.
Qed.

(** On this host the two conversions are one and the same byte
    reversal. *)
Lemma be64_to_host_eq (x : Z) : be64_to_host x = host_to_be64 x.
Proof. reflexivity. Qed.

Lemma host_to_be64_be64_to_host (x : Z) :
  host_to_be64 (be64_to_host x) = u64 x.
Proof.
  rewrite <- (be64_to_host_eq (be64_to_host x)), (be64_to_host_eq x).
  apply be64_to_host_host_to_be64.
Qed.

(** X2.  The two 64 bit conversions undo each other on every 64 bit
    value. *)
Theorem be64_host_roundtrip (x : Z) :
  0 <= x < 2 ^ 64 ->
  be64_to_host (host_to_be64 x) = x /\ host_to_be64 (be64_to_host x) = x.
Proof.
  intros H.
  rewrite be64_to_host_host_to_be64, host_to_be64_be64_to_host.
  rewrite u64_small by exact H. split; reflexivity.
Qed.

Lemma be64_host_roundtrip_witness :
  0 <= 150000 < 2 ^ 64 /\
  be64_to_host (host_to_be64 150000) = 150000 /\
  host_to_be64 (be64_to_host 150000) = 150000.
Proof.
  assert (H : 0 <= 150000 < 2 ^ 64) by lia.
  split; [exact H|]. exact (be64_host_roundtrip 150000 H).
Defined.
(* ================================================================== *)
(** ** Further facts: the socket loops *)

(** X3.  [recv_all] is all or nothing: it succeeds exactly when the stream
    still holds [len] bytes before the peer closes, it then returns the
    next [len] bytes, and in both cases the stream has moved on by [len]
    bytes (to its end when it was shorter); nothing is sent.  The cuts of
    the transport change none of this. *)
Theorem recv_all_all_or_nothing (c : conn) (len : nat) :
  fst (recv_all c len)
  = (if (len <=? length (rx c))%nat then Some (firstn len (rx c)) else None) /\
  rx (snd (recv_all c len)) = skipn len (rx c) /\
  tx (snd (recv_all c len)) = tx c.
Proof.
  destruct (len <=? length (rx c))%nat eqn:E.
  - apply Nat.leb_le in E.
    destruct (recv_all_enough c len E) as [s H]. rewrite H.
    repeat split.
  - apply Nat.leb_gt in E.
    destruct (recv_all_short c len E) as [s H]. rewrite H.
    cbn [fst snd drained rx tx]. rewrite skipn_all2 by lia. repeat split.
Qed.

Lemma send_all_loop_room (fuel : nat) :
  forall (c : conn) (p : list byte) (r : nat),
    (length p <= fuel)%nat -> tx_room c = Some r ->
    exists s,
      send_all_loop fuel c p
      = ((length p <=? r)%nat,
         mkConn (rx c) (tx c ++ firstn r p)
                (Some (r - Nat.min r (length p))%nat) s (closed c)).
Proof.
  induction fuel as [|fuel IH]; intros c p r Hlen Hroom.
  - destruct p; [|cbn in Hlen; lia].
    exists (sched c). destruct c; cbn in *. subst.
    rewrite firstn_nil, app_nil_r, Nat.min_0_r, Nat.sub_0_r. reflexivity.
  - destruct p as [|h t].
    + exists (sched c). destruct c; cbn in *. subst.
      rewrite firstn_nil, app_nil_r, Nat.min_0_r, Nat.sub_0_r. reflexivity.
    + cbn [send_all_loop]. unfold send. rewrite Hroom.
      pose proof (grant_bounds c (length (h :: t))) as G.
      set (k := grant c (length (h :: t))) in *.
      cbn [length] in G, Hlen.
      destruct r as [|r'].
      * exists (tl (sched c)). cbn [Z.leb Z.compare Z.opp].
        cbn [firstn length Nat.leb Nat.min Nat.sub]. rewrite app_nil_r.
        reflexivity.
      * set (k' := Nat.min k (S r')).
        assert (Hk : (1 <= k' <= S r')%nat) by (unfold k'; lia).
        assert (Hk2 : (k' <= S (length t))%nat) by (unfold k'; lia).
        replace (Z.of_nat k' <=? 0) with false by lia.
        rewrite Nat2Z.id.
        destruct (IH (mkConn (rx c) (tx c ++ firstn k' (h :: t))
                             (Some (S r' - k')%nat) (tl (sched c)) (closed c))
                     (skipn k' (h :: t)) (S r' - k')%nat) as [s Hs].
        -- rewrite length_skipn. cbn [length]. lia.
        -- reflexivity.
        -- exists s. rewrite Hs. cbn [rx tx closed].
           rewrite length_skipn. cbn [length].
           rewrite <- app_assoc, firstn_firstn_skipn by lia.
           f_equal; [|f_equal; f_equal; lia].
           destruct (S (length t) <=? S r')%nat eqn:E1;
             [apply Nat.leb_le in E1; apply Nat.leb_le; lia
             |apply Nat.leb_gt in E1; apply Nat.leb_gt; lia].
Qed.

(** X4.  A peer that stops taking bytes: when the peer takes [r] more
    bytes and no more, [send_all] returns [true] exactly when the data
    fit in [r] bytes, and what has been sent is the first [r] bytes of
    the data (all of them when they fit), in order and once each. *)
Theorem send_all_peer_stops (c : conn) (data : list byte) (r : nat) :
  tx_room c = Some r ->
  fst (send_all c data) = (length data <=? r)%nat /\
  tx (snd (send_all c data)) = tx c ++ firstn r data /\
  rx (snd (send_all c data)) = rx c.
Proof.
  intros H.
  destruct (send_all_loop_room (length data) c data r (le_n _) H) as [s E].
  unfold send_all. rewrite E. repeat split.
Qed.

Lemma send_all_peer_stops_witness :
  let c := mkConn [] [] (Some 3%nat) [0; 0]%nat false in
  tx_room c = Some 3%nat /\
  fst (send_all c (lit "hello")) = (length (lit "hello") <=? 3)%nat /\
  tx (snd (send_all c (lit "hello"))) = tx c ++ firstn 3 (lit "hello") /\
  rx (snd (send_all c (lit "hello"))) = rx c.
Proof.
  intros c.
  assert (H : tx_room c = Some 3%nat) by reflexivity.
  split; [exact H|]. exact (send_all_peer_stops c (lit "hello") 3 H).
Defined.

(** X5.  [send_line] to a peer that takes [r] more bytes returns [true]
    exactly when the whole frame, header and string, fits in [r] bytes;
    what has been sent is the first [r] bytes of the frame. *)
Theorem send_line_peer_stops (c : conn) (s : list byte) (r : nat) :
  tx_room c = Some r ->
  fst (send_line c s) = (4 + length s <=? r)%nat /\
  tx (snd (send_line c s)) = tx c ++ firstn r (frame s).
Proof.
  intros H. unfold send_line. rewrite store_u32_htonl.
  destruct (send_all_loop_room 4 c (be32 (u32 (size s))) r (le_n _) H)
    as [s1 E1].
  change (send_all_loop 4 c (be32 (u32 (size s))))
    with (send_all c (be32 (u32 (size s)))) in E1.
  rewrite E1. rewrite be32_length.
  destruct (4 <=? r)%nat eqn:E; cbn [negb fst snd tx].
  - apply Nat.leb_le in E.
    set (c1 := mkConn (rx c) (tx c ++ firstn r (be32 (u32 (size s))))
                      (Some (r - Nat.min r 4)%nat) s1 (closed c)).
    destruct (send_all_loop_room (length s) c1 s (r - Nat.min r 4)%nat
                (le_n _) eq_refl) as [s2 E2].
    change (send_all_loop (length s) c1 s) with (send_all c1 s) in E2.
    rewrite E2. unfold frame.
    assert (Hb : (length s <=? r - Nat.min r 4)%nat = (4 + length s <=? r)%nat).
    { destruct (4 + length s <=? r)%nat eqn:E3;
        [apply Nat.leb_le in E3; apply Nat.leb_le; lia
        |apply Nat.leb_gt in E3; apply Nat.leb_gt; lia]. }
    rewrite Hb.
    assert (Ht : tx c1 ++ firstn (r - Nat.min r 4) s
                 = tx c ++ firstn r (be32 (u32 (size s)) ++ s)).
    { unfold c1. cbn [tx]. rewrite <- app_assoc. f_equal.
      rewrite firstn_app, be32_length.
      rewrite (firstn_all2 (be32 (u32 (size s)))) by (rewrite be32_length; lia).
      f_equal. f_equal. lia. }
    destruct (4 + length s <=? r)%nat; cbn [negb fst snd tx]; split;
      auto.
  - apply Nat.leb_gt in E.
    replace (4 + length s <=? r)%nat with false
      by (symmetry; apply Nat.leb_gt; lia).
    split; [reflexivity|]. unfold frame. rewrite firstn_app, be32_length.
    replace (r - 4)%nat with 0%nat by lia. cbn [firstn].
    rewrite app_nil_r. reflexivity.
Qed.

Lemma send_line_peer_stops_witness :
  let c := mkConn [] [] (Some 6%nat) [1]%nat false in
  tx_room c = Some 6%nat /\
  fst (send_line c (lit "LIST")) = (4 + length (lit "LIST") <=? 6)%nat /\
  tx (snd (send_line c (lit "LIST"))) = tx c ++ firstn 6 (frame (lit "LIST")).
Proof.
  intros c.
  assert (H : tx_room c = Some 6%nat) by reflexivity.
  split; [exact H|]. exact (send_line_peer_stops c (lit "LIST") 6 H).
Defined.

(* ================================================================== *)
(** ** Further facts: frames *)

Lemma be32_be_value (hdr : list byte) :
  length hdr = 4%nat -> be32 (be_value hdr) = hdr.
Proof.
  destruct hdr as [|a [|b [|c [|d [|]]]]]; try discriminate. intros _.
  unfold be_value, be32. cbn [fold_left].
  pose proof (Z_of_byte_range a). pose proof (Z_of_byte_range b).
  pose proof (Z_of_byte_range c). pose proof (Z_of_byte_range d).
  transitivity [byte_of_Z (Z_of_byte a); byte_of_Z (Z_of_byte b);
                byte_of_Z (Z_of_byte c); byte_of_Z (Z_of_byte d)];
    [|rewrite !byte_of_Z_of_byte; reflexivity].
  f_equal; [|f_equal; [|f_equal; [|f_equal]]];
    apply byte_of_Z_ext; change 255 with (Z.ones 8);
    rewrite !Z.land_ones, ?Z.shiftr_div_pow2 by lia;
    change (2 ^ 8) with 256; change (2 ^ 16) with 65536;
    change (2 ^ 24) with 16777216;
    Z.div_mod_to_equations; lia.
Qed.

Lemma be_value_range4 (hdr : list byte) :
  length hdr = 4%nat -> 0 <= be_value hdr < 2 ^ 32.
Proof.
  intros H. rewrite <- (be32_be_value hdr H), be_value_be32.
  apply u32_range.
Qed.

(** X6.  [recv_line] returns a line exactly when the stream holds a whole
    frame: four header bytes that spell, most significant byte first, the
    length of the line, then the line.  A stream that ends inside the
    header or inside the line makes it fail. *)
Theorem recv_line_whole_frame (c : conn) (out : list byte) :
  fst (recv_line c) = Some out <->
  exists hdr rest,
    rx c = hdr ++ out ++ rest /\
    length hdr = 4%nat /\
    be_value hdr = size out.
Proof.
  split.
  - intros H.
    destruct (Nat.le_gt_cases 4 (length (rx c))) as [L|L].
    + set (hdr := firstn 4 (rx c)). set (body := skipn 4 (rx c)).
      assert (Hh : length hdr = 4%nat)
        by (unfold hdr; rewrite length_firstn; lia).
      assert (Hrx : rx c = be32 (be_value hdr) ++ body)
        by (rewrite be32_be_value by exact Hh; symmetry; apply firstn_skipn).
      pose proof (be_value_range4 hdr Hh) as R.
      destruct (Nat.le_gt_cases (Z.to_nat (u32 (be_value hdr))) (length body))
        as [B|B].
      * destruct (recv_line_spec c _ _ Hrx B) as [sch E].
        rewrite E in H. cbn [fst] in H. apply Some_inj in H.
        rewrite u32_small in H by exact R.
        exists hdr, (skipn (Z.to_nat (be_value hdr)) body).
        split; [|split; [exact Hh|]].
        -- rewrite <- H, firstn_skipn. symmetry. apply firstn_skipn.
        -- rewrite <- H. unfold size. rewrite length_firstn.
           rewrite u32_small in B by exact R. lia.
      * destruct (recv_line_short c _ _ Hrx B) as [sch E].
        rewrite E in H. discriminate.
    + destruct (recv_line_no_header c L) as [sch E].
      rewrite E in H. discriminate.
  - intros (hdr & rest & Hrx & Hh & Hv).
    pose proof (be_value_range4 hdr Hh) as R.
    assert (Hrx' : rx c = be32 (be_value hdr) ++ out ++ rest)
      by (rewrite be32_be_value by exact Hh; exact Hrx).
    assert (Hn : Z.to_nat (u32 (be_value hdr)) = length out)
      by (rewrite u32_small by exact R; rewrite Hv; apply Nat2Z.id).
    destruct (recv_line_spec c _ _ Hrx') as [sch E].
    + rewrite Hn, length_app. lia.
    + rewrite E, Hn, firstn_exact. reflexivity.
Qed.

Lemma send_lines_open (ls : list (list byte)) :
  forall c, tx_room c = None ->
            exists sch,
              send_lines c ls
              = (true, after_send c (concat (map frame ls)) sch).
Proof.
  induction ls as [|l ls IH]; intros c H.
  - exists (sched c). cbn. rewrite after_send_nil by exact H. reflexivity.
  - cbn [send_lines map concat].
    destruct (send_line_open c l H) as [s1 E1]. rewrite E1. cbn [negb].
    destruct (IH (after_send c (frame l) s1) eq_refl) as [s2 E2].
    rewrite E2. exists s2. rewrite after_send_twice. reflexivity.
Qed.

Lemma recv_lines_frames (ls : list (list byte)) (later : list byte) :
  Forall (fun l => size l < 2 ^ 32) ls ->
  forall cuts,
  exists sch,
    recv_lines (length ls) (peer_end (concat (map frame ls) ++ later) cuts)
    = (ls, peer_end later sch).
Proof.
  induction 1 as [|l ls Hl Hls IH]; intros cuts.
  - exists cuts. reflexivity.
  - cbn [length recv_lines map concat].
    destruct (recv_line_frame
                (peer_end ((frame l ++ concat (map frame ls)) ++ later) cuts)
                l (concat (map frame ls) ++ later)) as [s1 E1].
    + cbn [peer_end rx]. rewrite <- app_assoc. reflexivity.
    + exact Hl.
    + rewrite E1. cbn [peer_end tx tx_room closed].
      destruct (IH s1) as [s2 E2]. unfold peer_end in E2. rewrite E2.
      exists s2. reflexivity.
Qed.

(** X7.  Frames keep their bounds in a sequence: when any number of
    strings, each shorter than [2^32] bytes, are sent one after the other
    with [send_line], as many calls of [recv_line] at the far end return
    the same strings in the same order, and leave unread whatever was
    sent after them. *)
Theorem frames_in_sequence (c : conn) (ls : list (list byte))
  (later : list byte) (cuts : list nat) :
  tx_room c = None ->
  tx c = [] ->
  Forall (fun l => size l < 2 ^ 32) ls ->
  exists c1 sch,
    send_lines c ls = (true, c1) /\
    recv_lines (length ls) (peer_end (tx c1 ++ later) cuts)
    = (ls, peer_end later sch).
Proof.
  intros Hroom Htx Hls.
  destruct (send_lines_open ls c Hroom) as [s1 E1].
  destruct (recv_lines_frames ls later Hls cuts) as [s2 E2].
  exists (after_send c (concat (map frame ls)) s1), s2.
  split; [exact E1|]. cbn [after_send tx]. rewrite Htx. exact E2.
Qed.

Lemma frames_in_sequence_witness :
  let c := fresh_conn [0; 2]%nat in
  let ls := [lit "GET a.txt"; []; lit "QUIT"] in
  tx_room c = None /\
  tx c = [] /\
  Forall (fun l => size l < 2 ^ 32) ls /\
  exists c1 sch,
    send_lines c ls = (true, c1) /\
    recv_lines (length ls) (peer_end (tx c1 ++ lit "more") [1; 0; 5]%nat)
    = (ls, peer_end (lit "more") sch).
Proof.
  intros c ls.
  assert (H1 : tx_room c = None) by reflexivity.
  assert (H2 : tx c = []) by reflexivity.
  assert (H3 : Forall (fun l => size l < 2 ^ 32) ls)
    by (repeat constructor).
  repeat (split; [assumption|]).
  exact (frames_in_sequence c ls (lit "more") [1; 0; 5]%nat H1 H2 H3).
Defined.

(* ================================================================== *)
(** ** Further facts: the bulk transfer at its edges *)

(** X8.  A transfer whose header does not arrive leaves the disk alone:
    when the stream ends before the eight bytes of the size,
    [recv_file_encrypted] returns [false] without opening the destination,
    so a file that was there keeps its content. *)
Theorem recv_file_no_header (path : list byte) (w : world) :
  (length (rx (sock w)) < 8)%nat ->
  fst (recv_file_encrypted path w) = false /\
  disk (snd (recv_file_encrypted path w)) = disk w /\
  calls (snd (recv_file_encrypted path w)) = calls w.
Proof.
  intros H. unfold recv_file_encrypted, bind, on_sock.
  destruct (recv_all_short (sock w) 8 H) as [s E]. rewrite E.
  repeat split.
Qed.

Lemma recv_file_no_header_witness :
  let w := reader_world (lit "1234567") [2]%nat
             (one_file_disk (lit "old.bin") (lit "kept")) in
  (length (rx (sock w)) < 8)%nat /\
  fst (recv_file_encrypted (lit "old.bin") w) = false /\
  disk (snd (recv_file_encrypted (lit "old.bin") w)) = disk w /\
  calls (snd (recv_file_encrypted (lit "old.bin") w)) = calls w.
Proof.
  intros w.
  assert (H : (length (rx (sock w)) < 8)%nat) by (vm_compute; lia).
  split; [exact H|]. exact (recv_file_no_header (lit "old.bin") w H).
Defined.

(** X9.  A destination that cannot be created: [recv_file_encrypted] has
    by then read the eight bytes of the size; it returns [false], leaves
    the disk as it is, and leaves the whole payload unread in the
    stream. *)
Theorem recv_file_cannot_create (path : list byte) (w : world)
  (hdr body : list byte) :
  rx (sock w) = hdr ++ body ->
  length hdr = 8%nat ->
  creatable (disk w) path = false ->
  fst (recv_file_encrypted path w) = false /\
  disk (snd (recv_file_encrypted path w)) = disk w /\
  rx (sock (snd (recv_file_encrypted path w))) = body /\
  calls (snd (recv_file_encrypted path w)) = calls w ++ [OpenWrite path].
Proof.
  intros Hrx Hh Hc. unfold recv_file_encrypted, bind.
  destruct (on_sock_recv_all_enough w 8) as [s E].
  { rewrite Hrx, length_app. lia. }
  rewrite E. unfold open_write, with_sock. cbn [sock disk calls].
  rewrite Hc. cbn [negb ret fst snd sock disk calls after_recv rx].
  rewrite Hrx, <- Hh, skipn_exact. repeat split.
Qed.

Lemma recv_file_cannot_create_witness :
  let w := reader_world (be64 3 ++ lit "abc") []
             (one_file_disk (lit "a") (lit "b")) in
  rx (sock w) = be64 3 ++ lit "abc" /\
  length (be64 3) = 8%nat /\
  creatable (disk w) (lit "x/y") = false /\
  fst (recv_file_encrypted (lit "x/y") w) = false /\
  disk (snd (recv_file_encrypted (lit "x/y") w)) = disk w /\
  rx (sock (snd (recv_file_encrypted (lit "x/y") w))) = lit "abc" /\
  calls (snd (recv_file_encrypted (lit "x/y") w))
  = calls w ++ [OpenWrite (lit "x/y")].
Proof.
  intros w.
  assert (H1 : rx (sock w) = be64 3 ++ lit "abc") by reflexivity.
  assert (H2 : length (be64 3) = 8%nat) by reflexivity.
  assert (H3 : creatable (disk w) (lit "x/y") = false) by reflexivity.
  refine (conj H1 (conj H2 (conj H3 _))).
  exact (recv_file_cannot_create (lit "x/y") w (be64 3) (lit "abc") H1 H2 H3).
Defined.

(** X10.  A path that cannot be opened, being neither a file nor a
    directory that can be read: [send_file_encrypted] returns [false] and
    sends nothing, not even a header. *)
Theorem send_file_missing (path : list byte) (w : world) :
  files (disk w) path = None ->
  dirs (disk w) path = None ->
  fst (send_file_encrypted path w) = false /\
  sock (snd (send_file_encrypted path w)) = sock w /\
  disk (snd (send_file_encrypted path w)) = disk w.
Proof.
  intros H D. unfold send_file_encrypted, bind, open_read, readable.
  rewrite H, D. repeat split.
Qed.

Lemma send_file_missing_witness :
  let w := sender_world (lit "a.bin") (lit "data") [] in
  files (disk w) (lit "b.bin") = None /\
  dirs (disk w) (lit "b.bin") = None /\
  fst (send_file_encrypted (lit "b.bin") w) = false /\
  sock (snd (send_file_encrypted (lit "b.bin") w)) = sock w /\
  disk (snd (send_file_encrypted (lit "b.bin") w)) = disk w.
Proof.
  intros w.
  assert (H : files (disk w) (lit "b.bin") = None) by reflexivity.
  assert (D : dirs (disk w) (lit "b.bin") = None) by reflexivity.
  refine (conj H (conj D _)).
  exact (send_file_missing (lit "b.bin") w H D).
Defined.

(** X11.  A transfer takes from the stream the header and the declared
    number of bytes and nothing more: a frame sent right after a whole
    transfer is the next thing [recv_line] returns. *)
Theorem transfer_then_line (path : list byte) (w : world)
  (data s rest : list byte) :
  rx (sock w) = be64 (size data) ++ data ++ frame s ++ rest ->
  size data < 2 ^ 64 ->
  size s < 2 ^ 32 ->
  creatable (disk w) path = true ->
  exists w' c',
    recv_file_encrypted path w = (true, w') /\
    files (disk w') path = Some (map xor_byte data) /\
    recv_line (sock w') = (Some s, c') /\
    rx c' = rest.
Proof.
  intros Hrx Hd Hs Hc.
  destruct (recv_file_encrypted_complete path w data (frame s ++ rest)
              Hrx Hd Hc) as (w' & E & Hf & Hrx' & _).
  destruct (recv_line_frame (sock w') s rest Hrx' Hs) as [sch L].
  eexists w', _. repeat split; [exact E | exact Hf | exact L | reflexivity].
Qed.

Lemma transfer_then_line_witness :
  let data := lit "xyz" in
  let w := reader_world (be64 (size data) ++ data ++ frame (lit "QUIT") ++ [])
             [0; 1]%nat blank_disk in
  rx (sock w) = be64 (size data) ++ data ++ frame (lit "QUIT") ++ [] /\
  size data < 2 ^ 64 /\
  size (lit "QUIT") < 2 ^ 32 /\
  creatable (disk w) (lit "f") = true /\
  exists w' c',
    recv_file_encrypted (lit "f") w = (true, w') /\
    files (disk w') (lit "f") = Some (map xor_byte data) /\
    recv_line (sock w') = (Some (lit "QUIT"), c') /\
    rx c' = [].
Proof.
  intros data w.
  assert (H1 : rx (sock w)
               = be64 (size data) ++ data ++ frame (lit "QUIT") ++ [])
    by reflexivity.
  assert (H2 : size data < 2 ^ 64) by (vm_compute; reflexivity).
  assert (H3 : size (lit "QUIT") < 2 ^ 32) by (vm_compute; reflexivity).
  assert (H4 : creatable (disk w) (lit "f") = true) by reflexivity.
  repeat (split; [assumption|]).
  exact (transfer_then_line (lit "f") w data (lit "QUIT") [] H1 H2 H3 H4).
Defined.

Lemma on_sock_send_all_room (w : world) (data : list byte) (r : nat) :
  tx_room (sock w) = Some r ->
  exists s,
    on_sock (fun c => send_all c data) w
    = ((length data <=? r)%nat,
       with_sock w (mkConn (rx (sock w)) (tx (sock w) ++ firstn r data)
                           (Some (r - Nat.min r (length data))%nat) s
                           (closed (sock w)))).
Proof.
  intros H. unfold on_sock.
  destruct (send_all_loop_room (length data) (sock w) data r (le_n _) H)
    as [s E].
  unfold send_all. rewrite E. exists s. reflexivity.
Qed.

Lemma leb_shift (a b k : nat) :
  (k <= a)%nat -> (k <= b)%nat -> (a - k <=? b - k)%nat = (a <=? b)%nat.
Proof.
  intros Ha Hb. destruct (a <=? b)%nat eqn:E;
    [apply Nat.leb_le in E; apply Nat.leb_le; lia
    |apply Nat.leb_gt in E; apply Nat.leb_gt; lia].
Qed.

Lemma send_file_loop_room (fuel : nat) :
  forall (rest buf : list byte) (w : world) (r : nat),
    (length rest < fuel)%nat -> (0 < length buf)%nat ->
    tx_room (sock w) = Some r ->
    exists w',
      send_file_loop fuel rest true buf w = ((length rest <=? r)%nat, w') /\
      tx (sock w') = tx (sock w) ++ firstn r (map xor_byte rest) /\
      rx (sock w') = rx (sock w) /\
      disk w' = disk w /\ calls w' = calls w.
Proof.
  induction fuel as [|fuel IH]; intros rest buf w r Hf Hb Hroom; [lia|].
  cbn [send_file_loop negb]. unfold file_read.
  set (data := firstn (length buf) rest).
  destruct (length data =? 0)%nat eqn:E.
  - apply Nat.eqb_eq in E. unfold data in E. rewrite length_firstn in E.
    assert (rest = []) by (destruct rest; [reflexivity | cbn in E; lia]).
    subst rest. exists w. cbn [map length Nat.leb ret].
    rewrite firstn_nil, app_nil_r. repeat split.
  - apply Nat.eqb_neq in E.
    unfold bind. rewrite xor_chunk.
    destruct (on_sock_send_all_room w (map xor_byte data) r Hroom) as [s1 H1].
    rewrite H1. rewrite length_map.
    assert (Hd : (length data <= length buf)%nat)
      by (unfold data; rewrite length_firstn; lia).
    assert (Hdr : (length data <= length rest)%nat)
      by (unfold data; rewrite length_firstn; lia).
    destruct (length data <=? r)%nat eqn:Ok; cbn [negb].
    + apply Nat.leb_le in Ok.
      destruct (length buf <=? length rest)%nat eqn:G.
      * apply Nat.leb_le in G.
        assert (Hlen : length data = length buf)
          by (unfold data; rewrite length_firstn; lia).
        set (w1 := with_sock w
                     (mkConn (rx (sock w))
                        (tx (sock w) ++ firstn r (map xor_byte data))
                        (Some (r - Nat.min r (length data))%nat) s1
                        (closed (sock w)))).
        destruct (IH (skipn (length buf) rest)
                     (xor_in_place (data ++ skipn (length data) buf)
                                   (length data))
                     w1 (r - Nat.min r (length data))%nat)
          as (w' & E' & Htx & Hrx & Hdisk & Hcalls).
        -- rewrite length_skipn. lia.
        -- rewrite xor_chunk_length by exact Hd. exact Hb.
        -- reflexivity.
        -- exists w'. rewrite E'. rewrite length_skipn.
           replace (r - Nat.min r (length data))%nat
             with (r - length buf)%nat in * by lia.
           rewrite leb_shift by lia.
           split; [reflexivity|].
           split; [|auto].
           rewrite Htx. unfold w1. cbn [with_sock sock tx].
           rewrite <- app_assoc. f_equal.
           rewrite firstn_all2 by (rewrite length_map; lia).
           unfold data. rewrite <- firstn_map, <- skipn_map.
           apply firstn_firstn_skipn. lia.
      * apply Nat.leb_gt in G. rewrite send_file_loop_done.
        assert (Hall : data = rest)
          by (unfold data; apply firstn_all2; lia).
        rewrite Hall in *.
        replace (length rest <=? r)%nat with true
          by (symmetry; apply Nat.leb_le; exact Ok).
        eexists. split; [reflexivity|].
        cbn [with_sock sock tx rx disk calls]. repeat split.
    + apply Nat.leb_gt in Ok.
      replace (length rest <=? r)%nat with false
        by (symmetry; apply Nat.leb_gt; lia).
      eexists. split; [reflexivity|].
      cbn [with_sock sock tx rx disk calls]. split; [|repeat split].
      f_equal. unfold data. rewrite !firstn_map, firstn_firstn.
      f_equal. f_equal. lia.
Qed.

(** X12.  A peer that stops taking bytes during a download or an upload:
    when the file can be opened and the peer takes [r] more bytes,
    [send_file_encrypted] returns [true] exactly when the header and the
    whole content fit in [r] bytes, and what has been sent is the first
    [r] bytes of the header followed by the encoded content: the bytes of
    the file leave in order, none twice and none skipped. *)
Theorem send_file_peer_stops (path content : list byte) (w : world) (r : nat) :
  files (disk w) path = Some content ->
  tx_room (sock w) = Some r ->
  fst (send_file_encrypted path w) = (8 + length content <=? r)%nat /\
  tx (sock (snd (send_file_encrypted path w)))
  = tx (sock w) ++ firstn r (be64 (size content) ++ map xor_byte content).
Proof.
  intros Hf Hroom.
  unfold send_file_encrypted, bind, open_read, readable, tell_end.
  cbn [disk]. rewrite Hf. cbn [disk]. rewrite ?Hf.
  rewrite store_u64_host_to_be64, be64_u64.
  set (w1 := mkWorld (sock w) (disk w) (calls w ++ [OpenRead path])).
  destruct (on_sock_send_all_room w1 (be64 (size content)) r Hroom)
    as [s1 H1].
  rewrite H1, be64_length.
  rewrite firstn_app, be64_length.
  destruct (8 <=? r)%nat eqn:E; cbn [negb].
  - apply Nat.leb_le in E.
    set (w2 := with_sock w1 _).
    destruct (send_file_loop_room (S (length content)) content
                (repeat x00 buf_size) w2 (r - Nat.min r 8)%nat)
      as (w' & E' & Htx & _).
    + lia.
    + rewrite repeat_length. apply buf_size_pos.
    + reflexivity.
    + rewrite E'. cbn [fst snd]. rewrite Htx. unfold w2, w1.
      cbn [with_sock sock tx]. rewrite <- app_assoc.
      replace (r - Nat.min r 8)%nat with (r - 8)%nat by lia.
      split; [|reflexivity].
      destruct (8 + length content <=? r)%nat eqn:E3;
        [apply Nat.leb_le in E3; apply Nat.leb_le; lia
        |apply Nat.leb_gt in E3; apply Nat.leb_gt; lia].
  - apply Nat.leb_gt in E. cbn [ret fst snd with_sock sock tx].
    replace (r - 8)%nat with 0%nat by lia. cbn [firstn].
    rewrite app_nil_r. split; [|reflexivity].
    symmetry. apply Nat.leb_gt. lia.
Qed.

Lemma send_file_peer_stops_witness :
  let content := lit "payload" in
  let w := mkWorld (mkConn [] [] (Some 11%nat) [2]%nat false)
                   (one_file_disk (lit "a.bin") content) [] in
  files (disk w) (lit "a.bin") = Some content /\
  tx_room (sock w) = Some 11%nat /\
  fst (send_file_encrypted (lit "a.bin") w) = (8 + length content <=? 11)%nat /\
  tx (sock (snd (send_file_encrypted (lit "a.bin") w)))
  = tx (sock w) ++ firstn 11 (be64 (size content) ++ map xor_byte content).
Proof.
  intros content w.
  assert (H1 : files (disk w) (lit "a.bin") = Some content) by reflexivity.
  assert (H2 : tx_room (sock w) = Some 11%nat) by reflexivity.
  refine (conj H1 (conj H2 _)).
  exact (send_file_peer_stops (lit "a.bin") content w 11 H1 H2).
Defined.

(* ================================================================== *)
(** ** Further facts: the other turns of the command loop *)

Lemma recv_all_tx (c : conn) (len : nat) : tx (snd (recv_all c len)) = tx c.
Proof.
  destruct (Nat.le_gt_cases len (length (rx c))) as [H|H].
  - destruct (recv_all_enough c len H) as [s E]. rewrite E. reflexivity.
  - destruct (recv_all_short c len H) as [s E]. rewrite E. reflexivity.
Qed.

Lemma recv_line_tx (c : conn) : tx (snd (recv_line c)) = tx c.
Proof.
  unfold recv_line. pose proof (recv_all_tx c 4) as H1.
  destruct (recv_all c 4) as [[hdr|] c1]; cbn [snd] in *; [|exact H1].
  destruct (ntohl (load_u32 hdr) =? 0); [exact H1|].
  pose proof (recv_all_tx c1 (Z.to_nat (ntohl (load_u32 hdr)))) as H2.
  destruct (recv_all c1 (Z.to_nat (ntohl (load_u32 hdr)))) as [[body|] c2];
    cbn [snd] in *; congruence.
Qed.

Section OtherTurns.

Variables (w : world) (line : list byte) (c1 : conn).
Hypothesis Hline : recv_line (sock w) = (Some line, c1).
Hypothesis Hroom : tx_room c1 = None.

(** X13.  QUIT: when the first word of the line is [QUIT], the server
    sends the one frame [BYE] and the command loop ends at once, whatever
    the fuel and whatever follows on the stream, which stays unread; the
    disk is not touched. *)
Theorem quit_ends_loop (fuel : nat) :
  fst (extract line) = lit "QUIT" ->
  exists sch,
    command_loop (S fuel) w
    = Some (mkWorld (after_send c1 (frame (lit "BYE")) sch)
                    (disk w) (calls w)).
Proof.
  intros Hcmd.
  destruct (say_open (with_sock w c1) (lit "BYE") Hroom) as [sch E].
  exists sch. cbn [command_loop]. open_step Hline.
  destruct (extract line) as [cmd iss]. cbn [fst] in Hcmd. subst cmd.
  decide_literals. cbv iota. unfold bind. fold (with_sock w c1).
  rewrite E. reflexivity.
Qed.

(** X14.  Any other first word, the empty line included, and [LIST],
    [GET], [PUT] and [QUIT] in another case: the server sends the one
    frame [ERR UnknownCmd], makes no file system call, leaves the disk as
    it is, and the loop goes on. *)
Theorem unknown_command :
  ~ In (fst (extract line)) [lit "LIST"; lit "GET"; lit "PUT"; lit "QUIT"] ->
  exists sch,
    command_step w
    = (Continue,
       mkWorld (after_send c1 (frame (lit "ERR UnknownCmd")) sch)
               (disk w) (calls w)).
Proof.
  intros Hcmd.
  destruct (say_open (with_sock w c1) (lit "ERR UnknownCmd") Hroom)
    as [sch E].
  exists sch. open_step Hline.
  destruct (extract line) as [cmd iss]. cbn [fst In] in Hcmd.
  assert (N : forall k, In k [lit "LIST"; lit "GET"; lit "PUT"; lit "QUIT"] ->
                        bytes_eqb cmd k = false).
  { intros k Hk. destruct (bytes_eqb cmd k) eqn:B; [|reflexivity].
    apply bytes_eqb_eq in B. subst k. exfalso. apply Hcmd.
    cbn [In] in Hk. intuition. }
  rewrite !N by (cbn [In]; auto 6).
  unfold bind. fold (with_sock w c1). rewrite E. reflexivity.
Qed.


(** X16.  PUT cut short: when the stream ends before the declared number
    of payload bytes, the server has already sent [OK]; the turn ends the
    command loop, so the connection is closed without any further frame,
    and the uploads directory keeps the whole chunks that arrived. *)
Theorem put_cut_short (fuel : nat) (n : Z) (avail : list byte) :
  fst (extract line) = lit "PUT" ->
  safe_filename (fst (extract (snd (extract line)))) = true ->
  let path := UPLOAD_DIR ++ lit "/" ++ fst (extract (snd (extract line))) in
  rx c1 = be64 n ++ avail ->
  0 <= n < 2 ^ 64 ->
  size avail < n ->
  creatable (disk w) path = true ->
  exists w',
    command_loop (S fuel) w = Some w' /\
    tx (sock w') = tx c1 ++ frame (lit "OK") /\
    files (disk w') path
    = Some (map xor_byte
              (firstn (buf_size * (length avail / buf_size)) avail)).
Proof.
  intros Hcmd Hsafe path Hrx Hn Hshort Hc.
  destruct (say_open (with_sock w c1) (lit "OK") Hroom) as [sch E].
  set (w1 := with_sock (with_sock w c1)
               (after_send (sock (with_sock w c1)) (frame (lit "OK")) sch))
    in E.
  destruct (recv_file_encrypted_start path w1 n avail) as [s2 S2]; auto.
  destruct (recv_file_loop_truncated path (S (length avail))
              (repeat x00 buf_size) n
              (mkWorld (mkConn avail (tx (sock w1)) (tx_room (sock w1)) s2
                               (closed (sock w1)))
                       (write_file (disk w1) path [])
                       (calls w1 ++ [OpenWrite path]))
              [])
    as (w' & R & Hf & Htx & _).
  { exact Hshort. }
  { cbn [sock rx]. lia. }
  { rewrite repeat_length. apply buf_size_pos. }
  { apply files_write_file. }
  exists w'. split; [|split].
  - cbn [command_loop]. open_step Hline.
    destruct (extract line) as [cmd iss]. cbn [fst snd] in *. subst cmd.
    decide_literals. cbv iota.
    destruct (extract iss) as [fname rest']. cbn [fst] in *.
    rewrite Hsafe. cbn [negb]. fold path. unfold bind.
    fold (with_sock w c1). rewrite E, S2, R. reflexivity.
  - rewrite Htx. reflexivity.
  - rewrite Hf, repeat_length. reflexivity.
Qed.

End OtherTurns.

Lemma quit_ends_loop_witness :
  let line := lit "QUIT" in
  let w := reader_world (frame line ++ frame (lit "LIST")) [] blank_disk in
  let c1 := peer_end (frame (lit "LIST")) [] in
  recv_line (sock w) = (Some line, c1) /\
  tx_room c1 = None /\
  fst (extract line) = lit "QUIT" /\
  exists sch,
    command_loop 1 w
    = Some (mkWorld (after_send c1 (frame (lit "BYE")) sch)
                    (disk w) (calls w)).
Proof.
  intros line w c1.
  assert (H1 : recv_line (sock w) = (Some line, c1))
    by (vm_compute; reflexivity).
  assert (H2 : tx_room c1 = None) by reflexivity.
  assert (H3 : fst (extract line) = lit "QUIT") by (vm_compute; reflexivity).
  refine (conj H1 (conj H2 (conj H3 _))).
  exact (quit_ends_loop w line c1 H1 H2 0 H3).
Defined.

Lemma unknown_command_witness :
  let line := lit "list" in
  let w := reader_world (frame line) [] blank_disk in
  let c1 := peer_end [] [] in
  recv_line (sock w) = (Some line, c1) /\
  tx_room c1 = None /\
  ~ In (fst (extract line)) [lit "LIST"; lit "GET"; lit "PUT"; lit "QUIT"] /\
  exists sch,
    command_step w
    = (Continue,
       mkWorld (after_send c1 (frame (lit "ERR UnknownCmd")) sch)
               (disk w) (calls w)).
Proof.
  intros line w c1.
  assert (H1 : recv_line (sock w) = (Some line, c1))
    by (vm_compute; reflexivity).
  assert (H2 : tx_room c1 = None) by reflexivity.
  assert (H3 : ~ In (fst (extract line))
                    [lit "LIST"; lit "GET"; lit "PUT"; lit "QUIT"])
    by (vm_compute; intros [F|[F|[F|[F|[]]]]]; discriminate).
  refine (conj H1 (conj H2 (conj H3 _))).
  exact (unknown_command w line c1 H1 H2 H3).
Defined.


Lemma put_cut_short_witness :
  let line := lit "PUT up.bin" in
  let avail := lit "abc" in
  let w := reader_world (frame line ++ be64 10 ++ avail) [] blank_disk in
  let c1 := peer_end (be64 10 ++ avail) [] in
  recv_line (sock w) = (Some line, c1) /\
  tx_room c1 = None /\
  fst (extract line) = lit "PUT" /\
  safe_filename (fst (extract (snd (extract line)))) = true /\
  let path := UPLOAD_DIR ++ lit "/" ++ fst (extract (snd (extract line))) in
  rx c1 = be64 10 ++ avail /\
  0 <= 10 < 2 ^ 64 /\
  size avail < 10 /\
  creatable (disk w) path = true /\
  exists w',
    command_loop 1 w = Some w' /\
    tx (sock w') = tx c1 ++ frame (lit "OK") /\
    files (disk w') path
    = Some (map xor_byte
              (firstn (buf_size * (length avail / buf_size)) avail)).
Proof.
  intros line avail w c1.
  assert (H1 : recv_line (sock w) = (Some line, c1))
    by (vm_compute; reflexivity).
  assert (H2 : tx_room c1 = None) by reflexivity.
  assert (H3 : fst (extract line) = lit "PUT") by (vm_compute; reflexivity).
  assert (H4 : safe_filename (fst (extract (snd (extract line)))) = true)
    by (vm_compute; reflexivity).
  refine (conj H1 (conj H2 (conj H3 (conj H4 _)))).
  intros path.
  assert (H5 : rx c1 = be64 10 ++ avail) by reflexivity.
  assert (H6 : 0 <= 10 < 2 ^ 64) by lia.
  assert (H7 : size avail < 10) by (vm_compute; reflexivity).
  assert (H8 : creatable (disk w) path = true) by reflexivity.
  refine (conj H5 (conj H6 (conj H7 (conj H8 _)))).
  exact (put_cut_short w line c1 H1 H2 0 10 avail H3 H4 H5 H6 H7 H8).
Defined.

(** X17.  Loss of the stream: when [recv_line] fails at the start of a
    turn, the command loop ends with nothing sent and nothing touched on
    the disk; when it fails on the very first line of a connection,
    [handle_client] closes the socket in the same silence. *)
Theorem stream_loss_silent (fuel : nat) (w : world) :
  fst (recv_line (sock w)) = None ->
  (exists w',
     command_loop (S fuel) w = Some w' /\
     tx (sock w') = tx (sock w) /\ disk w' = disk w /\ calls w' = calls w) /\
  (exists w',
     handle_client fuel w = Some w' /\
     tx (sock w') = tx (sock w) /\ closed (sock w') = true /\
     disk w' = disk w /\ calls w' = calls w).
Proof.
  intros H. pose proof (recv_line_tx (sock w)) as T.
  destruct (recv_line (sock w)) as [r c1] eqn:E. cbn [fst snd] in *.
  subst r. split.
  - eexists. cbn [command_loop]. unfold command_step, bind, on_sock.
    rewrite E. cbn [ret]. repeat split. exact T.
  - eexists. unfold handle_client, on_sock. rewrite E.
    repeat split. exact T.
Qed.

Lemma stream_loss_silent_witness :
  let w := reader_world (lit "ab") [] blank_disk in
  fst (recv_line (sock w)) = None /\
  (exists w',
     command_loop 1 w = Some w' /\
     tx (sock w') = tx (sock w) /\ disk w' = disk w /\ calls w' = calls w) /\
  (exists w',
     handle_client 0 w = Some w' /\
     tx (sock w') = tx (sock w) /\ closed (sock w') = true /\
     disk w' = disk w /\ calls w' = calls w).
Proof.
  intros w.
  assert (H : fst (recv_line (sock w)) = None) by reflexivity.
  refine (conj H _). exact (stream_loss_silent 0 w H).
Defined.

(* ================================================================== *)
(** ** Further facts: what a session may touch *)

Section Logs.

Variable P : fs_call -> Prop.

Lemma logs_ret {A : Type} (a : A) : logs_only P (ret a).
Proof. intros w. exists []. cbn. rewrite app_nil_r. auto. Qed.

Lemma logs_bind {A B : Type} (m : M A) (k : A -> M B) :
  logs_only P m -> (forall a, logs_only P (k a)) -> logs_only P (bind m k).
Proof.
  intros Hm Hk w. unfold bind. destruct (Hm w) as (e1 & E1 & F1).
  destruct (m w) as [a w1]. cbn [snd] in E1.
  destruct (Hk a w1) as (e2 & E2 & F2).
  exists (e1 ++ e2). rewrite E2, E1, app_assoc. split; [reflexivity|].
  apply Forall_app. auto.
Qed.

Lemma logs_on_sock {A : Type} (f : conn -> A * conn) : logs_only P (on_sock f).
Proof.
  intros w. exists []. unfold on_sock. destruct (f (sock w)).
  cbn. rewrite app_nil_r. auto.
Qed.

Lemma logs_open_read (path : list byte) :
  P (OpenRead path) -> logs_only P (open_read path).
Proof. intros H w. exists [OpenRead path]. cbn. auto. Qed.

Lemma logs_tell_end (path : list byte) : logs_only P (tell_end path).
Proof. intros w. exists []. cbn. rewrite app_nil_r. auto. Qed.

Lemma logs_open_write (path : list byte) :
  P (OpenWrite path) -> logs_only P (open_write path).
Proof.
  intros H w. exists [OpenWrite path]. unfold open_write.
  destruct (creatable (disk w) path); cbn; auto.
Qed.

Lemma logs_append_file (path data : list byte) :
  logs_only P (append_file path data).
Proof. intros w. exists []. cbn. rewrite app_nil_r. auto. Qed.

Lemma logs_read_dir (path : list byte) :
  P (OpenDir path) -> logs_only P (read_dir path).
Proof. intros H w. exists [OpenDir path]. cbn. auto. Qed.

Lemma logs_close_sock : logs_only P close_sock.
Proof. intros w. exists []. cbn. rewrite app_nil_r. auto. Qed.

Lemma logs_say (s : list byte) : logs_only P (say s).
Proof. apply logs_on_sock. Qed.

Lemma logs_send_file_loop (fuel : nat) :
  forall (rest : list byte) (good : bool) (buf : list byte),
    logs_only P (send_file_loop fuel rest good buf).
Proof.
  induction fuel as [|fuel IH]; intros rest good buf;
    destruct good; cbn [send_file_loop negb]; try apply logs_ret.
  unfold file_read.
  destruct (length (firstn (length buf) rest) =? 0)%nat; [apply logs_ret|].
  apply logs_bind; [apply logs_on_sock|].
  intros ok. destruct ok; cbn [negb]; [apply IH | apply logs_ret].
Qed.

Lemma logs_send_file_encrypted (path : list byte) :
  P (OpenRead path) -> logs_only P (send_file_encrypted path).
Proof.
  intros H. unfold send_file_encrypted.
  apply logs_bind; [apply logs_open_read, H|].
  intros [content|]; [|apply logs_ret].
  apply logs_bind; [apply logs_tell_end|]. intros pos.
  apply logs_bind; [apply logs_on_sock|].
  intros ok. destruct ok; cbn [negb];
    [apply logs_send_file_loop | apply logs_ret].
Qed.

Lemma logs_recv_file_loop (path : list byte) (fuel : nat) :
  forall (buf : list byte) (left : Z),
    logs_only P (recv_file_loop fuel path buf left).
Proof.
  induction fuel as [|fuel IH]; intros buf left;
    rewrite recv_file_loop_eq; destruct (left <=? 0); try apply logs_ret.
  cbv zeta. apply logs_bind; [apply logs_on_sock|].
  intros [data|]; [|apply logs_ret].
  apply logs_bind; [apply logs_append_file|]. intros _. apply IH.
Qed.

Lemma logs_recv_file_encrypted (path : list byte) :
  P (OpenWrite path) -> logs_only P (recv_file_encrypted path).
Proof.
  intros H. unfold recv_file_encrypted.
  apply logs_bind; [apply logs_on_sock|].
  intros [hdr|]; [|apply logs_ret].
  apply logs_bind; [apply logs_open_write, H|].
  intros o. destruct o; cbn [negb]; [|apply logs_ret].
  intros w. apply logs_recv_file_loop.
Qed.

End Logs.

Section Writes.

Variable Q : list byte -> Prop.

Lemma writes_ret {A : Type} (a : A) : writes_only Q (ret a).
Proof. intros w. cbn. auto. Qed.

Lemma writes_bind {A B : Type} (m : M A) (k : A -> M B) :
  writes_only Q m -> (forall a, writes_only Q (k a)) ->
  writes_only Q (bind m k).
Proof.
  intros Hm Hk w. unfold bind. destruct (Hm w) as (D1 & C1 & F1).
  destruct (m w) as [a w1]. cbn [snd] in *.
  destruct (Hk a w1) as (D2 & C2 & F2).
  split; [congruence|]. split; [congruence|].
  intros p Hp. rewrite F2, F1 by exact Hp. reflexivity.
Qed.

Lemma writes_on_sock {A : Type} (f : conn -> A * conn) :
  writes_only Q (on_sock f).
Proof. intros w. unfold on_sock. destruct (f (sock w)). cbn. auto. Qed.

Lemma writes_open_read (path : list byte) : writes_only Q (open_read path).
Proof. intros w. cbn. auto. Qed.

Lemma writes_tell_end (path : list byte) : writes_only Q (tell_end path).
Proof. intros w. cbn. auto. Qed.

Lemma files_write_other (d : filesys) (path content p : list byte) :
  p <> path -> files (write_file d path content) p = files d p.
Proof.
  intros H. cbn. destruct (bytes_eqb p path) eqn:E; [|reflexivity].
  apply bytes_eqb_eq in E. contradiction.
Qed.

Lemma writes_open_write (path : list byte) :
  Q path -> writes_only Q (open_write path).
Proof.
  intros H w. unfold open_write.
  destruct (creatable (disk w) path); cbn [snd disk]; [|auto].
  split; [reflexivity|]. split; [reflexivity|].
  intros p Hp. apply files_write_other. intros ->. contradiction.
Qed.

Lemma writes_append_file (path data : list byte) :
  Q path -> writes_only Q (append_file path data).
Proof.
  intros H w. unfold append_file. cbn [snd disk].
  split; [reflexivity|]. split; [reflexivity|].
  intros p Hp. apply files_write_other. intros ->. contradiction.
Qed.

Lemma writes_read_dir (path : list byte) : writes_only Q (read_dir path).
Proof. intros w. cbn. auto. Qed.

Lemma writes_close_sock : writes_only Q close_sock.
Proof. intros w. cbn. auto. Qed.

Lemma writes_say (s : list byte) : writes_only Q (say s).
Proof. apply writes_on_sock. Qed.

Lemma writes_send_file_loop (fuel : nat) :
  forall (rest : list byte) (good : bool) (buf : list byte),
    writes_only Q (send_file_loop fuel rest good buf).
Proof.
  induction fuel as [|fuel IH]; intros rest good buf;
    destruct good; cbn [send_file_loop negb]; try apply writes_ret.
  unfold file_read.
  destruct (length (firstn (length buf) rest) =? 0)%nat; [apply writes_ret|].
  apply writes_bind; [apply writes_on_sock|].
  intros ok. destruct ok; cbn [negb]; [apply IH | apply writes_ret].
Qed.

Lemma writes_send_file_encrypted (path : list byte) :
  writes_only Q (send_file_encrypted path).
Proof.
  unfold send_file_encrypted.
  apply writes_bind; [apply writes_open_read|].
  intros [content|]; [|apply writes_ret].
  apply writes_bind; [apply writes_tell_end|]. intros pos.
  apply writes_bind; [apply writes_on_sock|].
  intros ok. destruct ok; cbn [negb];
    [apply writes_send_file_loop | apply writes_ret].
Qed.

Lemma writes_recv_file_loop (path : list byte) (fuel : nat) :
  Q path ->
  forall (buf : list byte) (left : Z),
    writes_only Q (recv_file_loop fuel path buf left).
Proof.
  intros H. induction fuel as [|fuel IH]; intros buf left;
    rewrite recv_file_loop_eq; destruct (left <=? 0); try apply writes_ret.
  cbv zeta. apply writes_bind; [apply writes_on_sock|].
  intros [data|]; [|apply writes_ret].
  apply writes_bind; [apply writes_append_file, H|]. intros _. apply IH.
Qed.

Lemma writes_recv_file_encrypted (path : list byte) :
  Q path -> writes_only Q (recv_file_encrypted path).
Proof.
  intros H. unfold recv_file_encrypted.
  apply writes_bind; [apply writes_on_sock|].
  intros [hdr|]; [|apply writes_ret].
  apply writes_bind; [apply writes_open_write, H|].
  intros o. destruct o; cbn [negb]; [|apply writes_ret].
  intros w. apply writes_recv_file_loop. exact H.
Qed.

End Writes.

Lemma logs_list_files : logs_only session_call list_files.
Proof.
  unfold list_files. apply logs_bind.
  - apply logs_read_dir. right. reflexivity.
  - intros [names|]; apply logs_ret.
Qed.

Lemma writes_list_files (Q : list byte -> Prop) : writes_only Q list_files.
Proof.
  unfold list_files. apply writes_bind; [apply writes_read_dir|].
  intros [names|]; apply writes_ret.
Qed.

Lemma logs_command_step : logs_only session_call command_step.
Proof.
  unfold command_step. apply logs_bind; [apply logs_on_sock|].
  intros [line|]; [|apply logs_ret].
  destruct (extract line) as [cmd iss].
  destruct (extract iss) as [fname rest].
  destruct (bytes_eqb cmd (lit "LIST")).
  { apply logs_bind; [apply logs_list_files|]. intros data.
    apply logs_bind; [apply logs_say|]. intros _.
    apply logs_bind; [apply logs_say|]. intros _. apply logs_ret. }
  destruct (bytes_eqb cmd (lit "GET")).
  { destruct (safe_filename fname) eqn:S; cbn [negb].
    - assert (C : session_call (OpenRead (ROOT_DIR ++ lit "/" ++ fname)))
        by (right; exists fname; auto).
      cbv zeta. apply logs_bind; [apply logs_open_read, C|].
      intros [t|].
      + apply logs_bind; [apply logs_say|]. intros _.
        apply logs_bind; [apply logs_send_file_encrypted, C|].
        intros ok. destruct ok; apply logs_ret.
      + apply logs_bind; [apply logs_say|]. intros _. apply logs_ret.
    - apply logs_bind; [apply logs_say|]. intros _. apply logs_ret. }
  destruct (bytes_eqb cmd (lit "PUT")).
  { destruct (safe_filename fname) eqn:S; cbn [negb].
    - assert (C : session_call (OpenWrite (UPLOAD_DIR ++ lit "/" ++ fname)))
        by (right; exists fname; auto).
      cbv zeta. apply logs_bind; [apply logs_say|]. intros _.
      apply logs_bind; [apply logs_recv_file_encrypted, C|].
      intros ok. destruct ok; apply logs_ret.
    - apply logs_bind; [apply logs_say|]. intros _. apply logs_ret. }
  destruct (bytes_eqb cmd (lit "QUIT"));
    (apply logs_bind; [apply logs_say|]; intros _; apply logs_ret).
Qed.

Lemma writes_command_step : writes_only upload_path command_step.
Proof.
  unfold command_step. apply writes_bind; [apply writes_on_sock|].
  intros [line|]; [|apply writes_ret].
  destruct (extract line) as [cmd iss].
  destruct (extract iss) as [fname rest].
  destruct (bytes_eqb cmd (lit "LIST")).
  { apply writes_bind; [apply writes_list_files|]. intros data.
    apply writes_bind; [apply writes_say|]. intros _.
    apply writes_bind; [apply writes_say|]. intros _. apply writes_ret. }
  destruct (bytes_eqb cmd (lit "GET")).
  { destruct (safe_filename fname) eqn:S; cbn [negb].
    - cbv zeta. apply writes_bind; [apply writes_open_read|].
      intros [t|].
      + apply writes_bind; [apply writes_say|]. intros _.
        apply writes_bind; [apply writes_send_file_encrypted|].
        intros ok. destruct ok; apply writes_ret.
      + apply writes_bind; [apply writes_say|]. intros _. apply writes_ret.
    - apply writes_bind; [apply writes_say|]. intros _. apply writes_ret. }
  destruct (bytes_eqb cmd (lit "PUT")).
  { destruct (safe_filename fname) eqn:S; cbn [negb].
    - cbv zeta. apply writes_bind; [apply writes_say|]. intros _.
      apply writes_bind.
      + apply writes_recv_file_encrypted. exists fname. auto.
      + intros ok. destruct ok; apply writes_ret.
    - apply writes_bind; [apply writes_say|]. intros _. apply writes_ret. }
  destruct (bytes_eqb cmd (lit "QUIT"));
    (apply writes_bind; [apply writes_say|]; intros _; apply writes_ret).
Qed.

(** What a run of the command loop adds to the calls and changes on the
    disk. *)
Lemma command_loop_touches (fuel : nat) :
  forall w w',
    command_loop fuel w = Some w' ->
    (exists e, calls w' = calls w ++ e /\ Forall session_call e) /\
    dirs (disk w') = dirs (disk w) /\
    creatable (disk w') = creatable (disk w) /\
    forall p, ~ upload_path p -> files (disk w') p = files (disk w) p.
Proof.
  induction fuel as [|fuel IH]; intros w w' H; [discriminate|].
  cbn [command_loop] in H.
  destruct (logs_command_step w) as (e1 & E1 & F1).
  destruct (writes_command_step w) as (D1 & C1 & W1).
  destruct (command_step w) as [[|] w1]; cbn [snd] in *.
  - destruct (IH w1 w' H) as ((e2 & E2 & F2) & D2 & C2 & W2).
    split; [|split; [congruence|split; [congruence|]]].
    + exists (e1 ++ e2). rewrite E2, E1, app_assoc. split; [reflexivity|].
      apply Forall_app. auto.
    + intros p Hp. rewrite W2, W1 by exact Hp. reflexivity.
  - injection H as <-. split; [|auto]. exists e1. auto.
Qed.

Lemma logs_auth_denied (line : list byte) :
  logs_only session_call (auth_denied line).
Proof.
  unfold auth_denied.
  destruct (extract line) as [cmd iss1].
  destruct (extract iss1) as [user iss2].
  destruct (extract iss2) as [pass iss3].
  destruct (negb (bytes_eqb cmd (lit "AUTH")) || empty user || empty pass);
    [apply logs_ret|].
  apply logs_bind; [|intros ok; apply logs_ret].
  unfold check_auth. apply logs_bind.
  - apply logs_open_read. left. reflexivity.
  - intros [content|]; apply logs_ret.
Qed.

Lemma writes_auth_denied (line : list byte) :
  writes_only upload_path (auth_denied line).
Proof.
  unfold auth_denied.
  destruct (extract line) as [cmd iss1].
  destruct (extract iss1) as [user iss2].
  destruct (extract iss2) as [pass iss3].
  destruct (negb (bytes_eqb cmd (lit "AUTH")) || empty user || empty pass);
    [apply writes_ret|].
  apply writes_bind; [|intros ok; apply writes_ret].
  unfold check_auth. apply writes_bind; [apply writes_open_read|].
  intros [content|]; apply writes_ret.
Qed.

Lemma handle_client_touches (fuel : nat) (w w' : world) :
  handle_client fuel w = Some w' ->
  (exists e, calls w' = calls w ++ e /\ Forall session_call e) /\
  dirs (disk w') = dirs (disk w) /\
  creatable (disk w') = creatable (disk w) /\
  forall p, ~ upload_path p -> files (disk w') p = files (disk w) p.
Proof.
  unfold handle_client, on_sock.
  destruct (recv_line (sock w)) as [[line|] c1].
  - set (w1 := mkWorld c1 (disk w) (calls w)).
    destruct (logs_auth_denied line w1) as (e1 & E1 & F1).
    destruct (writes_auth_denied line w1) as (D1 & C1 & W1).
    destruct (auth_denied line w1) as [denied w2]. cbn [snd] in *.
    subst w1. cbn [disk calls] in *.
    destruct denied.
    + intros H. injection H as <-.
      unfold bind, say, on_sock, close_sock.
      destruct (send_line (sock w2) (lit "AUTH_FAIL")) as [ok c2].
      cbn [snd disk calls]. split; [exists e1; auto|auto].
    + unfold say, on_sock.
      destruct (send_line (sock w2) (lit "AUTH_OK")) as [ok c2].
      destruct (command_loop fuel (mkWorld c2 (disk w2) (calls w2)))
        as [w4|] eqn:L; [|discriminate].
      intros H. injection H as <-. cbn [close_sock snd disk calls].
      destruct (command_loop_touches fuel _ _ L)
        as ((e2 & E2 & F2) & D2 & C2 & W2).
      cbn [disk calls] in *.
      split; [|split; [congruence|split; [congruence|]]].
      * exists (e1 ++ e2). rewrite E2, E1, app_assoc. split; [reflexivity|].
        apply Forall_app. auto.
      * intros p Hp. rewrite W2, W1 by exact Hp. reflexivity.
  - intros H. injection H as <-. cbn [close_sock snd disk calls].
    split; [|auto]. exists []. rewrite app_nil_r. auto.
Qed.

Lemma users_file_not_upload : ~ upload_path USERS_FILE.
Proof. intros (f & _ & H). vm_compute in H. discriminate. Qed.

Lemma shared_file_not_upload (f : list byte) :
  safe_filename f = true -> ~ upload_path (ROOT_DIR ++ lit "/" ++ f).
Proof.
  intros Hs (f' & _ & H).
  assert (U : unsafe_name f).
  { right. right. left.
    change (ROOT_DIR ++ lit "/" ++ f) with (lit "server_files/" ++ f) in H.
    change (UPLOAD_DIR ++ lit "/" ++ f')
      with (lit "server_files/" ++ lit "uploads/" ++ f') in H.
    apply app_inv_head in H. rewrite H. apply in_or_app. left.
    vm_compute. intuition. }
  apply safe_filename_false_iff in U. congruence.
Qed.

(** X18.  The file system calls of a whole session: whatever the client
    sends, [handle_client] opens the users file for the login and, after
    it, only lists the shared root, reads files that lie directly in the
    shared root under a safe name, and creates files that lie directly in
    the uploads directory under a safe name. *)
Theorem session_calls_confined (fuel : nat) (w w' : world) :
  handle_client fuel w = Some w' ->
  exists e,
    calls w' = calls w ++ e /\
    Forall (fun c => c = OpenRead USERS_FILE \/ confined c) e.
Proof.
  intros H. exact (proj1 (handle_client_touches fuel w w' H)).
Qed.

Lemma session_calls_confined_witness :
  let w := reader_world session_input [] server_disk in
  handle_client 10 w = Some session_end /\
  exists e,
    calls session_end = calls w ++ e /\
    Forall (fun c => c = OpenRead USERS_FILE \/ confined c) e.
Proof.
  intros w.
  assert (H : handle_client 10 w = Some session_end)
    by (vm_compute; reflexivity).
  refine (conj H _). exact (session_calls_confined 10 w session_end H).
Defined.

(** X19.  What a session can change on the disk: whatever the client
    sends, [handle_client] changes the content of no file but those
    directly in the uploads directory under a safe name.  The users file
    and every file that GET can serve keep their content. *)
Theorem session_writes_only_uploads (fuel : nat) (w w' : world) :
  handle_client fuel w = Some w' ->
  (forall p, ~ upload_path p -> files (disk w') p = files (disk w) p) /\
  files (disk w') USERS_FILE = files (disk w) USERS_FILE /\
  (forall f, safe_filename f = true ->
             files (disk w') (ROOT_DIR ++ lit "/" ++ f)
             = files (disk w) (ROOT_DIR ++ lit "/" ++ f)).
Proof.
  intros H.
  destruct (handle_client_touches fuel w w' H) as (_ & _ & _ & W).
  split; [exact W|]. split; [apply W, users_file_not_upload|].
  intros f Hf. apply W, shared_file_not_upload, Hf.
Qed.

Lemma session_writes_only_uploads_witness :
  let w := reader_world session_input [] server_disk in
  handle_client 10 w = Some session_end /\
  (forall p, ~ upload_path p ->
             files (disk session_end) p = files (disk w) p) /\
  files (disk session_end) USERS_FILE = files (disk w) USERS_FILE /\
  (forall f, safe_filename f = true ->
             files (disk session_end) (ROOT_DIR ++ lit "/" ++ f)
             = files (disk w) (ROOT_DIR ++ lit "/" ++ f)).
Proof.
  intros w.
  assert (H : handle_client 10 w = Some session_end)
    by (vm_compute; reflexivity).
  refine (conj H _). exact (session_writes_only_uploads 10 w session_end H).
Defined.

(** X20.  A session with a peer that keeps taking what the server sends
    always ends, and ends with the socket closed: whatever that peer has
    sent before it stops and whatever the disk holds, [handle_client]
    returns within one turn more than the stream has bytes, and on every
    way out it has closed the socket.  (A peer that takes no more is left
    out: a [send] to it can raise SIGPIPE, which ends the process.) *)
Theorem session_ends_closed (w : world) :
  tx_room (sock w) = None ->
  exists w',
    handle_client (S (length (rx (sock w)))) w = Some w' /\
    closed (sock w') = true.
Proof.
  intros _.
  destruct (handle_client_returns w) as [w' H]. exists w'.
  split; [exact H|].
  unfold handle_client in H.
  destruct (on_sock recv_line w) as [[line|] w1].
  - destruct (auth_denied line w1) as [[|] w2].
    + injection H as <-. unfold bind.
      destruct (say (lit "AUTH_FAIL") w2). reflexivity.
    + destruct (say (lit "AUTH_OK") w2) as [ok w3].
      destruct (command_loop _ w3) as [w4|]; [|discriminate].
      injection H as <-. reflexivity.
  - injection H as <-. reflexivity.
Qed.

Lemma session_ends_closed_witness :
  let w := reader_world (frame (lit "AUTH alice secret")
                         ++ frame (lit "GET a.txt") ++ lit "cut")
             [2; 0]%nat server_disk in
  tx_room (sock w) = None /\
  exists w',
    handle_client (S (length (rx (sock w)))) w = Some w' /\
    closed (sock w') = true.
Proof.
  intros w.
  assert (H : tx_room (sock w) = None) by reflexivity.
  refine (conj H _). exact (session_ends_closed w H).
Defined.
(* ================================================================== *)
(** ** Further facts: lines of the users file and words of a command *)

Lemma find_char_first (c : byte) (a b : list byte) :
  ~ In c a -> find_char c (a ++ c :: b) = Some (length a).
Proof.
  induction a as [|h t IH]; intros H; cbn [app find_char length].
  - replace (byte_eqb c c) with true
      by (symmetry; apply byte_eqb_eq; reflexivity).
    reflexivity.
  - destruct (byte_eqb h c) eqn:E.
    + apply byte_eqb_eq in E. exfalso. apply H. left. exact E.
    + rewrite IH; [reflexivity|]. intros F. apply H. right. exact F.
Qed.

Lemma entry_of_line (user pass : list byte) :
  ~ In ":"%byte user -> entry_of (user ++ ":"%byte :: pass) = Some (user, pass).
Proof.
  intros H. unfold entry_of. rewrite find_char_first by exact H.
  rewrite firstn_exact. replace (length user + 1)%nat with (length (user ++ [":"%byte]))
    by (rewrite length_app; reflexivity).
  change (user ++ ":"%byte :: pass) with (user ++ [":"%byte] ++ pass).
  rewrite app_assoc, skipn_exact. reflexivity.
Qed.

(** X21.  A line of the users file lets its user in: when the file is made
    of lines that each end with a newline, and one of them is a user
    name without a colon, a colon, and a password, [check_auth] succeeds
    for that user name and that password.  The password may have colons
    in it: the line is cut at its first colon. *)
Theorem store_line_authenticates (w : world) (lines : list (list byte))
  (user pass : list byte) :
  files (disk w) USERS_FILE
  = Some (concat (map (fun l => l ++ [x0a]) lines)) ->
  (forall l, In l lines -> ~ In x0a l) ->
  In (user ++ ":"%byte :: pass) lines ->
  ~ In ":"%byte user ->
  fst (check_auth user pass w) = true.
Proof.
  intros Hf Hnl Hin Hcolon.
  rewrite check_auth_run. cbn [fst].
  apply credentials_iff.
  exists (concat (map (fun l => l ++ [x0a]) lines)), (user ++ ":"%byte :: pass).
  split; [exact Hf|]. rewrite listing_lines by exact Hnl.
  split; [exact Hin|]. apply entry_of_line, Hcolon.
Qed.

Lemma store_line_authenticates_witness :
  let lines := [lit "# users"; lit "bob:pw"; lit "alice:se:cret"] in
  let w := reader_world [] []
             (one_file_disk USERS_FILE
                (concat (map (fun l => l ++ [x0a]) lines))) in
  files (disk w) USERS_FILE
  = Some (concat (map (fun l => l ++ [x0a]) lines)) /\
  (forall l, In l lines -> ~ In x0a l) /\
  In (lit "alice" ++ ":"%byte :: lit "se:cret") lines /\
  ~ In ":"%byte (lit "alice") /\
  fst (check_auth (lit "alice") (lit "se:cret") w) = true.
Proof.
  intros lines w.
  assert (H1 : files (disk w) USERS_FILE
               = Some (concat (map (fun l => l ++ [x0a]) lines)))
    by reflexivity.
  assert (H2 : forall l, In l lines -> ~ In x0a l).
  { intros l [<-|[<-|[<-|[]]]]; vm_compute; intuition discriminate. }
  assert (H3 : In (lit "alice" ++ ":"%byte :: lit "se:cret") lines)
    by (right; right; left; reflexivity).
  assert (H4 : ~ In ":"%byte (lit "alice"))
    by (vm_compute; intuition discriminate).
  refine (conj H1 (conj H2 (conj H3 (conj H4 _)))).
  exact (store_line_authenticates w lines (lit "alice") (lit "se:cret")
           H1 H2 H3 H4).
Defined.

Lemma take_word_plain (f rest : list byte) :
  (forall c, In c f -> isspace c = false) ->
  take_word (f ++ " "%byte :: rest) = (f, " "%byte :: rest).
Proof.
  induction f as [|h t IH]; intros H; cbn [app take_word].
  - reflexivity.
  - rewrite (H h) by (left; reflexivity).
    rewrite IH; [reflexivity|]. intros c Hc. apply H. right. exact Hc.
Qed.

Lemma take_word_end (f : list byte) :
  (forall c, In c f -> isspace c = false) -> take_word f = (f, []).
Proof.
  induction f as [|h t IH]; intros H; cbn [take_word]; [reflexivity|].
  rewrite (H h) by (left; reflexivity).
  rewrite IH; [reflexivity|]. intros c Hc. apply H. right. exact Hc.
Qed.

Lemma extract_plain (f : list byte) :
  (forall c, In c f -> isspace c = false) -> extract f = (f, []).
Proof.
  intros H. unfold extract.
  destruct f as [|h t]; [reflexivity|].
  cbn [skip_ws]. rewrite (H h) by (left; reflexivity).
  apply take_word_end, H.
Qed.

Lemma extract_cut (a b : list byte) :
  (forall c, In c a -> isspace c = false) -> a <> [] ->
  extract (a ++ " "%byte :: b) = (a, " "%byte :: b).
Proof.
  intros H Hne. unfold extract.
  destruct a as [|h t]; [contradiction|].
  cbn [app skip_ws]. rewrite (H h) by (left; reflexivity).
  apply (take_word_plain (h :: t)), H.
Qed.


(** X23.  The AUTH line the client builds, as the server reads it: with a
    user name that has no whitespace and is not empty, the three words
    are [AUTH], the user name, and the first word of the password.  A
    password without whitespace arrives whole. *)
Theorem auth_line_parses (user pass : list byte) :
  (forall c, In c user -> isspace c = false) ->
  user <> [] ->
  auth_words (lit "AUTH " ++ user ++ lit " " ++ pass)
  = (lit "AUTH", user, fst (extract pass)) /\
  ((forall c, In c pass -> isspace c = false) -> fst (extract pass) = pass).
Proof.
  intros Hu Hne. split.
  - assert (E1 : extract (lit "AUTH " ++ user ++ lit " " ++ pass)
                 = (lit "AUTH", " "%byte :: user ++ " "%byte :: pass))
      by reflexivity.
    assert (E2 : extract (" "%byte :: user ++ " "%byte :: pass)
                 = (user, " "%byte :: pass))
      by (change (extract (" "%byte :: user ++ " "%byte :: pass))
            with (extract (user ++ " "%byte :: pass));
          apply extract_cut; assumption).
    assert (E3 : extract (" "%byte :: pass) = extract pass) by reflexivity.
    unfold auth_words. rewrite E1, E2, E3.
    destruct (extract pass). reflexivity.
  - intros H. rewrite extract_plain by exact H. reflexivity.
Qed.

Lemma auth_line_parses_witness :
  (forall c, In c (lit "alice") -> isspace c = false) /\
  lit "alice" <> [] /\
  auth_words (lit "AUTH " ++ lit "alice" ++ lit " " ++ lit "my secret")
  = (lit "AUTH", lit "alice", fst (extract (lit "my secret"))) /\
  ((forall c, In c (lit "my secret") -> isspace c = false) ->
   fst (extract (lit "my secret")) = lit "my secret").
Proof.
  assert (H1 : forall c, In c (lit "alice") -> isspace c = false)
    by (intros c [<-|[<-|[<-|[<-|[<-|[]]]]]]; reflexivity).
  assert (H2 : lit "alice" <> []) by discriminate.
  refine (conj H1 (conj H2 _)).
  exact (auth_line_parses (lit "alice") (lit "my secret") H1 H2).
Defined.

(* ================================================================== *)
(** ** Further facts: the client *)

Lemma find_last_of_none (chars s : list byte) :
  (forall x, In x s -> mem_byte x chars = false) ->
  find_last_of chars s = None.
Proof.
  induction s as [|h t IH]; intros H; [reflexivity|].
  cbn [find_last_of]. rewrite IH by (intros x Hx; apply H; right; exact Hx).
  rewrite (H h) by (left; reflexivity). reflexivity.
Qed.

Lemma find_last_of_at (chars dir name : list byte) (sep : byte) :
  mem_byte sep chars = true ->
  (forall x, In x name -> mem_byte x chars = false) ->
  find_last_of chars (dir ++ sep :: name) = Some (length dir).
Proof.
  intros Hsep Hname. induction dir as [|h t IH]; cbn [app find_last_of length].
  - rewrite find_last_of_none by exact Hname. rewrite Hsep. reflexivity.
  - rewrite IH. reflexivity.
Qed.

(** X24.  The name the client sends for an upload is the part of the path
    that starts right after its last slash or backslash, to the end of
    the path: whenever the path is cut at a slash or a backslash and what
    follows has neither, that is the name, whatever stands before.  A
    path with neither of the two is sent as it is. *)
Theorem upload_name_is_last_part (path : list byte) :
  ((~ In "/"%byte path /\ ~ In "\"%byte path) -> upload_name path = path) /\
  (forall (dir name : list byte) (sep : byte),
     path = dir ++ sep :: name ->
     sep = "/"%byte \/ sep = "\"%byte ->
     ~ In "/"%byte name -> ~ In "\"%byte name ->
     upload_name path = name).
Proof.
  assert (M : forall l : list byte,
            ~ In "/"%byte l -> ~ In "\"%byte l ->
            forall x, In x l -> mem_byte x ["/"; "\"]%byte = false).
  { intros l N1 N2 x Hx. unfold mem_byte. cbn [existsb].
    destruct (byte_eqb x "/"%byte) eqn:E1.
    - apply byte_eqb_eq in E1. subst x. contradiction.
    - destruct (byte_eqb x "\"%byte) eqn:E2; [|reflexivity].
      apply byte_eqb_eq in E2. subst x. contradiction. }
  unfold upload_name. split.
  - intros [N1 N2]. rewrite find_last_of_none by (apply M; assumption).
    reflexivity.
  - intros dir name sep -> Hsep N1 N2.
    rewrite find_last_of_at.
    + replace (length dir + 1)%nat with (length (dir ++ [sep]))
        by (rewrite length_app; reflexivity).
      change (dir ++ sep :: name) with (dir ++ [sep] ++ name).
      rewrite app_assoc. apply skipn_exact.
    + destruct Hsep as [-> | ->]; reflexivity.
    + apply M; assumption.
Qed.
Lemma cin_line_next (l rest : list byte) :
  ~ In x0a l -> cin_line (l ++ x0a :: rest) = (l, rest).
Proof.
  intros H. unfold cin_line, getline.
  destruct (l ++ x0a :: rest) as [|c t] eqn:E; [destruct l; discriminate|].
  rewrite <- E, read_to_newline_line by exact H. reflexivity.
Qed.

Lemma on_sock_recv_line_frame (w : world) (s rest : list byte) :
  rx (sock w) = frame s ++ rest ->
  size s < 2 ^ 32 ->
  exists sch,
    on_sock recv_line w
    = (Some s,
       with_sock w (mkConn rest (tx (sock w)) (tx_room (sock w)) sch
                           (closed (sock w)))).
Proof.
  intros Hrx Hs. unfold on_sock.
  destruct (recv_line_frame (sock w) s rest Hrx Hs) as [sch E].
  rewrite E. exists sch. reflexivity.
Qed.

Lemma no_space_no_newline (f : list byte) :
  (forall c, In c f -> isspace c = false) -> ~ In x0a f.
Proof. intros H F. apply H in F. discriminate. Qed.

Lemma safe_not_empty (f : list byte) : safe_filename f = true -> f <> [].
Proof. intros H ->. discriminate. Qed.

Ltac decide_choice :=
  repeat match goal with
  | |- context [bytes_eqb (lit ?a) (lit ?b)] =>
      let v := eval vm_compute in (bytes_eqb (lit a) (lit b)) in
      change (bytes_eqb (lit a) (lit b)) with v
  end; cbv iota.

(** The menu turn of a download that the server grants. *)
Lemma client_turn_download (w : world) (fname content rest more : list byte) :
  ~ In x0a fname -> fname <> [] ->
  tx_room (sock w) = None ->
  rx (sock w)
  = frame (lit "OK") ++ be64 (size content) ++ map xor_byte content ++ rest ->
  size content < 2 ^ 64 ->
  creatable (disk w) fname = true ->
  exists w',
    client_turn (lit "2" ++ x0a :: fname ++ x0a :: more) w
    = ((Continue, more), w') /\
    tx (sock w') = tx (sock w) ++ frame (lit "GET " ++ fname) /\
    files (disk w') fname = Some content /\
    rx (sock w') = rest.
Proof.
  intros Hnl Hne Hroom Hrx Hsize Hc.
  unfold client_turn.
  rewrite (cin_line_next (lit "2")) by (vm_compute; intuition discriminate).
  decide_choice. rewrite cin_line_next by exact Hnl.
  replace (empty fname) with false by (destruct fname; [congruence | reflexivity]).
  destruct (say_open w (lit "GET " ++ fname) Hroom) as [s1 E1].
  unfold bind at 1. rewrite E1. cbn [negb].
  set (w1 := with_sock w (after_send (sock w) (frame (lit "GET " ++ fname)) s1)).
  destruct (on_sock_recv_line_frame w1 (lit "OK")
              (be64 (size content) ++ map xor_byte content ++ rest))
    as [s2 E2]; [exact Hrx | vm_compute; reflexivity |].
  unfold bind at 1. rewrite E2. decide_choice. cbn [negb].
  set (w2 := with_sock w1 _).
  destruct (recv_file_encrypted_complete fname w2 (map xor_byte content) rest)
    as (w' & R & Hf & Hrx' & Htx & _).
  { unfold w2. cbn [with_sock sock rx]. unfold size. rewrite length_map.
    reflexivity. }
  { unfold size in *. rewrite length_map. exact Hsize. }
  { exact Hc. }
  exists w'. unfold bind. rewrite R. cbn [negb ret].
  rewrite map_xor_involutive in Hf.
  split; [reflexivity|]. split; [|auto]. rewrite Htx. reflexivity.
Qed.

(** The menu turn of an upload that the server grants. *)
Lemma client_turn_upload (w : world) (path content rest more : list byte) :
  ~ In x0a path -> path <> [] ->
  tx_room (sock w) = None ->
  rx (sock w) = frame (lit "OK") ++ rest ->
  files (disk w) path = Some content ->
  exists w',
    client_turn (lit "3" ++ x0a :: path ++ x0a :: more) w
    = ((Continue, more), w') /\
    tx (sock w')
    = tx (sock w) ++ frame (lit "PUT " ++ upload_name path)
      ++ be64 (size content) ++ map xor_byte content /\
    rx (sock w') = rest /\
    disk w' = disk w.
Proof.
  intros Hnl Hne Hroom Hrx Hf.
  unfold client_turn.
  rewrite (cin_line_next (lit "3")) by (vm_compute; intuition discriminate).
  decide_choice. rewrite cin_line_next by exact Hnl.
  replace (empty path) with false by (destruct path; [congruence | reflexivity]).
  cbv zeta.
  destruct (say_open w (lit "PUT " ++ upload_name path) Hroom) as [s1 E1].
  unfold bind at 1. rewrite E1. cbn [negb].
  set (w1 := with_sock w
               (after_send (sock w) (frame (lit "PUT " ++ upload_name path)) s1)).
  destruct (on_sock_recv_line_frame w1 (lit "OK") rest)
    as [s2 E2]; [exact Hrx | vm_compute; reflexivity |].
  unfold bind at 1. rewrite E2. decide_choice. cbn [negb].
  set (w2 := with_sock w1 _).
  destruct (send_file_encrypted_spec path content w2 Hf eq_refl) as [s3 E3].
  unfold bind. rewrite E3. cbn [negb ret].
  eexists. split; [reflexivity|].
  unfold replied, w2, w1. cbn [with_sock sock disk after_send tx rx].
  rewrite <- app_assoc. repeat split.
Qed.

(** The server turn on the GET line of a safe name for a file it has. *)
Lemma server_turn_get (w : world) (name content later : list byte) :
  rx (sock w) = frame (lit "GET " ++ name) ++ later ->
  size (lit "GET " ++ name) < 2 ^ 32 ->
  (forall c, In c name -> isspace c = false) ->
  safe_filename name = true ->
  tx_room (sock w) = None ->
  files (disk w) (ROOT_DIR ++ lit "/" ++ name) = Some content ->
  exists w',
    command_step w = (Continue, w') /\
    tx (sock w')
    = tx (sock w) ++ frame (lit "OK")
      ++ be64 (size content) ++ map xor_byte content /\
    rx (sock w') = later /\
    disk w' = disk w.
Proof.
  intros Hrx Hs Hname Hsafe Hroom Hfile.
  destruct (recv_line_frame (sock w) _ later Hrx Hs) as [s0 Hline].
  set (c1 := mkConn later (tx (sock w)) (tx_room (sock w)) s0
                    (closed (sock w))) in Hline.
  set (path := ROOT_DIR ++ lit "/" ++ name) in *.
  set (w1 := mkWorld c1 (disk w) (calls w ++ [OpenRead path])).
  destruct (say_open w1 (lit "OK") Hroom) as [s1 E1].
  destruct (send_file_encrypted_spec path content
              (with_sock w1 (after_send (sock w1) (frame (lit "OK")) s1))
              Hfile eq_refl) as [s2 E2].
  eexists. split.
  - open_step Hline.
    assert (X1 : extract (lit "GET " ++ name) = (lit "GET", " "%byte :: name))
      by reflexivity.
    assert (X2 : extract (" "%byte :: name) = (name, []))
      by (change (extract (" "%byte :: name)) with (extract name);
          apply extract_plain, Hname).
    rewrite X1. decide_literals. cbv iota. rewrite X2, Hsafe. cbn [negb].
    fold path. unfold bind at 1, open_read, readable.
    cbn [sock disk calls]. fold w1.
    rewrite Hfile. unfold bind. rewrite E1, E2. cbn [negb ret]. reflexivity.
  - unfold replied, with_sock, w1, c1.
    cbn [sock disk calls after_send tx rx]. rewrite <- !app_assoc.
    repeat split.
Qed.

(** The server turn on the PUT line of a safe name, with the transfer
    behind it. *)
Lemma server_turn_put (w : world) (name content later : list byte) :
  rx (sock w)
  = frame (lit "PUT " ++ name)
    ++ be64 (size content) ++ map xor_byte content ++ later ->
  size (lit "PUT " ++ name) < 2 ^ 32 ->
  (forall c, In c name -> isspace c = false) ->
  safe_filename name = true ->
  tx_room (sock w) = None ->
  size content < 2 ^ 64 ->
  creatable (disk w) (UPLOAD_DIR ++ lit "/" ++ name) = true ->
  exists w',
    command_step w = (Continue, w') /\
    tx (sock w') = tx (sock w) ++ frame (lit "OK") /\
    rx (sock w') = later /\
    files (disk w') (UPLOAD_DIR ++ lit "/" ++ name) = Some content.
Proof.
  intros Hrx Hs Hname Hsafe Hroom Hsize Hc.
  destruct (recv_line_frame (sock w) _ _ Hrx Hs) as [s0 Hline].
  set (c1 := mkConn _ (tx (sock w)) (tx_room (sock w)) s0 (closed (sock w)))
    in Hline.
  set (path := UPLOAD_DIR ++ lit "/" ++ name) in *.
  destruct (say_open (with_sock w c1) (lit "OK") Hroom) as [sch E].
  set (w1 := with_sock (with_sock w c1)
               (after_send (sock (with_sock w c1)) (frame (lit "OK")) sch))
    in E.
  destruct (recv_file_encrypted_complete path w1 (map xor_byte content) later)
    as (w' & R & Hf & Hrx' & Htx & _).
  { unfold w1, c1. cbn [with_sock sock after_send rx].
    unfold size. rewrite length_map. reflexivity. }
  { unfold size in *. rewrite length_map. exact Hsize. }
  { exact Hc. }
  exists w'. split.
  - open_step Hline.
    assert (X1 : extract (lit "PUT " ++ name) = (lit "PUT", " "%byte :: name))
      by reflexivity.
    assert (X2 : extract (" "%byte :: name) = (name, []))
      by (change (extract (" "%byte :: name)) with (extract name);
          apply extract_plain, Hname).
    rewrite X1. decide_literals. cbv iota. rewrite X2, Hsafe. cbn [negb].
    fold path. unfold bind. fold (with_sock w c1). rewrite E, R. reflexivity.
  - rewrite map_xor_involutive in Hf. repeat split; auto.
Qed.

Lemma upload_name_in (path : list byte) (c : byte) :
  In c (upload_name path) -> In c path.
Proof.
  unfold upload_name. destruct (find_last_of _ path) as [pos|]; [|auto].
  intros H. rewrite <- (firstn_skipn (pos + 1) path).
  apply in_or_app. right. exact H.
Qed.

(** X25.  A download, end to end.  The user picks 2 and types a safe name
    without whitespace; the server has the file under its shared root.
    When the stream the server reads begins with the request and the
    stream the client reads begins with the reply, the client sends
    exactly that request, the one frame [GET name]; the server answers it
    with exactly that reply, the frame [OK] and the transfer; and the
    client ends up with a local file of the name as typed that holds the
    content of the server's file.  Both loops go on, each stream left
    right after what was read. *)
Theorem download_end_to_end (wc ws : world)
  (name content more rest later : list byte) :
  let request := frame (lit "GET " ++ name) in
  let reply := frame (lit "OK")
               ++ be64 (size content) ++ map xor_byte content in
  safe_filename name = true ->
  (forall c, In c name -> isspace c = false) ->
  size (lit "GET " ++ name) < 2 ^ 32 ->
  size content < 2 ^ 64 ->
  tx_room (sock wc) = None ->
  tx_room (sock ws) = None ->
  files (disk ws) (ROOT_DIR ++ lit "/" ++ name) = Some content ->
  creatable (disk wc) name = true ->
  rx (sock ws) = request ++ later ->
  rx (sock wc) = reply ++ rest ->
  exists wc' ws',
    client_turn (lit "2" ++ x0a :: name ++ x0a :: more) wc
    = ((Continue, more), wc') /\
    command_step ws = (Continue, ws') /\
    tx (sock wc') = tx (sock wc) ++ request /\
    tx (sock ws') = tx (sock ws) ++ reply /\
    files (disk wc') name = Some content /\
    rx (sock wc') = rest /\
    rx (sock ws') = later.
Proof.
  intros request reply Hsafe Hname Hs Hsize Hrc Hrs Hfile Hcr Hrxs Hrxc.
  destruct (client_turn_download wc name content rest more)
    as (wc' & C1 & C2 & C3 & C4).
  { apply no_space_no_newline, Hname. }
  { apply safe_not_empty, Hsafe. }
  { exact Hrc. }
  { rewrite Hrxc. unfold reply. rewrite <- !app_assoc. reflexivity. }
  { exact Hsize. }
  { exact Hcr. }
  destruct (server_turn_get ws name content later Hrxs Hs Hname Hsafe Hrs Hfile)
    as (ws' & S1 & S2 & S3 & _).
  exists wc', ws'. repeat split; assumption.
Qed.

Lemma download_end_to_end_witness :
  let name := lit "a.txt" in
  let content := lit "abc" in
  let request := frame (lit "GET " ++ name) in
  let reply := frame (lit "OK")
               ++ be64 (size content) ++ map xor_byte content in
  let ws := reader_world (request ++ frame (lit "QUIT")) [] server_disk in
  let wc := reader_world (reply ++ frame (lit "BYE")) [] blank_disk in
  safe_filename name = true /\
  (forall c, In c name -> isspace c = false) /\
  size (lit "GET " ++ name) < 2 ^ 32 /\
  size content < 2 ^ 64 /\
  tx_room (sock wc) = None /\
  tx_room (sock ws) = None /\
  files (disk ws) (ROOT_DIR ++ lit "/" ++ name) = Some content /\
  creatable (disk wc) name = true /\
  rx (sock ws) = request ++ frame (lit "QUIT") /\
  rx (sock wc) = reply ++ frame (lit "BYE") /\
  exists wc' ws',
    client_turn (lit "2" ++ x0a :: name ++ x0a :: lit "4") wc
    = ((Continue, lit "4"), wc') /\
    command_step ws = (Continue, ws') /\
    tx (sock wc') = tx (sock wc) ++ request /\
    tx (sock ws') = tx (sock ws) ++ reply /\
    files (disk wc') name = Some content /\
    rx (sock wc') = frame (lit "BYE") /\
    rx (sock ws') = frame (lit "QUIT").
Proof.
  intros name content request reply ws wc.
  assert (H1 : safe_filename name = true) by (vm_compute; reflexivity).
  assert (H2 : forall c, In c name -> isspace c = false)
    by (intros c Hc; vm_compute in Hc;
        repeat (destruct Hc as [<-|Hc]; [reflexivity|]); contradiction).
  assert (H3 : size (lit "GET " ++ name) < 2 ^ 32) by (vm_compute; reflexivity).
  assert (H4 : size content < 2 ^ 64) by (vm_compute; reflexivity).
  assert (H5 : tx_room (sock wc) = None) by reflexivity.
  assert (H6 : tx_room (sock ws) = None) by reflexivity.
  assert (H7 : files (disk ws) (ROOT_DIR ++ lit "/" ++ name) = Some content)
    by (vm_compute; reflexivity).
  assert (H8 : creatable (disk wc) name = true) by reflexivity.
  assert (H9 : rx (sock ws) = request ++ frame (lit "QUIT")) by reflexivity.
  assert (H10 : rx (sock wc) = reply ++ frame (lit "BYE")) by reflexivity.
  refine (conj H1 (conj H2 (conj H3 (conj H4 (conj H5 (conj H6 (conj H7
            (conj H8 (conj H9 (conj H10 _)))))))))).
  exact (download_end_to_end wc ws name content (lit "4") (frame (lit "BYE"))
           (frame (lit "QUIT")) H1 H2 H3 H4 H5 H6 H7 H8 H9 H10).
Defined.

(** X26.  An upload, end to end.  The user picks 3 and types the path of a
    local file that can be read; the path has no whitespace and its last
    part is a safe name.  When the stream the server reads begins with
    what the client sends and the stream the client reads begins with the
    frame [OK], the client sends the frame [PUT] with the last part of
    the path and then the transfer; the server answers with the one frame
    [OK] and ends up with a file of that name in its uploads directory
    that holds the content of the local file.  Both loops go on. *)
Theorem upload_end_to_end (wc ws : world)
  (path content more rest later : list byte) :
  let name := upload_name path in
  let request := frame (lit "PUT " ++ name)
                 ++ be64 (size content) ++ map xor_byte content in
  let reply := frame (lit "OK") in
  safe_filename name = true ->
  (forall c, In c path -> isspace c = false) ->
  size (lit "PUT " ++ name) < 2 ^ 32 ->
  size content < 2 ^ 64 ->
  tx_room (sock wc) = None ->
  tx_room (sock ws) = None ->
  files (disk wc) path = Some content ->
  creatable (disk ws) (UPLOAD_DIR ++ lit "/" ++ name) = true ->
  rx (sock ws) = request ++ later ->
  rx (sock wc) = reply ++ rest ->
  exists wc' ws',
    client_turn (lit "3" ++ x0a :: path ++ x0a :: more) wc
    = ((Continue, more), wc') /\
    command_step ws = (Continue, ws') /\
    tx (sock wc') = tx (sock wc) ++ request /\
    tx (sock ws') = tx (sock ws) ++ reply /\
    files (disk ws') (UPLOAD_DIR ++ lit "/" ++ name) = Some content /\
    rx (sock wc') = rest /\
    rx (sock ws') = later.
Proof.
  intros name request reply Hsafe Hpath Hs Hsize Hrc Hrs Hfile Hcr Hrxs Hrxc.
  assert (Hne : path <> []).
  { intros ->. discriminate Hsafe. }
  destruct (client_turn_upload wc path content rest more)
    as (wc' & C1 & C2 & C3 & _).
  { apply no_space_no_newline, Hpath. }
  { exact Hne. }
  { exact Hrc. }
  { exact Hrxc. }
  { exact Hfile. }
  destruct (server_turn_put ws name content later) as (ws' & S1 & S2 & S3 & S4).
  { rewrite Hrxs. unfold request. rewrite <- !app_assoc. reflexivity. }
  { exact Hs. }
  { intros c Hc. apply Hpath, upload_name_in, Hc. }
  { exact Hsafe. }
  { exact Hrs. }
  { exact Hsize. }
  { exact Hcr. }
  exists wc', ws'. repeat split; try assumption.
Qed.

Lemma upload_end_to_end_witness :
  let path := lit "docs/up.bin" in
  let content := lit "hi" in
  let name := upload_name path in
  let request := frame (lit "PUT " ++ name)
                 ++ be64 (size content) ++ map xor_byte content in
  let reply := frame (lit "OK") in
  let ws := reader_world (request ++ frame (lit "QUIT")) [] server_disk in
  let wc := reader_world (reply ++ frame (lit "BYE")) []
              (one_file_disk path content) in
  safe_filename name = true /\
  (forall c, In c path -> isspace c = false) /\
  size (lit "PUT " ++ name) < 2 ^ 32 /\
  size content < 2 ^ 64 /\
  tx_room (sock wc) = None /\
  tx_room (sock ws) = None /\
  files (disk wc) path = Some content /\
  creatable (disk ws) (UPLOAD_DIR ++ lit "/" ++ name) = true /\
  rx (sock ws) = request ++ frame (lit "QUIT") /\
  rx (sock wc) = reply ++ frame (lit "BYE") /\
  exists wc' ws',
    client_turn (lit "3" ++ x0a :: path ++ x0a :: lit "4") wc
    = ((Continue, lit "4"), wc') /\
    command_step ws = (Continue, ws') /\
    tx (sock wc') = tx (sock wc) ++ request /\
    tx (sock ws') = tx (sock ws) ++ reply /\
    files (disk ws') (UPLOAD_DIR ++ lit "/" ++ name) = Some content /\
    rx (sock wc') = frame (lit "BYE") /\
    rx (sock ws') = frame (lit "QUIT").
Proof.
  intros path content name request reply ws wc.
  assert (H1 : safe_filename name = true) by (vm_compute; reflexivity).
  assert (H2 : forall c, In c path -> isspace c = false)
    by (intros c Hc; vm_compute in Hc;
        repeat (destruct Hc as [<-|Hc]; [reflexivity|]); contradiction).
  assert (H3 : size (lit "PUT " ++ name) < 2 ^ 32) by (vm_compute; reflexivity).
  assert (H4 : size content < 2 ^ 64) by (vm_compute; reflexivity).
  assert (H5 : tx_room (sock wc) = None) by reflexivity.
  assert (H6 : tx_room (sock ws) = None) by reflexivity.
  assert (H7 : files (disk wc) path = Some content)
    by (vm_compute; reflexivity).
  assert (H8 : creatable (disk ws) (UPLOAD_DIR ++ lit "/" ++ name) = true)
    by reflexivity.
  assert (H9 : rx (sock ws) = request ++ frame (lit "QUIT")) by reflexivity.
  assert (H10 : rx (sock wc) = reply ++ frame (lit "BYE")) by reflexivity.
  refine (conj H1 (conj H2 (conj H3 (conj H4 (conj H5 (conj H6 (conj H7
            (conj H8 (conj H9 (conj H10 _)))))))))).
  exact (upload_end_to_end wc ws path content (lit "4") (frame (lit "BYE"))
           (frame (lit "QUIT")) H1 H2 H3 H4 H5 H6 H7 H8 H9 H10).
Defined.

(** X27.  A request the server refuses.  The user picks 2 (download) or 3
    (upload) and types a name; the server answers the request with a
    frame other than [OK].  The client has sent the one request frame and
    nothing else, has made no file system call, so no local file is
    opened, created or cut, and the menu loop goes on. *)
Theorem client_request_refused (w : world) (upload : bool)
  (arg resp rest more : list byte) :
  let choice := if upload then lit "3" else lit "2" in
  let request := if upload then lit "PUT " ++ upload_name arg
                 else lit "GET " ++ arg in
  ~ In x0a arg -> arg <> [] ->
  tx_room (sock w) = None ->
  rx (sock w) = frame resp ++ rest ->
  size resp < 2 ^ 32 ->
  resp <> lit "OK" ->
  exists w',
    client_turn (choice ++ x0a :: arg ++ x0a :: more) w
    = ((Continue, more), w') /\
    tx (sock w') = tx (sock w) ++ frame request /\
    rx (sock w') = rest /\
    disk w' = disk w /\
    calls w' = calls w.
Proof.
  intros choice request Hnl Hne Hroom Hrx Hs Hresp.
  assert (B : bytes_eqb resp (lit "OK") = false).
  { destruct (bytes_eqb resp (lit "OK")) eqn:E; [|reflexivity].
    apply bytes_eqb_eq in E. contradiction. }
  destruct (say_open w request Hroom) as [s1 E1].
  set (w1 := with_sock w (after_send (sock w) (frame request) s1)) in E1.
  destruct (on_sock_recv_line_frame w1 resp rest Hrx Hs) as [s2 E2].
  unfold client_turn, choice, request in *. destruct upload.
  - rewrite (cin_line_next (lit "3")) by (vm_compute; intuition discriminate).
    decide_choice. rewrite cin_line_next by exact Hnl.
    replace (empty arg) with false by (destruct arg; [congruence|reflexivity]).
    cbv zeta. unfold bind. rewrite E1. cbn [negb]. rewrite E2, B. cbn [negb].
    eexists. split; [reflexivity|]. repeat split.
  - rewrite (cin_line_next (lit "2")) by (vm_compute; intuition discriminate).
    decide_choice. rewrite cin_line_next by exact Hnl.
    replace (empty arg) with false by (destruct arg; [congruence|reflexivity]).
    unfold bind. rewrite E1. cbn [negb]. rewrite E2, B. cbn [negb].
    eexists. split; [reflexivity|]. repeat split.
Qed.

Lemma client_request_refused_witness :
  let w := reader_world (frame (lit "ERR NotFound") ++ frame (lit "BYE")) []
             blank_disk in
  ~ In x0a (lit "no.txt") /\ lit "no.txt" <> [] /\
  tx_room (sock w) = None /\
  rx (sock w) = frame (lit "ERR NotFound") ++ frame (lit "BYE") /\
  size (lit "ERR NotFound") < 2 ^ 32 /\
  lit "ERR NotFound" <> lit "OK" /\
  exists w',
    client_turn (lit "2" ++ x0a :: lit "no.txt" ++ x0a :: lit "4") w
    = ((Continue, lit "4"), w') /\
    tx (sock w') = tx (sock w) ++ frame (lit "GET " ++ lit "no.txt") /\
    rx (sock w') = frame (lit "BYE") /\
    disk w' = disk w /\
    calls w' = calls w.
Proof.
  intros w.
  assert (H1 : ~ In x0a (lit "no.txt")) by (vm_compute; intuition discriminate).
  assert (H2 : lit "no.txt" <> []) by discriminate.
  assert (H3 : tx_room (sock w) = None) by reflexivity.
  assert (H4 : rx (sock w) = frame (lit "ERR NotFound") ++ frame (lit "BYE"))
    by reflexivity.
  assert (H5 : size (lit "ERR NotFound") < 2 ^ 32) by (vm_compute; reflexivity).
  assert (H6 : lit "ERR NotFound" <> lit "OK") by discriminate.
  refine (conj H1 (conj H2 (conj H3 (conj H4 (conj H5 (conj H6 _)))))).
  exact (client_request_refused w false (lit "no.txt") (lit "ERR NotFound")
           (frame (lit "BYE")) (lit "4") H1 H2 H3 H4 H5 H6).
Defined.

(** X28.  A login the server refuses.  The client reads the user name and
    the password from its input and sends the one frame
    [AUTH user password]; when the answer is a frame other than
    [AUTH_OK], [main] returns 1 without a menu turn, whatever is left
    of the input: it has sent nothing else and touched no file. *)
Theorem client_login_refused (fuel : nat) (w : world)
  (user pass resp rest more : list byte) :
  ~ In x0a user -> ~ In x0a pass ->
  tx_room (sock w) = None ->
  rx (sock w) = frame resp ++ rest ->
  size resp < 2 ^ 32 ->
  resp <> lit "AUTH_OK" ->
  exists w',
    client_main fuel (user ++ x0a :: pass ++ x0a :: more) w = Some (1, w') /\
    tx (sock w')
    = tx (sock w) ++ frame (lit "AUTH " ++ user ++ lit " " ++ pass) /\
    rx (sock w') = rest /\
    disk w' = disk w /\
    calls w' = calls w.
Proof.
  intros Hu Hp Hroom Hrx Hs Hresp.
  assert (B : bytes_eqb resp (lit "AUTH_OK") = false).
  { destruct (bytes_eqb resp (lit "AUTH_OK")) eqn:E; [|reflexivity].
    apply bytes_eqb_eq in E. contradiction. }
  destruct (say_open w (lit "AUTH " ++ user ++ lit " " ++ pass) Hroom)
    as [s1 E1].
  set (w1 := with_sock w (after_send (sock w) _ s1)) in E1.
  destruct (on_sock_recv_line_frame w1 resp rest Hrx Hs) as [s2 E2].
  unfold client_main.
  rewrite cin_line_next by exact Hu. rewrite cin_line_next by exact Hp.
  rewrite E1. cbn [negb]. rewrite E2, B. cbn [negb].
  eexists. split; [reflexivity|]. repeat split.
Qed.

Lemma client_login_refused_witness :
  let w := reader_world (frame (lit "AUTH_FAIL")) [] blank_disk in
  ~ In x0a (lit "alice") /\ ~ In x0a (lit "wrong") /\
  tx_room (sock w) = None /\
  rx (sock w) = frame (lit "AUTH_FAIL") ++ [] /\
  size (lit "AUTH_FAIL") < 2 ^ 32 /\
  lit "AUTH_FAIL" <> lit "AUTH_OK" /\
  exists w',
    client_main 5 (lit "alice" ++ x0a :: lit "wrong" ++ x0a :: lit "1") w
    = Some (1, w') /\
    tx (sock w')
    = tx (sock w) ++ frame (lit "AUTH " ++ lit "alice" ++ lit " " ++ lit "wrong") /\
    rx (sock w') = [] /\
    disk w' = disk w /\
    calls w' = calls w.
Proof.
  intros w.
  assert (H1 : ~ In x0a (lit "alice")) by (vm_compute; intuition discriminate).
  assert (H2 : ~ In x0a (lit "wrong")) by (vm_compute; intuition discriminate).
  assert (H3 : tx_room (sock w) = None) by reflexivity.
  assert (H4 : rx (sock w) = frame (lit "AUTH_FAIL") ++ []) by reflexivity.
  assert (H5 : size (lit "AUTH_FAIL") < 2 ^ 32) by (vm_compute; reflexivity).
  assert (H6 : lit "AUTH_FAIL" <> lit "AUTH_OK") by discriminate.
  refine (conj H1 (conj H2 (conj H3 (conj H4 (conj H5 (conj H6 _)))))).
  exact (client_login_refused 5 w (lit "alice") (lit "wrong") (lit "AUTH_FAIL")
           [] (lit "1") H1 H2 H3 H4 H5 H6).
Defined.

Lemma on_sock_recv_line_keeps (w : world) :
  tx (sock (snd (on_sock recv_line w))) = tx (sock w) /\
  disk (snd (on_sock recv_line w)) = disk w /\
  calls (snd (on_sock recv_line w)) = calls w.
Proof.
  unfold on_sock. pose proof (recv_line_tx (sock w)) as H.
  destruct (recv_line (sock w)) as [r c]. cbn [snd sock disk calls] in *.
  auto.
Qed.

(** What [recv_all] returns and what it leaves in the stream depend on
    the stream alone. *)
Lemma recv_all_same_stream (c c' : conn) (len : nat) :
  rx c = rx c' ->
  fst (recv_all c len) = fst (recv_all c' len) /\
  rx (snd (recv_all c len)) = rx (snd (recv_all c' len)).
Proof.
  intros E. destruct (Nat.le_gt_cases len (length (rx c))) as [H|H].
  - destruct (recv_all_enough c len H) as [s1 H1].
    assert (H' : (len <= length (rx c'))%nat) by (rewrite <- E; exact H).
    destruct (recv_all_enough c' len H') as [s2 H2].
    rewrite H1, H2. cbn [fst snd after_recv rx]. rewrite E. auto.
  - destruct (recv_all_short c len H) as [s1 H1].
    assert (H' : (length (rx c') < len)%nat) by (rewrite <- E; exact H).
    destruct (recv_all_short c' len H') as [s2 H2].
    rewrite H1, H2. auto.
Qed.

Lemma recv_line_same_stream (c c' : conn) :
  rx c = rx c' ->
  rx (snd (recv_line c)) = rx (snd (recv_line c')).
Proof.
  intros E. unfold recv_line.
  destruct (recv_all_same_stream c c' 4 E) as [F R].
  destruct (recv_all c 4) as [[hdr|] c1], (recv_all c' 4) as [[hdr'|] c1'];
    cbn [fst snd] in *; try discriminate; [|exact R].
  injection F as <-.
  destruct (ntohl (load_u32 hdr) =? 0); [exact R|].
  destruct (recv_all_same_stream c1 c1' (Z.to_nat (ntohl (load_u32 hdr))) R)
    as [F2 R2].
  destruct (recv_all c1 _) as [[b|] c2], (recv_all c1' _) as [[b'|] c2'];
    cbn [fst snd] in *; try discriminate; exact R2.
Qed.

(** X29.  Quit.  When the user picks 4, the client sends the one frame
    [QUIT], calls [recv_line] once and leaves the menu loop in that same
    turn, whatever the server answers and even when it answers nothing:
    the stream is left where one [recv_line] leaves it, so that after an
    answer of one frame what follows that frame is unread; no file is
    touched. *)
Theorem client_quit (fuel : nat) (w : world) (more : list byte) :
  tx_room (sock w) = None ->
  exists w',
    client_loop (S fuel) (lit "4" ++ x0a :: more) w = Some (more, w') /\
    tx (sock w') = tx (sock w) ++ frame (lit "QUIT") /\
    rx (sock w') = rx (snd (recv_line (sock w))) /\
    (forall resp rest,
       rx (sock w) = frame resp ++ rest -> size resp < 2 ^ 32 ->
       rx (sock w') = rest) /\
    disk w' = disk w /\
    calls w' = calls w.
Proof.
  intros Hroom.
  destruct (say_open w (lit "QUIT") Hroom) as [s1 E1].
  set (w1 := with_sock w (after_send (sock w) _ s1)) in E1.
  destruct (on_sock_recv_line_keeps w1) as (K1 & K2 & K3).
  assert (K4 : rx (sock (snd (on_sock recv_line w1)))
               = rx (snd (recv_line (sock w)))).
  { unfold on_sock.
    pose proof (recv_line_same_stream (sock w1) (sock w) eq_refl) as R.
    destruct (recv_line (sock w1)) as [r c]. exact R. }
  cbn [client_loop]. unfold client_turn.
  rewrite (cin_line_next (lit "4")) by (vm_compute; intuition discriminate).
  decide_choice. unfold bind. rewrite E1.
  destruct (on_sock recv_line w1) as [r w2]. cbn [snd ret] in *.
  exists w2. split; [reflexivity|].
  rewrite K1, K2, K3, K4. repeat split.
  intros resp rest Hrx Hs.
  destruct (recv_line_frame (sock w) resp rest Hrx Hs) as [sch E].
  rewrite E. reflexivity.
Qed.

Lemma client_quit_witness :
  let w := reader_world (frame (lit "BYE") ++ frame (lit "more")) [] blank_disk in
  tx_room (sock w) = None /\
  exists w',
    client_loop 1 (lit "4" ++ x0a :: lit "1") w = Some (lit "1", w') /\
    tx (sock w') = tx (sock w) ++ frame (lit "QUIT") /\
    rx (sock w') = rx (snd (recv_line (sock w))) /\
    (forall resp rest,
       rx (sock w) = frame resp ++ rest -> size resp < 2 ^ 32 ->
       rx (sock w') = rest) /\
    disk w' = disk w /\
    calls w' = calls w.
Proof.
  intros w.
  assert (H1 : tx_room (sock w) = None) by reflexivity.
  refine (conj H1 _).
  exact (client_quit 0 w (lit "1") H1).
Defined.


